(** * Rule engine and alert life cycle of moveinsync-sentinel

    A shallow embedding of the alert state machine (models/Alert.js), the
    rule index and evaluation (services/ruleEngine.js) and the history log
    (models/AlertHistory.js), followed by the properties of the
    specification that concern them.

    Modelling conventions
    - A JavaScript [Number] that the engine reads is a whole number ([Z]) or
      [NaN]; a [Date] is its time value in milliseconds since the epoch.
    - The wall clock ([Date.now()], [new Date()]) is a field of the world;
      all reads made during one engine call see the same instant.
    - Every awaited store operation ([Rule.find], [Alert.countDocuments],
      [alert.save], [AlertHistory.create]) may reject.  The world carries a
      script [faults] that says, call after call, whether the next one does.
    - An in-memory alert document and its stored copy are distinct: the
      state-machine methods change the former, [save] writes the latter. *)

From Stdlib Require Import ZArith QArith Lia.
From stdpp Require Import base gmap strings list pretty.

Local Open Scope string_scope.
Local Open Scope Z_scope.

(* ================================================================== *)
(** ** JavaScript values read by the engine *)
(* ================================================================== *)

Module JS.

Inductive Number := NaN | Num (z : Z).

(** Primitive values and [Date] objects: what an alert's metadata map
    holds once decoded from JSON or cast by the schema. *)
Inductive Value :=
| Undefined
| Null
| Boolean (b : bool)
| Numeric (n : Number)
| Str (s : string)
| DateObj (t : Number).

#[global] Instance Number_eq_dec : EqDecision Number.
Proof. solve_decision. Defined.
#[global] Instance Value_eq_dec : EqDecision Value.
Proof. solve_decision. Defined.

(** Property read [o[k]] / [o.k]: a missing key reads as [undefined]. *)
Definition get (o : gmap string Value) (k : string) : Value :=
  default Undefined (o !! k).

(** [ToBoolean]. *)
Definition ToBoolean (v : Value) : bool :=
  match v with
  | Undefined | Null => false
  | Boolean b => b
  | Numeric NaN => false
  | Numeric (Num z) => negb (z =? 0)
  | Str s => negb (String.eqb s "")
  | DateObj _ => true
  end.

(** [v === true]. *)
Definition strict_eq_true (v : Value) : bool :=
  match v with Boolean true => true | _ => false end.

(** [a || b] and [a && b] return one of their operands. *)
Definition or (a b : Value) : Value := if ToBoolean a then a else b.
Definition and (a b : Value) : Value := if ToBoolean a then b else a.

(** [TimeClip]: a time value beyond 8.64e15 ms is an invalid date. *)
Definition TimeClip (n : Number) : Number :=
  match n with
  | NaN => NaN
  | Num z => if Z.abs z <=? 8640000000000000 then Num z else NaN
  end.

(** The two conversions of the host that read the text of a string.  The
    engine never calls them by name; they are reached through [<=], [>=]
    and [new Date(...)] when a metadata value is a string.  Of their
    results only one is used: the empty string is not a date. *)
Class Host := {
  StringToNumber : string -> Number;
  DateParse : string -> Number;
  DateParse_empty : DateParse "" = NaN
}.

Section Conversions.
Context `{Host}.

(** [ToNumber], after [ToPrimitive] with hint number. *)
Definition ToNumber (v : Value) : Number :=
  match v with
  | Undefined => NaN
  | Null => Num 0
  | Boolean b => Num (if b then 1 else 0)
  | Numeric n => n
  | Str s => StringToNumber s
  | DateObj t => t
  end.

(** Abstract relational comparison [x < y]; [None] is its
    [undefined] answer (an operand is [NaN]). *)
Definition IsLessThan (x y : Value) : option bool :=
  match x, y with
  | Str a, Str b => Some (String.ltb a b)
  | _, _ =>
      match ToNumber x, ToNumber y with
      | Num a, Num b => Some (a <? b)
      | _, _ => None
      end
  end.

Definition lt (x y : Value) : bool :=
  match IsLessThan x y with Some true => true | _ => false end.
Definition gt (x y : Value) : bool :=
  match IsLessThan y x with Some true => true | _ => false end.
Definition le (x y : Value) : bool :=
  match IsLessThan y x with Some false => true | _ => false end.
Definition ge (x y : Value) : bool :=
  match IsLessThan x y with Some false => true | _ => false end.

(** [new Date(v)], as the time value of the date built. *)
Definition NewDate (v : Value) : Number :=
  match v with
  | DateObj t => t
  | Str s => TimeClip (DateParse s)
  | _ => TimeClip (ToNumber v)
  end.
End Conversions.

End JS.

(* ================================================================== *)
(** ** models/Alert.js *)
(* ================================================================== *)

Inductive Status := OPEN | ESCALATED | AUTO_CLOSED | RESOLVED.
Inductive Severity := INFO | WARNING | CRITICAL.

#[global] Instance Status_eq_dec : EqDecision Status.
Proof. solve_decision. Defined.

(** [a === b] on status strings. *)
Definition Status_eqb (a b : Status) : bool :=
  match a, b with
  | OPEN, OPEN | ESCALATED, ESCALATED
  | AUTO_CLOSED, AUTO_CLOSED | RESOLVED, RESOLVED => true
  | _, _ => false
  end.

(** OPEN and ESCALATED are active; AUTO_CLOSED and RESOLVED are terminal. *)
Definition terminal (s : Status) : bool :=
  match s with AUTO_CLOSED | RESOLVED => true | _ => false end.

Module Alert.

Record t := mk {
  _id : string;
  alertId : string;
  sourceType : string;
  severity : Severity;
  status : Status;
  timestamp : Z;
  metadata : option (gmap string JS.Value);   (* [None]: [undefined], as a
                                                 plain object can have it; a
                                                 document has the object *)
  escalatedAt : option Z;
  autoClosedAt : option Z;
  resolvedAt : option Z;
  closureReason : option string;
  resolvedBy : option string;
  notes : option string;
  expiresAt : option Z
}.

(** [reason || 'Auto-escalated by rule engine'] *)
Definition reason_or_default (reason : option string) : string :=
  match reason with
  | Some s => if String.eqb s "" then "Auto-escalated by rule engine" else s
  | None => "Auto-escalated by rule engine"
  end.

(** [alertSchema.methods.escalate]; [now] is the value of [new Date()]. *)
Definition escalate (now : Z) (reason : option string) (this : t) : t :=
  if Status_eqb (status this) OPEN then
    {| _id := _id this; alertId := alertId this;
       sourceType := sourceType this;
       severity := CRITICAL;
       status := ESCALATED;
       timestamp := timestamp this; metadata := metadata this;
       escalatedAt := Some now;
       autoClosedAt := autoClosedAt this; resolvedAt := resolvedAt this;
       closureReason := closureReason this; resolvedBy := resolvedBy this;
       notes := Some (reason_or_default reason);
       expiresAt := expiresAt this |}
  else this.

(** [alertSchema.methods.autoClose] *)
Definition autoClose (now : Z) (reason : option string) (this : t) : t :=
  if Status_eqb (status this) OPEN || Status_eqb (status this) ESCALATED then
    {| _id := _id this; alertId := alertId this;
       sourceType := sourceType this;
       severity := severity this;
       status := AUTO_CLOSED;
       timestamp := timestamp this; metadata := metadata this;
       escalatedAt := escalatedAt this;
       autoClosedAt := Some now;
       resolvedAt := resolvedAt this;
       closureReason := reason;
       resolvedBy := resolvedBy this;
       notes := notes this;
       expiresAt := expiresAt this |}
  else this.

(** [alertSchema.methods.resolve] *)
Definition resolve (now : Z) (userId : option string) (notes' : option string)
    (this : t) : t :=
  {| _id := _id this; alertId := alertId this;
     sourceType := sourceType this;
     severity := severity this;
     status := RESOLVED;
     timestamp := timestamp this; metadata := metadata this;
     escalatedAt := escalatedAt this;
     autoClosedAt := autoClosedAt this;
     resolvedAt := Some now;
     closureReason := closureReason this;
     resolvedBy := userId;
     notes := notes';
     expiresAt := expiresAt this |}.

End Alert.

(* ================================================================== *)
(** ** models/Rule.js *)
(* ================================================================== *)

Module Rule.

(** [undefined] is [None]; a present [Number] or [String] is [Some]. *)
Record Conditions := mkConditions {
  escalate_if_count : option Z;
  window_mins : option Z;
  auto_close_if : option string;
  auto_close_after_mins : option Z
}.

Record t := mk {
  ruleId : string;
  sourceType : string;
  enabled : bool;
  priority : Z;
  conditions : Conditions
}.

End Rule.

(** Truthiness of an optional number and of an optional string, as tested
    by [if (conditions.x)]. *)
Definition specified (n : option Z) : bool :=
  match n with Some z => negb (z =? 0) | None => false end.

Definition named (s : option string) : bool :=
  match s with Some x => negb (String.eqb x "") | None => false end.

(* ================================================================== *)
(** ** models/AlertHistory.js *)
(* ================================================================== *)

Inductive Actor := SYSTEM | USER | RULE_ENGINE | AUTO_CLOSE_JOB.

Module AlertHistory.

Record t := mk {
  alertId : string;
  alert : string;
  fromStatus : option Status;
  toStatus : Status;
  reason : option string;
  triggeredBy : Actor;
  userId : option string;
  metadata_rule : option string;
  timestamp : Z
}.

End AlertHistory.

(* ================================================================== *)
(** ** The process state and asynchronous computations *)
(* ================================================================== *)

(** The rule engine singleton, the rule cache and the three collections. *)
Record World := mkWorld {
  rules : gmap string Rule.t;           (* this.rules *)
  initialized : bool;                    (* this.initialized *)
  cachedRules : option (list Rule.t);    (* cacheManager, key 'rules:all';
                                            its hit and miss counters are
                                            not part of this state *)
  ruleDocs : list Rule.t;                (* Rule collection *)
  alertDocs : list Alert.t;              (* Alert collection *)
  historyDocs : list AlertHistory.t;     (* AlertHistory collection *)
  clock : Z;                             (* Date.now() *)
  faults : list bool                     (* next store calls that reject *)
}.

Definition set_engine (m : gmap string Rule.t) (i : bool) (w : World) : World :=
  {| rules := m; initialized := i; cachedRules := cachedRules w;
     ruleDocs := ruleDocs w; alertDocs := alertDocs w;
     historyDocs := historyDocs w; clock := clock w; faults := faults w |}.

Definition set_cachedRules (c : option (list Rule.t)) (w : World) : World :=
  {| rules := rules w; initialized := initialized w; cachedRules := c;
     ruleDocs := ruleDocs w; alertDocs := alertDocs w;
     historyDocs := historyDocs w; clock := clock w; faults := faults w |}.

Definition set_alertDocs (l : list Alert.t) (w : World) : World :=
  {| rules := rules w; initialized := initialized w;
     cachedRules := cachedRules w; ruleDocs := ruleDocs w; alertDocs := l;
     historyDocs := historyDocs w; clock := clock w; faults := faults w |}.

Definition set_historyDocs (l : list AlertHistory.t) (w : World) : World :=
  {| rules := rules w; initialized := initialized w;
     cachedRules := cachedRules w; ruleDocs := ruleDocs w;
     alertDocs := alertDocs w; historyDocs := l; clock := clock w;
     faults := faults w |}.

Definition set_faults (l : list bool) (w : World) : World :=
  {| rules := rules w; initialized := initialized w;
     cachedRules := cachedRules w; ruleDocs := ruleDocs w;
     alertDocs := alertDocs w; historyDocs := historyDocs w;
     clock := clock w; faults := l |}.

(** How a call ends: with a value, or with a thrown error and its message. *)
Inductive Completion (A : Type) :=
| Normal (a : A)
| Throw (message : string).
Arguments Normal {A} a.
Arguments Throw {A} message.

(** A computation over a state [S]; the state reached is kept when it
    throws (nothing is rolled back). *)
Definition Async (S A : Type) : Type := S -> Completion A * S.

Definition ret {S A} (a : A) : Async S A := fun s => (Normal a, s).

Definition bind {S A B} (m : Async S A) (k : A -> Async S B) : Async S B :=
  fun s =>
    match m s with
    | (Normal a, s') => k a s'
    | (Throw e, s') => (Throw e, s')
    end.

Definition throw {S A} (message : string) : Async S A :=
  fun s => (Throw message, s).

(** [try { m } catch (error) { h error.message }] *)
Definition try_catch {S A} (m : Async S A) (h : string -> Async S A) : Async S A :=
  fun s =>
    match m s with
    | (Normal a, s') => (Normal a, s')
    | (Throw e, s') => h e s'
    end.

Definition gets {S A} (f : S -> A) : Async S A := fun s => (Normal (f s), s).
Definition modify {S} (f : S -> S) : Async S unit := fun s => (Normal tt, f s).

Declare Scope async_scope.
Delimit Scope async_scope with async.
Notation "'let*' x ':=' m 'in' k" := (bind m (fun x => k))
  (at level 10, x pattern, m at level 100, k at level 200) : async_scope.
Notation "m ;; k" := (bind m (fun _ => k))
  (at level 100, right associativity) : async_scope.
Local Open Scope async_scope.

(** [Date.now()] *)
Definition DateNow : Async World Z := gets clock.

(** The rejection point of an awaited store operation. *)
Definition storeCall : Async World unit :=
  fun w =>
    match faults w with
    | [] => (Normal tt, w)
    | false :: fs => (Normal tt, set_faults fs w)
    | true :: fs => (Throw "store operation failed", set_faults fs w)
    end.

(** *** Rule store and rule cache *)

Fixpoint insertByPriority (r : Rule.t) (l : list Rule.t) : list Rule.t :=
  match l with
  | [] => [r]
  | x :: l' =>
      if Rule.priority x <? Rule.priority r then r :: x :: l'
      else x :: insertByPriority r l'
  end.

(** [.sort({ priority: -1 })] *)
Definition sortByPriorityDesc (l : list Rule.t) : list Rule.t :=
  foldr insertByPriority [] l.

(** [Rule.find({ enabled: true }).sort({ priority: -1 })] *)
Definition Rule_find_enabled : Async World (list Rule.t) :=
  storeCall ;;
  let* docs := gets ruleDocs in
  ret (sortByPriorityDesc (List.filter Rule.enabled docs)).

(** *** Alert store *)

(** The filter of the count query of [evaluateAlert]. *)
Record CountQuery := mkCountQuery {
  q_sourceType : string;
  q_driverId : JS.Value;          (* 'metadata.driverId' *)
  q_timestamp_gte : Z;            (* timestamp: { $gte: ... } *)
  q_status_in : list Status       (* status: { $in: [...] } *)
}.

(** The stored value at path [metadata.driverId]. *)
Definition driverIdOf (doc : Alert.t) : JS.Value :=
  match Alert.metadata doc with
  | Some md => JS.get md "driverId"
  | None => JS.Undefined
  end.

Definition nullish (v : JS.Value) : bool :=
  match v with JS.Undefined | JS.Null => true | _ => false end.

(** Equality match of a query value against a stored field: [undefined] is
    sent as [null], and [null] matches a missing or null field. *)
Definition fieldMatches (queried stored : JS.Value) : bool :=
  if nullish queried then nullish stored
  else bool_decide (stored = queried).

Definition statusIn (s : Status) (l : list Status) : bool :=
  existsb (Status_eqb s) l.

Definition matchesQuery (q : CountQuery) (doc : Alert.t) : bool :=
  String.eqb (Alert.sourceType doc) (q_sourceType q)
  && fieldMatches (q_driverId q) (driverIdOf doc)
  && (q_timestamp_gte q <=? Alert.timestamp doc)
  && statusIn (Alert.status doc) (q_status_in q).

(** [Alert.countDocuments(q)] *)
Definition Alert_countDocuments (q : CountQuery) : Async World Z :=
  storeCall ;;
  let* docs := gets alertDocs in
  ret (Z.of_nat (length (List.filter (matchesQuery q) docs))).

Definition sameDocument (a b : Alert.t) : bool :=
  String.eqb (Alert._id a) (Alert._id b).

Definition replaceDocument (a : Alert.t) (docs : list Alert.t) : list Alert.t :=
  map (fun d => if sameDocument a d then a else d) docs.

(** [alert.save()] of a document that is not new: the stored copy takes
    the state of the in-memory one; it throws when no stored document has
    its [_id]. *)
Definition save (a : Alert.t) : Async World unit :=
  storeCall ;;
  let* docs := gets alertDocs in
  if existsb (sameDocument a) docs then
    modify (set_alertDocs (replaceDocument a docs))
  else throw "No document found for query".

(** [AlertHistory.logTransition]: [this.create({...})] appends one entry. *)
Definition logTransition (alertId : string) (alert : Alert.t)
    (fromStatus : option Status) (toStatus : Status) (reason : option string)
    (triggeredBy : Actor) (userId : option string) (rule : option string)
    : Async World unit :=
  storeCall ;;
  let* now := DateNow in
  modify (fun w =>
    set_historyDocs
      (historyDocs w ++
         [ {| AlertHistory.alertId := alertId;
              AlertHistory.alert := Alert._id alert;
              AlertHistory.fromStatus := fromStatus;
              AlertHistory.toStatus := toStatus;
              AlertHistory.reason := reason;
              AlertHistory.triggeredBy := triggeredBy;
              AlertHistory.userId := userId;
              AlertHistory.metadata_rule := rule;
              AlertHistory.timestamp := now |} ]) w).

(* ================================================================== *)
(** ** services/ruleEngine.js *)
(* ================================================================== *)

(** The value returned by [evaluateAlert]; the early "no action" return
    carries neither [reason] nor [rule]. *)
Record Evaluation := mkEvaluation {
  shouldEscalate : bool;
  shouldAutoClose : bool;
  reason : option string;
  rule : option Rule.t
}.

(** The value returned by [processAlert]. *)
Record ProcessResult := mkProcessResult {
  success : bool;
  modified : bool;
  evaluation : option Evaluation;
  error : option string
}.

(** The counters returned by [processBatch]. *)
Record BatchResults := mkBatchResults {
  processed : nat;
  escalated : nat;
  autoClosed : nat;
  errors : nat
}.

(** An in-memory alert document together with the process state: the
    state-machine methods change the first component in place. *)
Definition Frame : Type := Alert.t * World.

Definition inWorld {A} (m : Async World A) : Async Frame A :=
  fun f => let '(c, w') := m (snd f) in (c, (fst f, w')).

Definition this : Async Frame Alert.t := gets fst.

Definition call (method : Alert.t -> Alert.t) : Async Frame unit :=
  modify (fun f => (method (fst f), snd f)).

(** [(now - timestamp) / (1000 * 60)], a number of minutes. *)
Definition minutesSince (now timestamp : Z) : Q :=
  (inject_Z (now - timestamp) / inject_Z (1000 * 60))%Q.

(** The message of the CastError with which the cast of a filter rejects
    an invalid date as a bound of [timestamp]. *)
Definition dquote : string := String (Ascii.ascii_of_nat 34) EmptyString.

Definition CastError_timestamp : string :=
  "Cast to date failed for value " +:+ dquote +:+ "Invalid Date" +:+ dquote
  +:+ " (type Date) at path " +:+ dquote +:+ "timestamp" +:+ dquote
  +:+ " for model " +:+ dquote +:+ "Alert" +:+ dquote.

Section RuleEngine.
Context `{JS.Host}.

(** The [forEach] of [initialize], on the cleared map. *)
Definition indexRules (rs : list Rule.t) : gmap string Rule.t :=
  foldl (fun m rule => <[Rule.sourceType rule := rule]> m) ∅ rs.

Definition initialize : Async World unit :=
  try_catch
    (let* cached := gets cachedRules in
     let* rs := match cached with
           | Some rs => ret rs
           | None =>
               let* rs := Rule_find_enabled in
               modify (set_cachedRules (Some rs)) ;;
               ret rs
           end in
     modify (set_engine (indexRules rs) true))
    (fun error => throw error).

Definition reloadRules : Async World unit :=
  modify (set_cachedRules None) ;;
  initialize.

Definition getRule (sourceType : string) : Async World (option Rule.t) :=
  gets (fun w => rules w !! sourceType).

(** The value returned for [condition] on [metadata]; [now] is the time
    value of [new Date()]. *)
Definition evaluateCloseCondition (now : Z) (condition : string)
    (metadata : gmap string JS.Value) : JS.Value :=
  if String.eqb condition "document_valid" then
    JS.or
      (JS.Boolean (JS.strict_eq_true (JS.get metadata "documentValid")))
      (JS.and
         (JS.get metadata "expiryDate")
         (JS.Boolean
            (JS.gt (JS.DateObj (JS.NewDate (JS.get metadata "expiryDate")))
                   (JS.DateObj (JS.Num now)))))
  else if String.eqb condition "speed_normalized" then
    JS.Boolean (JS.le (JS.get metadata "speed") (JS.get metadata "speedLimit"))
  else if String.eqb condition "feedback_improved" then
    JS.Boolean (JS.ge (JS.get metadata "feedbackRating")
                      (JS.Numeric (JS.Num 3)))
  else
    JS.Boolean (JS.strict_eq_true (JS.get metadata condition)).

Definition noAction : Evaluation :=
  {| shouldEscalate := false; shouldAutoClose := false;
     reason := None; rule := None |}.

Definition evaluateAlert (alert : Alert.t) : Async World Evaluation :=
  let* init := gets initialized in
  (if negb init then initialize else ret tt) ;;
  let* found := getRule (Alert.sourceType alert) in
  match found with
  | None => ret noAction
  | Some rule =>
    if negb (Rule.enabled rule) then ret noAction else
    let conditions := Rule.conditions rule in
    let shouldEscalate := false in
    let shouldAutoClose := false in
    let reason := "" in
    (* Check escalation conditions *)
    let* (shouldEscalate, reason) :=
      (if specified (Rule.escalate_if_count conditions)
          && specified (Rule.window_mins conditions) then
         let escalate_if_count := default 0 (Rule.escalate_if_count conditions) in
         let window_mins := default 0 (Rule.window_mins conditions) in
         let* now := DateNow in
         let windowStart :=
           JS.TimeClip (JS.Num (now - window_mins * 60 * 1000)) in
         let* metadata := match Alert.metadata alert with
                     | Some metadata => ret metadata
                     | None => throw "Cannot read properties of undefined (reading 'driverId')"
                     end in
         (* Count similar alerts in time window for same driver; the
            filter is cast before it is sent, and an Invalid Date as the
            bound of [timestamp] is rejected by the cast *)
         let* alertCount :=
           match windowStart with
           | JS.Num windowStart =>
               Alert_countDocuments
                 {| q_sourceType := Alert.sourceType alert;
                    q_driverId := JS.get metadata "driverId";
                    q_timestamp_gte := windowStart;
                    q_status_in := [OPEN; ESCALATED] |}
           | JS.NaN => throw CastError_timestamp
           end in
         if escalate_if_count <=? alertCount then
           ret (true,
                pretty alertCount +:+ " " +:+ Alert.sourceType alert
                +:+ " alerts detected within " +:+ pretty window_mins
                +:+ " minutes")
         else ret (shouldEscalate, reason)
       else ret (shouldEscalate, reason)) in
    (* Check auto-close conditions *)
    let* (shouldAutoClose, reason) :=
      (match Alert.metadata alert with
       | Some metadata =>
           if named (Rule.auto_close_if conditions) then
             let auto_close_if := default "" (Rule.auto_close_if conditions) in
             let* now := DateNow in
             let closeConditionMet :=
               evaluateCloseCondition now auto_close_if metadata in
             if JS.ToBoolean closeConditionMet then
               ret (true, "Condition met: " +:+ auto_close_if)
             else ret (shouldAutoClose, reason)
           else ret (shouldAutoClose, reason)
       | None => ret (shouldAutoClose, reason)
       end) in
    (* Check time-based auto-close *)
    let* (shouldAutoClose, reason) :=
      (if specified (Rule.auto_close_after_mins conditions) then
         let auto_close_after_mins :=
           default 0 (Rule.auto_close_after_mins conditions) in
         let* now := DateNow in
         let alertAge := minutesSince now (Alert.timestamp alert) in
         if Qle_bool (inject_Z auto_close_after_mins) alertAge then
           ret (true,
                "Alert aged beyond " +:+ pretty auto_close_after_mins
                +:+ " minutes")
         else ret (shouldAutoClose, reason)
       else ret (shouldAutoClose, reason)) in
    ret {| shouldEscalate := shouldEscalate;
           shouldAutoClose := shouldAutoClose;
           reason := Some reason;
           rule := Some rule |}
  end.

(** The first [if] of [processAlert]: escalate an OPEN alert. *)
Definition escalateByRule (evaluation : Evaluation) (modified : bool)
    : Async Frame bool :=
  let* alert := this in
  if shouldEscalate evaluation && Status_eqb (Alert.status alert) OPEN then
    let oldStatus := Alert.status alert in
    let* now := inWorld DateNow in
    call (Alert.escalate now (reason evaluation)) ;;
    let* alert := this in
    inWorld (save alert) ;;
    (* Log history *)
    inWorld (logTransition (Alert.alertId alert) alert (Some oldStatus)
               ESCALATED (reason evaluation) RULE_ENGINE None
               (Rule.ruleId <$> rule evaluation)) ;;
    ret true
  else ret modified.

(** The second [if] of [processAlert]: auto-close an active alert. *)
Definition autoCloseByRule (evaluation : Evaluation) (modified : bool)
    : Async Frame bool :=
  let* alert := this in
  if shouldAutoClose evaluation
     && (Status_eqb (Alert.status alert) OPEN
         || Status_eqb (Alert.status alert) ESCALATED) then
    let oldStatus := Alert.status alert in
    let* now := inWorld DateNow in
    call (Alert.autoClose now (reason evaluation)) ;;
    let* alert := this in
    inWorld (save alert) ;;
    (* Log history *)
    inWorld (logTransition (Alert.alertId alert) alert (Some oldStatus)
               AUTO_CLOSED (reason evaluation) RULE_ENGINE None
               (Rule.ruleId <$> rule evaluation)) ;;
    ret true
  else ret modified.

(** The body of the [try] block of [processAlert]. *)
Definition processAlert_try : Async Frame ProcessResult :=
  let* alert := this in
  let* evaluation := inWorld (evaluateAlert alert) in
  let modified := false in
  let* modified := escalateByRule evaluation modified in
  let* modified := autoCloseByRule evaluation modified in
  ret {| success := true; modified := modified;
         evaluation := Some evaluation; error := None |}.

(** [{ success: false, error: error.message }] *)
Definition failed (message : string) : ProcessResult :=
  {| success := false; modified := false;
     evaluation := None; error := Some message |}.

(** [processAlert]: the [catch] turns any error into a failure result.
    The alert is returned in the state the call left it in. *)
Definition processAlert (alert : Alert.t)
    : Async World (ProcessResult * Alert.t) :=
  fun w =>
    match processAlert_try (alert, w) with
    | (Normal result, (alert', w')) => (Normal (result, alert'), w')
    | (Throw message, (alert', w')) => (Normal (failed message, alert'), w')
    end.

Definition incr_processed (r : BatchResults) : BatchResults :=
  {| processed := S (processed r); escalated := escalated r;
     autoClosed := autoClosed r; errors := errors r |}.
Definition incr_escalated (r : BatchResults) : BatchResults :=
  {| processed := processed r; escalated := S (escalated r);
     autoClosed := autoClosed r; errors := errors r |}.
Definition incr_autoClosed (r : BatchResults) : BatchResults :=
  {| processed := processed r; escalated := escalated r;
     autoClosed := S (autoClosed r); errors := errors r |}.
Definition incr_errors (r : BatchResults) : BatchResults :=
  {| processed := processed r; escalated := escalated r;
     autoClosed := autoClosed r; errors := S (errors r) |}.

(** One iteration of the [for] loop of [processBatch]. *)
Definition processBatch_step (results : BatchResults) (alert : Alert.t)
    : Async World (BatchResults * Alert.t) :=
  try_catch
    (let* (result, alert) := processAlert alert in
     if success result then
       let results := incr_processed results in
       if modified result then
         let results :=
           if Status_eqb (Alert.status alert) ESCALATED
           then incr_escalated results else results in
         let results :=
           if Status_eqb (Alert.status alert) AUTO_CLOSED
           then incr_autoClosed results else results in
         ret (results, alert)
       else ret (results, alert)
     else ret (incr_errors results, alert))
    (fun error => ret (incr_errors results, alert)).

Fixpoint processBatch_loop (results : BatchResults) (alerts : list Alert.t)
    : Async World (BatchResults * list Alert.t) :=
  match alerts with
  | [] => ret (results, [])
  | alert :: rest =>
      let* (results, alert) := processBatch_step results alert in
      let* (results, rest) := processBatch_loop results rest in
      ret (results, alert :: rest)
  end.

(** [processBatch]: the counters, and the alerts as the batch left them. *)
Definition processBatch (alerts : list Alert.t)
    : Async World (BatchResults * list Alert.t) :=
  processBatch_loop
    {| processed := 0; escalated := 0; autoClosed := 0; errors := 0 |}
    alerts.

End RuleEngine.

(* ================================================================== *)
(** ** Words of the specification *)
(* ================================================================== *)

(** The part of the process state that the alert life cycle is about: the
    two collections, the rule collection and the clock. *)
Definition stores (w : World)
    : list Alert.t * list AlertHistory.t * list Rule.t * Z :=
  (alertDocs w, historyDocs w, ruleDocs w, clock w).

(** A computation that leaves the collections and the clock alone. *)
Definition readOnly {A} (m : Async World A) : Prop :=
  forall w c w', m w = (c, w') -> stores w' = stores w.

(** The history entries written between two states of the log. *)
Definition appended (w w' : World) : list AlertHistory.t :=
  drop (length (historyDocs w)) (historyDocs w').

(** A history entry that records the transition [from] -> [to]. *)
Definition records (from to : Status) (e : AlertHistory.t) : bool :=
  match AlertHistory.fromStatus e with
  | Some s => Status_eqb s from && Status_eqb (AlertHistory.toStatus e) to
  | None => false
  end.

(** No store call among the next [n] is scripted to reject. *)
Definition calm (n : nat) (w : World) : Prop :=
  forall i, (i < n)%nat -> faults w !! i <> Some true.

(** A rule list in the order of [.sort({ priority: -1 })]. *)
Fixpoint priorityDescending (l : list Rule.t) : Prop :=
  match l with
  | [] => True
  | r :: l' =>
      (forall r', r' ∈ l' -> Rule.priority r' <= Rule.priority r)
      /\ priorityDescending l'
  end.

(** Stored alerts that resemble [alert]: active, of its source type and
    for its driver. *)
Definition similar (alert : Alert.t) (driverId : JS.Value) (doc : Alert.t) : bool :=
  statusIn (Alert.status doc) [OPEN; ESCALATED]
  && String.eqb (Alert.sourceType doc) (Alert.sourceType alert)
  && fieldMatches driverId (driverIdOf doc).

(** How many stored alerts similar to [alert] have a timestamp at or
    after [from]. *)
Definition similarSince (from : Z) (alert : Alert.t) (driverId : JS.Value)
    (docs : list Alert.t) : Z :=
  Z.of_nat (length (List.filter
    (fun doc => similar alert driverId doc && (from <=? Alert.timestamp doc))
    docs)).

(** How many have a timestamp within [[from, to]]. *)
Definition similarWithin (from to : Z) (alert : Alert.t) (driverId : JS.Value)
    (docs : list Alert.t) : Z :=
  Z.of_nat (length (List.filter
    (fun doc => similar alert driverId doc
                && (from <=? Alert.timestamp doc)
                && (Alert.timestamp doc <=? to))
    docs)).

(** The date that [v] denotes, [new Date(v)], is strictly later than [now]. *)
Definition strictlyFuture `{JS.Host} (now : Z) (v : JS.Value) : bool :=
  match JS.NewDate v with
  | JS.Num t => now <? t
  | JS.NaN => false
  end.

(** Both operands are strings: [<=] then compares text, not numbers. *)
Definition bothStrings (x y : JS.Value) : bool :=
  match x, y with JS.Str _, JS.Str _ => true | _, _ => false end.

(** The list that [initialize] iterates over: the cached one, or on a
    cache miss the answer of the rule store. *)
Definition delivered (w : World) (rs : list Rule.t) : Prop :=
  cachedRules w = Some rs
  \/ (cachedRules w = None /\ calm 1 w
      /\ rs = sortByPriorityDesc (List.filter Rule.enabled (ruleDocs w))).

(** The rule asks for the count check: both [escalate_if_count] and
    [window_mins] are specified. *)
Definition counts (r : Rule.t) : bool :=
  specified (Rule.escalate_if_count (Rule.conditions r))
  && specified (Rule.window_mins (Rule.conditions r)).

Definition threshold (r : Rule.t) : Z :=
  default 0 (Rule.escalate_if_count (Rule.conditions r)).

(** Start of the counting window, in milliseconds. *)
Definition windowStart (now : Z) (r : Rule.t) : Z :=
  now - default 0 (Rule.window_mins (Rule.conditions r)) * 60 * 1000.

(** A time value that is a date: [new Date(t)] is not an Invalid Date. *)
Definition validDate (t : Z) : bool := Z.abs t <=? 8640000000000000.

(** [w0] is the state in which [evaluateAlert], called in [w], looks the
    rule up: [w] itself when the engine is initialized, and else the
    state in which its call of [initialize] has left the engine. *)
Definition consulted (w w0 : World) : Prop :=
  if initialized w then w0 = w else initialize w = (Normal tt, w0).

(** The rule names a close condition, the alert has metadata, and the
    condition holds of it. *)
Definition conditionMet `{JS.Host} (now : Z) (r : Rule.t) (alert : Alert.t) : bool :=
  match Alert.metadata alert, Rule.auto_close_if (Rule.conditions r) with
  | Some metadata, Some name =>
      negb (String.eqb name "")
      && JS.ToBoolean (evaluateCloseCondition now name metadata)
  | _, _ => false
  end.

(** The age of the alert, in minutes, has reached [mins]. *)
Definition agedBeyond (mins : Z) (now : Z) (alert : Alert.t) : Prop :=
  (inject_Z mins <= minutesSince now (Alert.timestamp alert))%Q.

(** The time-based check of the rule fires. *)
Definition agedOut (now : Z) (r : Rule.t) (alert : Alert.t) : bool :=
  specified (Rule.auto_close_after_mins (Rule.conditions r))
  && Qle_bool
       (inject_Z (default 0 (Rule.auto_close_after_mins (Rule.conditions r))))
       (minutesSince now (Alert.timestamp alert)).

(** The count check of the rule fires. *)
Definition countReached (w : World) (r : Rule.t) (alert : Alert.t) : bool :=
  counts r
  && match Alert.metadata alert with
     | Some metadata =>
         threshold r <=? similarSince (windowStart (clock w) r) alert
                           (JS.get metadata "driverId") (alertDocs w)
     | None => false
     end.

(** The reason that an auto-close check leaves in the result, the
    time-based check being the last to write it. *)
Definition closeReason `{JS.Host} (w : World) (r : Rule.t) (alert : Alert.t)
    : option string :=
  if agedOut (clock w) r alert then
    Some ("Alert aged beyond "
          +:+ pretty (default 0 (Rule.auto_close_after_mins (Rule.conditions r)))
          +:+ " minutes")
  else if conditionMet (clock w) r alert then
    Some ("Condition met: "
          +:+ default "" (Rule.auto_close_if (Rule.conditions r)))
  else None.

(** The reason that the count check writes. *)
Definition escalationReason (w : World) (r : Rule.t) (alert : Alert.t) : string :=
  match Alert.metadata alert with
  | Some metadata =>
      pretty (similarSince (windowStart (clock w) r) alert
                (JS.get metadata "driverId") (alertDocs w))
      +:+ " " +:+ Alert.sourceType alert +:+ " alerts detected within "
      +:+ pretty (default 0 (Rule.window_mins (Rule.conditions r)))
      +:+ " minutes"
  | None => ""
  end.

(** The reason returned: the three checks write it in turn. *)
Definition lastReason `{JS.Host} (w : World) (r : Rule.t) (alert : Alert.t) : string :=
  match closeReason w r alert with
  | Some s => s
  | None => if countReached w r alert then escalationReason w r alert else ""
  end.

(** The alert has a stored copy, so that [save] finds its document. *)
Definition stored (alert : Alert.t) (w : World) : Prop :=
  existsb (sameDocument alert) (alertDocs w) = true.

(** The history entry that the rule engine writes for a transition of
    [alert] decided by [evaluation]. *)
Definition transitionEntry (evaluation : Evaluation) (alert : Alert.t)
    (from to : Status) (now : Z) : AlertHistory.t :=
  {| AlertHistory.alertId := Alert.alertId alert;
     AlertHistory.alert := Alert._id alert;
     AlertHistory.fromStatus := Some from;
     AlertHistory.toStatus := to;
     AlertHistory.reason := reason evaluation;
     AlertHistory.triggeredBy := RULE_ENGINE;
     AlertHistory.userId := None;
     AlertHistory.metadata_rule := Rule.ruleId <$> rule evaluation;
     AlertHistory.timestamp := now |}.

(** What processing the alerts of a batch one after the other gives: for
    each alert, in order, the result of [processAlert] and the alert as the
    call left it, each call starting in the state the previous one
    reached. *)
Fixpoint outcomes `{JS.Host} (alerts : list Alert.t) (w : World)
    : list (ProcessResult * Alert.t) :=
  match alerts with
  | [] => []
  | alert :: rest =>
      match processAlert alert w with
      | (Normal o, w') => o :: outcomes rest w'
      | (Throw e, w') => (failed e, alert) :: outcomes rest w'
      end
  end.

(** The outcome of an alert that was processed, resp. that failed. *)
Definition succeeded (o : ProcessResult * Alert.t) : bool := success (fst o).
Definition errored (o : ProcessResult * Alert.t) : bool := negb (success (fst o)).

(** The outcome of an alert that was modified and is left in status [s]. *)
Definition leftIn (s : Status) (o : ProcessResult * Alert.t) : bool :=
  success (fst o) && modified (fst o) && Status_eqb (Alert.status (snd o)) s.

Definition howMany {A} (p : A -> bool) (l : list A) : nat :=
  length (List.filter p l).

(* ================================================================== *)
(** ** Further words *)
(* ================================================================== *)

(** How far along its life cycle an alert is. *)
Definition rank (s : Status) : nat :=
  match s with OPEN => 0 | ESCALATED => 1 | AUTO_CLOSED | RESOLVED => 2 end.

(** The engine singleton and the rule cache. *)
Definition engine (w : World) : gmap string Rule.t * bool * option (list Rule.t) :=
  (rules w, initialized w, cachedRules w).

(** What the rule store answers to [Rule.find({ enabled: true })
    .sort({ priority: -1 })]. *)
Definition enabledRules (w : World) : list Rule.t :=
  sortByPriorityDesc (List.filter Rule.enabled (ruleDocs w)).

(** The rules of a list that apply to a source type, in list order. *)
Definition rulesFor (sourceType : string) (rs : list Rule.t) : list Rule.t :=
  List.filter (fun r => String.eqb (Rule.sourceType r) sourceType) rs.

(** What a write of the engine may do to the state besides the history:
    replace the stored copy of the alert, nothing else. *)
Definition writesOnly (a' : Alert.t) (w w' : World) : Prop :=
  clock w' = clock w /\ ruleDocs w' = ruleDocs w /\ engine w' = engine w
  /\ (alertDocs w' = alertDocs w
      \/ alertDocs w' = replaceDocument a' (alertDocs w)).

(** A computation that leaves the engine singleton, the collections and
    the clock alone. *)
Definition keepsEngine {A} (m : Async World A) : Prop :=
  forall w c w', m w = (c, w') -> engine w' = engine w /\ stores w' = stores w.

(** How one of the two transitions of [processAlert] went: its guard was
    false, or it ran to its end, or a store call of it threw after the
    alert in memory had been changed. *)
Inductive Step := Skipped | Done | Threw (message : string).

Definition took (s : Step) : bool :=
  match s with Skipped => false | _ => true end.

Definition logged (s : Step) : bool :=
  match s with Done => true | _ => false end.

(** [status === 'OPEN' || status === 'ESCALATED'] *)
Definition active (a : Alert.t) : bool :=
  Status_eqb (Alert.status a) OPEN || Status_eqb (Alert.status a) ESCALATED.

(** The entries of [l] lead from status [s] to status [s'], each one
    starting where the previous one ended and changing the status. *)
Fixpoint leads (s : Status) (l : list AlertHistory.t) (s' : Status) : Prop :=
  match l with
  | [] => s = s'
  | e :: l' =>
      AlertHistory.fromStatus e = Some s
      /\ AlertHistory.toStatus e <> s
      /\ leads (AlertHistory.toStatus e) l' s'
  end.

(** The stored alerts [docs'] are the stored alerts [docs], document for
    document, except possibly for those whose [_id] is in [ids]; none was
    added or removed. *)
Definition untouchedBut (ids : list string) (docs docs' : list Alert.t) : Prop :=
  map Alert._id docs' = map Alert._id docs
  /\ forall i d, docs !! i = Some d -> Alert._id d ∉ ids -> docs' !! i = Some d.

(** The process state after the alerts of a batch have been processed one
    after the other. *)
Fixpoint afterBatch `{JS.Host} (alerts : list Alert.t) (w : World) : World :=
  match alerts with
  | [] => w
  | alert :: rest => afterBatch rest (snd (processAlert alert w))
  end.

(** Oldest first. *)
Fixpoint timestampAscending (l : list Alert.t) : Prop :=
  match l with
  | [] => True
  | a :: l' =>
      (forall b, b ∈ l' -> Alert.timestamp a <= Alert.timestamp b)
      /\ timestampAscending l'
  end.

(* ================================================================== *)
(** ** models/Rule.js: [ruleSchema.methods.evaluate] *)
(* ================================================================== *)

Module AlertData.

(** The argument of [evaluate]: an object read at [count] and at
    [metadata]; [metadata] is [None] when it is [undefined] or [null]. *)
Record t := mk {
  count : JS.Value;
  metadata : option (gmap string JS.Value)
}.

End AlertData.

(** [alertData.metadata?.[key]] *)
Definition metadataFlag (alertData : AlertData.t) (key : string) : JS.Value :=
  match AlertData.metadata alertData with
  | Some md => JS.get md key
  | None => JS.Undefined
  end.

Definition Rule_evaluate `{JS.Host} (this : Rule.t) (alertData : AlertData.t) : bool :=
  if negb (Rule.enabled this) then false else
  let conditions := Rule.conditions this in
  (* Check if alert meets escalation conditions *)
  if specified (Rule.escalate_if_count conditions)
     && specified (Rule.window_mins conditions) then
    JS.ge (AlertData.count alertData)
          (JS.Numeric (JS.Num (default 0 (Rule.escalate_if_count conditions))))
  (* Check auto-close conditions *)
  else if named (Rule.auto_close_if conditions) then
    JS.strict_eq_true
      (metadataFlag alertData (default "" (Rule.auto_close_if conditions)))
  else false.

(* ================================================================== *)
(** ** models/Alert.js: [ageInHours] and [getNeedingEvaluation] *)
(* ================================================================== *)

(** [Math.floor((Date.now() - this.timestamp) / (1000 * 60 * 60))] *)
Definition ageInHours (now : Z) (this : Alert.t) : Z :=
  (now - Alert.timestamp this) / (1000 * 60 * 60).

Fixpoint insertByTimestamp (a : Alert.t) (l : list Alert.t) : list Alert.t :=
  match l with
  | [] => [a]
  | x :: l' =>
      if Alert.timestamp a <=? Alert.timestamp x then a :: x :: l'
      else x :: insertByTimestamp a l'
  end.

(** [.sort({ timestamp: 1 })] *)
Definition sortByTimestampAsc (l : list Alert.t) : list Alert.t :=
  foldr insertByTimestamp [] l.

(** [expiresAt: { $gt: now }]: a document without the field does not
    match. *)
Definition expiresAfter (now : Z) (d : Alert.t) : bool :=
  match Alert.expiresAt d with Some e => now <? e | None => false end.

(** [expiresAt: { $exists: false }] *)
Definition neverExpires (d : Alert.t) : bool :=
  match Alert.expiresAt d with Some _ => false | None => true end.

(** [Alert.getNeedingEvaluation()], awaited. *)
Definition Alert_getNeedingEvaluation : Async World (list Alert.t) :=
  let* now := DateNow in
  storeCall ;;
  let* docs := gets alertDocs in
  ret (sortByTimestampAsc
         (List.filter
            (fun d => statusIn (Alert.status d) [OPEN; ESCALATED]
                      && expiresAfter now d)
            docs)).

(* ================================================================== *)
(** ** utils/cache.js *)
(* ================================================================== *)

(** [key.includes(pattern)] *)
Fixpoint includes (key pattern : string) : bool :=
  String.prefix pattern key
  || match key with
     | EmptyString => false
     | String _ rest => includes rest pattern
     end.

Module CacheManager.

(** What the cache holds under a key, and what [get] answers: a value,
    [null] or [undefined]. *)
Inductive Cached (V : Type) :=
| Undefined
| Null
| Value (v : V).
Arguments Undefined {V}.
Arguments Null {V}.
Arguments Value {V} v.

Section Cache.
Context {V : Type}.

(** The keys that [this.cache] holds, with what is stored under them, and
    [this.stats].  An entry stays until it is deleted: the expiry of
    entries is not modelled. *)
Record t := mk {
  entries : gmap string (Cached V);
  hits : nat;
  misses : nat
}.

(** [this.cache.get(key)]: [undefined] for a key that the cache does not
    hold; for a key that it holds, what is stored, a stored [undefined]
    or [null] being answered as [null]. *)
Definition lookup (key : string) (c : t) : Cached V :=
  match entries c !! key with
  | None => Undefined
  | Some (Value v) => Value v
  | Some _ => Null
  end.

Definition countHit (c : t) : t :=
  {| entries := entries c; hits := S (hits c); misses := misses c |}.

Definition countMiss (c : t) : t :=
  {| entries := entries c; hits := hits c; misses := S (misses c) |}.

(** [get(key)]: one of the two counters goes up, the miss counter when
    the answer is [undefined]. *)
Definition get (key : string) (c : t) : Cached V * t :=
  match lookup key c with
  | Undefined => (Undefined, countMiss c)
  | value => (value, countHit c)
  end.

Definition set (key : string) (value : Cached V) (c : t) : t :=
  {| entries := <[key := value]> (entries c); hits := hits c; misses := misses c |}.

Definition delete (key : string) (c : t) : t :=
  {| entries := base.delete key (entries c); hits := hits c; misses := misses c |}.

Definition deleteMultiple (keys : list string) (c : t) : t :=
  {| entries := foldr base.delete (entries c) keys;
     hits := hits c; misses := misses c |}.

Definition flush (c : t) : t :=
  {| entries := ∅; hits := hits c; misses := misses c |}.

(** [this.cache.keys()] *)
Definition keys (c : t) : list string := (map_to_list (entries c)).*1.

Definition invalidatePattern (pattern : string) (c : t) : t :=
  let matchingKeys := List.filter (fun key => includes key pattern) (keys c) in
  if (0 <? length matchingKeys)%nat then deleteMultiple matchingKeys c else c.

(** [getOrSet(key, fetchFunction, ttl)] in a process whose state has the
    cache as its second component. *)
Definition getOrSet {S} (key : string) (fetchFunction : Async (S * t) (Cached V))
    : Async (S * t) (Cached V) :=
  let* cachedValue := (fun s => let '(v, c) := get key (snd s) in
                                (Normal v, (fst s, c))) in
  match cachedValue with
  | Undefined =>
      let* value := fetchFunction in
      modify (fun s => (fst s, set key value (snd s))) ;;
      ret value
  | _ => ret cachedValue
  end.

(** What [get] answers for a key under which [value] has been stored. *)
Definition answered (value : Cached V) : Cached V :=
  match value with Value v => Value v | _ => Null end.

End Cache.
Arguments t V : clear implicits.
End CacheManager.

(** [cacheManager.invalidatePattern(pattern)] and
    [cacheManager.delete(key)] on the process state, of whose cache the
    state holds the entry ['rules:all']. *)
Definition invalidatePattern (pattern : string) : Async World unit :=
  modify (fun w => if includes "rules:all" pattern then set_cachedRules None w
                   else w).

Definition cacheDelete (key : string) : Async World unit :=
  modify (fun w => if String.eqb key "rules:all" then set_cachedRules None w
                   else w).

(* ================================================================== *)
(** ** services/backgroundJobs.js *)
(* ================================================================== *)

(** [this.stats] of the job service. *)
Record JobStats := mkJobStats {
  autoCloseRuns : nat;
  ruleEvaluationRuns : nat;
  lastAutoCloseRun : option Z;
  lastRuleEvaluationRun : option Z
}.

Definition Service : Type := JobStats * World.

Definition onWorld {S A} (m : Async World A) : Async (S * World) A :=
  fun s => let '(c, w') := m (snd s) in (c, (fst s, w')).

(** The [$or] of the two job queries. *)
Definition unexpired (now : Z) (d : Alert.t) : bool :=
  neverExpires d || expiresAfter now d.

(** [Alert.find({ status: { $in: ['OPEN', 'ESCALATED'] }, $or: [...] })
    .limit(100)] *)
Definition Alert_find_active : Async World (list Alert.t) :=
  let* now := DateNow in
  storeCall ;;
  let* docs := gets alertDocs in
  ret (take 100
         (List.filter
            (fun d => statusIn (Alert.status d) [OPEN; ESCALATED]
                      && unexpired now d)
            docs)).

(** [Alert.find({ status: 'OPEN', $or: [...] }).sort({ timestamp: 1 })
    .limit(100)] *)
Definition Alert_find_open : Async World (list Alert.t) :=
  let* now := DateNow in
  storeCall ;;
  let* docs := gets alertDocs in
  ret (take 100
         (sortByTimestampAsc
            (List.filter
               (fun d => Status_eqb (Alert.status d) OPEN && unexpired now d)
               docs))).

Definition countAutoCloseRun (now : Z) (s : JobStats) : JobStats :=
  {| autoCloseRuns := S (autoCloseRuns s);
     ruleEvaluationRuns := ruleEvaluationRuns s;
     lastAutoCloseRun := Some now;
     lastRuleEvaluationRun := lastRuleEvaluationRun s |}.

Definition countRuleEvaluationRun (now : Z) (s : JobStats) : JobStats :=
  {| autoCloseRuns := autoCloseRuns s;
     ruleEvaluationRuns := S (ruleEvaluationRuns s);
     lastAutoCloseRun := lastAutoCloseRun s;
     lastRuleEvaluationRun := Some now |}.

Section Services.
Context `{JS.Host}.

Definition runAutoCloseJob : Async Service unit :=
  try_catch
    (let* alerts := onWorld Alert_find_active in
     match alerts with
     | [] => ret tt
     | _ :: _ =>
         let* results := onWorld (processBatch alerts) in
         let* now := onWorld DateNow in
         modify (fun s => (countAutoCloseRun now (fst s), snd s)) ;;
         onWorld (invalidatePattern "dashboard:") ;;
         onWorld (invalidatePattern "alerts:")
     end)
    (fun error => ret tt).

Definition runRuleEvaluationJob : Async Service unit :=
  try_catch
    (onWorld reloadRules ;;
     let* alerts := onWorld Alert_find_open in
     match alerts with
     | [] => ret tt
     | _ :: _ =>
         let* results := onWorld (processBatch alerts) in
         let* now := onWorld DateNow in
         modify (fun s => (countRuleEvaluationRun now (fst s), snd s)) ;;
         onWorld (invalidatePattern "dashboard:") ;;
         onWorld (invalidatePattern "alerts:")
     end)
    (fun error => ret tt).

End Services.

(* ================================================================== *)
(** ** controllers/alertController.js, controllers/ruleController.js *)
(* ================================================================== *)

(** What a handler does with the request: [res.status(code).json(...)]
    or [next(error)]. *)
Inductive Response (D : Type) :=
| Json (code : nat) (success : bool) (message : string) (data : option D)
| Next (error : string).
Arguments Json {D} code success message data.
Arguments Next {D} error.

(** [Alert.findOne({ alertId: id })] *)
Definition Alert_findOne (id : string) : Async World (option Alert.t) :=
  storeCall ;;
  let* docs := gets alertDocs in
  ret (List.find (fun d => String.eqb (Alert.alertId d) id) docs).

(** [notes || 'Manually resolved'] *)
Definition notes_or_default (notes : option string) : string :=
  match notes with
  | Some s => if String.eqb s "" then "Manually resolved" else s
  | None => "Manually resolved"
  end.

(** [resolveAlert]; [id] is [req.params.id], [notes] is [req.body.notes]
    and [user] is [req.user._id]. *)
Definition resolveAlert (id : string) (notes : option string) (user : string)
    : Async World (Response Alert.t) :=
  try_catch
    (let* found := Alert_findOne id in
     match found with
     | None => ret (Json 404 false "Alert not found" None)
     | Some alert =>
         if Status_eqb (Alert.status alert) RESOLVED
            || Status_eqb (Alert.status alert) AUTO_CLOSED
         then ret (Json 400 false "Alert is already closed" None)
         else
           let oldStatus := Alert.status alert in
           let* now := DateNow in
           let alert := Alert.resolve now (Some user) notes alert in
           save alert ;;
           logTransition (Alert.alertId alert) alert (Some oldStatus) RESOLVED
             (Some (notes_or_default notes)) USER (Some user) None ;;
           invalidatePattern "alerts:" ;;
           invalidatePattern "dashboard:" ;;
           ret (Json 200 true "Alert resolved successfully" (Some alert))
     end)
    (fun error => ret (Next error)).

(** [alert.deleteOne()]: the stored document of this [_id] is removed. *)
Definition Alert_deleteOne (alert : Alert.t) : Async World unit :=
  storeCall ;;
  modify (fun w =>
    set_alertDocs
      (List.filter (fun d => negb (sameDocument alert d)) (alertDocs w)) w).

(** [deleteAlert]; [id] is [req.params.id]. *)
Definition deleteAlert (id : string) : Async World (Response Alert.t) :=
  try_catch
    (let* found := Alert_findOne id in
     match found with
     | None => ret (Json 404 false "Alert not found" None)
     | Some alert =>
         Alert_deleteOne alert ;;
         invalidatePattern "alerts:" ;;
         invalidatePattern "dashboard:" ;;
         ret (Json 200 true "Alert deleted successfully" None)
     end)
    (fun error => ret (Next error)).

(** [Rule.findOne({ ruleId: id })]: the document and its place in the
    collection. *)
Definition Rule_findOne (id : string) : Async World (option (nat * Rule.t)) :=
  storeCall ;;
  let* docs := gets ruleDocs in
  ret (list_find (fun r => Rule.ruleId r = id) docs).

Definition set_ruleDocs (l : list Rule.t) (w : World) : World :=
  {| rules := rules w; initialized := initialized w;
     cachedRules := cachedRules w; ruleDocs := l; alertDocs := alertDocs w;
     historyDocs := historyDocs w; clock := clock w; faults := faults w |}.

(** [rule.save()] and [rule.deleteOne()] for the document found at
    place [i]. *)
Definition Rule_save (i : nat) (rule : Rule.t) : Async World unit :=
  storeCall ;;
  modify (fun w => set_ruleDocs (<[i := rule]> (ruleDocs w)) w).

Definition Rule_deleteOne (i : nat) : Async World unit :=
  storeCall ;;
  modify (fun w => set_ruleDocs (base.delete i (ruleDocs w)) w).

(** [rule.enabled = !rule.enabled]; [lastModified], which is set as well,
    is not among the fields of a rule that the engine reads. *)
Definition toggled (rule : Rule.t) : Rule.t :=
  {| Rule.ruleId := Rule.ruleId rule; Rule.sourceType := Rule.sourceType rule;
     Rule.enabled := negb (Rule.enabled rule);
     Rule.priority := Rule.priority rule;
     Rule.conditions := Rule.conditions rule |}.

Definition toggleRule (id : string) : Async World (Response Rule.t) :=
  try_catch
    (let* found := Rule_findOne id in
     match found with
     | None => ret (Json 404 false "Rule not found" None)
     | Some (i, rule) =>
         let rule := toggled rule in
         Rule_save i rule ;;
         reloadRules ;;
         cacheDelete "rules:all" ;;
         ret (Json 200 true
                (if Rule.enabled rule then "Rule enabled successfully"
                 else "Rule disabled successfully")
                (Some rule))
     end)
    (fun error => ret (Next error)).

Definition deleteRule (id : string) : Async World (Response Rule.t) :=
  try_catch
    (let* found := Rule_findOne id in
     match found with
     | None => ret (Json 404 false "Rule not found" None)
     | Some (i, rule) =>
         Rule_deleteOne i ;;
         reloadRules ;;
         cacheDelete "rules:all" ;;
         ret (Json 200 true "Rule deleted successfully" None)
     end)
    (fun error => ret (Next error)).

(** The history entry that [resolveAlert] writes for the stored alert
    [alert]. *)
Definition resolutionEntry (alert : Alert.t) (notes : option string)
    (user : string) (now : Z) : AlertHistory.t :=
  {| AlertHistory.alertId := Alert.alertId alert;
     AlertHistory.alert := Alert._id alert;
     AlertHistory.fromStatus := Some (Alert.status alert);
     AlertHistory.toStatus := RESOLVED;
     AlertHistory.reason := Some (notes_or_default notes);
     AlertHistory.triggeredBy := USER;
     AlertHistory.userId := Some user;
     AlertHistory.metadata_rule := None;
     AlertHistory.timestamp := now |}.

(** What [resolveAlert] has answered and written, by the stored alert
    that its query finds. *)
Definition resolveAlert_effect (id : string) (notes : option string)
    (user : string) (w : World) (response : Response Alert.t) (w' : World)
    : Prop :=
  match response,
        List.find (fun d => String.eqb (Alert.alertId d) id) (alertDocs w)
  with
  | Json code _ _ data, None =>
      code = 404%nat /\ data = None
      /\ alertDocs w' = alertDocs w /\ historyDocs w' = historyDocs w
  | Json code _ _ data, Some alert =>
      if terminal (Alert.status alert) then
        code = 400%nat /\ data = None
        /\ alertDocs w' = alertDocs w /\ historyDocs w' = historyDocs w
      else
        code = 200%nat
        /\ data = Some (Alert.resolve (clock w) (Some user) notes alert)
        /\ alertDocs w'
           = replaceDocument
               (Alert.resolve (clock w) (Some user) notes alert)
               (alertDocs w)
        /\ historyDocs w'
           = (historyDocs w
              ++ [resolutionEntry alert notes user (clock w)])%list
  | Next _, None =>
      alertDocs w' = alertDocs w /\ historyDocs w' = historyDocs w
  | Next _, Some alert =>
      historyDocs w' = historyDocs w
      /\ (alertDocs w' = alertDocs w
          \/ (terminal (Alert.status alert) = false
              /\ alertDocs w'
                 = replaceDocument
                     (Alert.resolve (clock w) (Some user) notes alert)
                     (alertDocs w)))
  end.

(** What [toggleRule] has answered and written, by the stored rule that
    its query finds. *)
Definition toggleRule_effect (id : string) (w : World)
    (response : Response Rule.t) (w' : World) : Prop :=
  match response, list_find (fun r => Rule.ruleId r = id) (ruleDocs w) with
  | Json code _ _ data, None =>
      code = 404%nat /\ data = None
      /\ ruleDocs w' = ruleDocs w /\ engine w' = engine w
  | Json code _ _ data, Some (i, rule) =>
      code = 200%nat /\ data = Some (toggled rule)
      /\ ruleDocs w' = <[i := toggled rule]> (ruleDocs w)
      /\ rules w' = indexRules (enabledRules w')
      /\ initialized w' = true
      /\ cachedRules w' = None
  | Next _, None => ruleDocs w' = ruleDocs w /\ engine w' = engine w
  | Next _, Some (i, rule) =>
      rules w' = rules w /\ initialized w' = initialized w
      /\ ((ruleDocs w' = ruleDocs w /\ cachedRules w' = cachedRules w)
          \/ (ruleDocs w' = <[i := toggled rule]> (ruleDocs w)
              /\ cachedRules w' = None))
  end.

(** The same for [deleteRule]. *)
Definition deleteRule_effect (id : string) (w : World)
    (response : Response Rule.t) (w' : World) : Prop :=
  match response, list_find (fun r => Rule.ruleId r = id) (ruleDocs w) with
  | Json code _ _ data, None =>
      code = 404%nat /\ data = None
      /\ ruleDocs w' = ruleDocs w /\ engine w' = engine w
  | Json code _ _ data, Some (i, rule) =>
      code = 200%nat /\ data = None
      /\ ruleDocs w' = base.delete i (ruleDocs w)
      /\ rules w' = indexRules (enabledRules w')
      /\ initialized w' = true
      /\ cachedRules w' = None
  | Next _, None => ruleDocs w' = ruleDocs w /\ engine w' = engine w
  | Next _, Some (i, rule) =>
      rules w' = rules w /\ initialized w' = initialized w
      /\ ((ruleDocs w' = ruleDocs w /\ cachedRules w' = cachedRules w)
          \/ (ruleDocs w' = base.delete i (ruleDocs w)
              /\ cachedRules w' = None))
  end.

(* ================================================================== *)
(** ** Sample data *)
(* ================================================================== *)

(** The rules of seed.js. *)
Definition RULE_OVERSPEED_001 : Rule.t :=
  {| Rule.ruleId := "RULE_OVERSPEED_001"; Rule.sourceType := "overspeed";
     Rule.enabled := true; Rule.priority := 10;
     Rule.conditions :=
       {| Rule.escalate_if_count := Some 3; Rule.window_mins := Some 60;
          Rule.auto_close_if := None;
          Rule.auto_close_after_mins := Some 1440 |} |}.

Definition RULE_COMPLIANCE_001 : Rule.t :=
  {| Rule.ruleId := "RULE_COMPLIANCE_001"; Rule.sourceType := "compliance";
     Rule.enabled := true; Rule.priority := 8;
     Rule.conditions :=
       {| Rule.escalate_if_count := None; Rule.window_mins := None;
          Rule.auto_close_if := Some "document_valid";
          Rule.auto_close_after_mins := Some 10080 |} |}.

Definition RULE_FEEDBACK_001 : Rule.t :=
  {| Rule.ruleId := "RULE_FEEDBACK_001"; Rule.sourceType := "feedback_negative";
     Rule.enabled := true; Rule.priority := 7;
     Rule.conditions :=
       {| Rule.escalate_if_count := Some 2; Rule.window_mins := Some 1440;
          Rule.auto_close_if := Some "feedback_improved";
          Rule.auto_close_after_mins := None |} |}.

Definition RULE_MAINTENANCE_001 : Rule.t :=
  {| Rule.ruleId := "RULE_MAINTENANCE_001"; Rule.sourceType := "maintenance";
     Rule.enabled := true; Rule.priority := 5;
     Rule.conditions :=
       {| Rule.escalate_if_count := None; Rule.window_mins := None;
          Rule.auto_close_if := Some "maintenance_completed";
          Rule.auto_close_after_mins := Some 43200 |} |}.

Definition seedRules : list Rule.t :=
  [RULE_OVERSPEED_001; RULE_COMPLIANCE_001; RULE_FEEDBACK_001;
   RULE_MAINTENANCE_001].

(** A second overspeed rule, of lower priority than the seeded one. *)
Definition RULE_OVERSPEED_002 : Rule.t :=
  {| Rule.ruleId := "RULE_OVERSPEED_002"; Rule.sourceType := "overspeed";
     Rule.enabled := true; Rule.priority := 5;
     Rule.conditions :=
       {| Rule.escalate_if_count := Some 5; Rule.window_mins := Some 30;
          Rule.auto_close_if := None;
          Rule.auto_close_after_mins := None |} |}.

(** An OPEN alert as the creation endpoint stores it. *)
Definition sampleAlert (id sourceType : string) (timestamp : Z)
    (metadata : gmap string JS.Value) : Alert.t :=
  {| Alert._id := id; Alert.alertId := "ALT-" +:+ id;
     Alert.sourceType := sourceType; Alert.severity := WARNING;
     Alert.status := OPEN; Alert.timestamp := timestamp;
     Alert.metadata := Some metadata;
     Alert.escalatedAt := None; Alert.autoClosedAt := None;
     Alert.resolvedAt := None; Alert.closureReason := None;
     Alert.resolvedBy := None; Alert.notes := None;
     Alert.expiresAt := None |}.

Definition withStatus (s : Status) (a : Alert.t) : Alert.t :=
  {| Alert._id := Alert._id a; Alert.alertId := Alert.alertId a;
     Alert.sourceType := Alert.sourceType a; Alert.severity := Alert.severity a;
     Alert.status := s; Alert.timestamp := Alert.timestamp a;
     Alert.metadata := Alert.metadata a;
     Alert.escalatedAt := Alert.escalatedAt a;
     Alert.autoClosedAt := Alert.autoClosedAt a;
     Alert.resolvedAt := Alert.resolvedAt a;
     Alert.closureReason := Alert.closureReason a;
     Alert.resolvedBy := Alert.resolvedBy a; Alert.notes := Alert.notes a;
     Alert.expiresAt := Alert.expiresAt a |}.

Definition driver (id : string) : gmap string JS.Value :=
  {[ "driverId" := JS.Str id ]}.

(** Noon of some day, in milliseconds, and one minute. *)
Definition noon : Z := 1700000000000.
Definition minute : Z := 60000.

(** A process whose engine has loaded the seeded rules. *)
Definition sampleWorld (docs : list Alert.t) (script : list bool) : World :=
  {| rules := indexRules seedRules;
     initialized := true;
     cachedRules := Some seedRules;
     ruleDocs := seedRules;
     alertDocs := docs;
     historyDocs := [];
     clock := noon;
     faults := script |}.

(** Three overspeed alerts of driver D1 within the last hour, and an older
    one of the same driver, two days old. *)
Definition recentOverspeed : list Alert.t :=
  [ sampleAlert "a1" "overspeed" (noon - 30 * minute) (driver "D1");
    sampleAlert "a2" "overspeed" (noon - 20 * minute) (driver "D1");
    sampleAlert "a3" "overspeed" (noon - 10 * minute) (driver "D1") ].

Definition oldOverspeed : Alert.t :=
  sampleAlert "a0" "overspeed" (noon - 2880 * minute) (driver "D1").

(** A host for the sample data, none of whose strings is read as a number
    or as a date. *)
#[local] Instance sampleHost : JS.Host :=
  {| JS.StringToNumber := fun _ => JS.NaN;
     JS.DateParse := fun _ => JS.NaN;
     JS.DateParse_empty := eq_refl |}.

(** Two further alerts, one of them dated five minutes after the clock of
    the engine: the count query counts it although it is not within
    [[now - 60 min, now]]. *)
Definition laterOverspeed : list Alert.t :=
  [ sampleAlert "a1" "overspeed" (noon - 30 * minute) (driver "D1");
    sampleAlert "a2" "overspeed" (noon - 20 * minute) (driver "D1");
    sampleAlert "a4" "overspeed" (noon + 5 * minute) (driver "D1") ].

(** Five overspeed alerts of one driver within the hour; the store rejects
    the eighth call, which is the [save] of the third alert. *)
Definition fiveOverspeed : list Alert.t :=
  [ sampleAlert "b1" "overspeed" (noon - 50 * minute) (driver "D7");
    sampleAlert "b2" "overspeed" (noon - 40 * minute) (driver "D7");
    sampleAlert "b3" "overspeed" (noon - 30 * minute) (driver "D7");
    sampleAlert "b4" "overspeed" (noon - 20 * minute) (driver "D7");
    sampleAlert "b5" "overspeed" (noon - 10 * minute) (driver "D7") ].

Definition eighthCallFails : list bool :=
  [false; false; false; false; false; false; false; true].

(** A compliance alert one minute old whose document was renewed: the
    seeded rule closes it on the condition, long before the 10080 minutes
    of its age threshold. *)
Definition renewed : Alert.t :=
  sampleAlert "c1" "compliance" (noon - 1 * minute)
    (<[ "expiryDate" := JS.DateObj (JS.Num (noon + 43200 * minute)) ]>
       (driver "D2")).

(** An alert with an expiry date. *)
Definition withExpiry (e : Z) (a : Alert.t) : Alert.t :=
  {| Alert._id := Alert._id a; Alert.alertId := Alert.alertId a;
     Alert.sourceType := Alert.sourceType a; Alert.severity := Alert.severity a;
     Alert.status := Alert.status a; Alert.timestamp := Alert.timestamp a;
     Alert.metadata := Alert.metadata a;
     Alert.escalatedAt := Alert.escalatedAt a;
     Alert.autoClosedAt := Alert.autoClosedAt a;
     Alert.resolvedAt := Alert.resolvedAt a;
     Alert.closureReason := Alert.closureReason a;
     Alert.resolvedBy := Alert.resolvedBy a; Alert.notes := Alert.notes a;
     Alert.expiresAt := Some e |}.

(** A process that has just started: the seeded rules are stored, the
    engine has not been initialized and nothing is cached. *)
Definition freshWorld (docs : list Alert.t) (script : list bool) : World :=
  {| rules := ∅;
     initialized := false;
     cachedRules := None;
     ruleDocs := seedRules;
     alertDocs := docs;
     historyDocs := [];
     clock := noon;
     faults := script |}.

(** Three stored alerts, the second one without an expiry date and the
    third one older than the first. *)
Definition expiringAlerts : list Alert.t :=
  [ withExpiry (noon + 43200 * minute)
      (sampleAlert "e1" "maintenance" (noon - 10 * minute) (driver "D4"));
    sampleAlert "e2" "maintenance" (noon - 20 * minute) (driver "D4");
    withExpiry (noon + 43200 * minute)
      (sampleAlert "e3" "maintenance" (noon - 30 * minute) (driver "D4")) ].

(** A maintenance report whose work is done. *)
Definition maintenanceDone : AlertData.t :=
  {| AlertData.count := JS.Undefined;
     AlertData.metadata := Some {[ "maintenance_completed" := JS.Boolean true ]} |}.

(** A process with an empty cache of numbers. *)
Definition emptyCache : unit * CacheManager.t Z :=
  (tt, {| CacheManager.entries := ∅; CacheManager.hits := 0;
          CacheManager.misses := 0 |}).

(** Three overspeed alerts that name no driver. *)
Definition driverless : list Alert.t :=
  [ sampleAlert "n1" "overspeed" (noon - 30 * minute)
      {[ "vehicleNumber" := JS.Str "KA-01" ]};
    sampleAlert "n2" "overspeed" (noon - 20 * minute)
      {[ "vehicleNumber" := JS.Str "KA-02" ]};
    sampleAlert "n3" "overspeed" (noon - 10 * minute) ∅ ].

(** The history entry that [createAlert] writes, and a process in which
    the three overspeed alerts are stored with these entries. *)
Definition created (a : Alert.t) : AlertHistory.t :=
  {| AlertHistory.alertId := Alert.alertId a;
     AlertHistory.alert := Alert._id a;
     AlertHistory.fromStatus := None;
     AlertHistory.toStatus := OPEN;
     AlertHistory.reason := Some "Alert created";
     AlertHistory.triggeredBy := SYSTEM;
     AlertHistory.userId := Some "u1";
     AlertHistory.metadata_rule := None;
     AlertHistory.timestamp := Alert.timestamp a |}.

Definition recordedWorld : World :=
  set_historyDocs (map created recentOverspeed) (sampleWorld recentOverspeed []).

(** A cache with an entry of another module and the entry of the rules. *)
Definition sampleCache : CacheManager.t Z :=
  {| CacheManager.entries :=
       {[ "user:alerts:1" := CacheManager.Value 1;
          "rules:all" := CacheManager.Value 2 ]};
     CacheManager.hits := 0; CacheManager.misses := 0 |}.

(** The statistics of a job service that has not run yet. *)
Definition noRuns : JobStats :=
  {| autoCloseRuns := 0; ruleEvaluationRuns := 0;
     lastAutoCloseRun := None; lastRuleEvaluationRun := None |}.

(* ================================================================== *)
(** ** Properties *)
(* ================================================================== *)

Section Properties.
Context `{JS.Host}.

Lemma readOnly_ret {A} (a : A) : readOnly (ret a).
Proof. intros w c w' E. inversion E; subst. reflexivity. Qed.

Lemma readOnly_throw {A} e : readOnly (@throw World A e).
Proof. intros w c w' E. inversion E; subst. reflexivity. Qed.

Lemma readOnly_gets {A} (f : World -> A) : readOnly (gets f).
Proof. intros w c w' E. inversion E; subst. reflexivity. Qed.

Lemma readOnly_bind {A B} (m : Async World A) (k : A -> Async World B) :
  readOnly m -> (forall a, readOnly (k a)) -> readOnly (bind m k).
Proof.
  intros Hm Hk w c w' E. unfold bind in E.
  destruct (m w) as [[a|e] w1] eqn:Em.
  - apply Hk in E. apply Hm in Em. congruence.
  - inversion E; subst. eauto.
Qed.

Lemma readOnly_try_catch {A} (m : Async World A) h :
  readOnly m -> (forall e, readOnly (h e)) -> readOnly (try_catch m h).
Proof.
  intros Hm Hh w c w' E. unfold try_catch in E.
  destruct (m w) as [[a|e] w1] eqn:Em.
  - inversion E; subst. eauto.
  - apply Hh in E. apply Hm in Em. congruence.
Qed.

Lemma readOnly_storeCall : readOnly storeCall.
Proof.
  intros w c w' E. unfold storeCall in E.
  destruct (faults w) as [|[] fs]; inversion E; subst; reflexivity.
Qed.

Lemma readOnly_set_cachedRules c : readOnly (modify (set_cachedRules c)).
Proof. intros w r w' E. inversion E; subst. reflexivity. Qed.

Lemma readOnly_set_engine m i : readOnly (modify (set_engine m i)).
Proof. intros w r w' E. inversion E; subst. reflexivity. Qed.

Lemma readOnly_if {A} (b : bool) (m1 m2 : Async World A) :
  readOnly m1 -> readOnly m2 -> readOnly (if b then m1 else m2).
Proof. destruct b; auto. Qed.

Create HintDb frame.
Hint Resolve readOnly_ret readOnly_throw readOnly_gets readOnly_storeCall
  readOnly_set_cachedRules readOnly_set_engine : frame.

Ltac frame :=
  repeat
    match goal with
    | |- readOnly (bind _ _) => apply readOnly_bind; [|intros ?]
    | |- readOnly (try_catch _ _) => apply readOnly_try_catch; [|intros ?]
    | |- readOnly (if _ then _ else _) => apply readOnly_if
    | |- readOnly (match ?x with _ => _ end) => destruct x
    | |- readOnly _ => solve [auto with frame]
    end.

Lemma readOnly_initialize : readOnly initialize.
Proof. unfold initialize, Rule_find_enabled. frame. Qed.

Lemma readOnly_countDocuments q : readOnly (Alert_countDocuments q).
Proof. unfold Alert_countDocuments. frame. Qed.

Lemma readOnly_evaluateAlert alert : readOnly (evaluateAlert alert).
Proof.
  pose proof readOnly_initialize. pose proof readOnly_countDocuments.
  unfold evaluateAlert, getRule, DateNow. frame.
Qed.



(** *** The first call *)

(** What a call of [initialize] that returns has done. *)
Lemma initialize_success w w1 :
  initialize w = (Normal tt, w1) ->
  initialized w1 = true
  /\ stores w1 = stores w
  /\ exists rs,
       rules w1 = indexRules rs /\ cachedRules w1 = Some rs
       /\ ((cachedRules w = Some rs /\ faults w1 = faults w)
           \/ (cachedRules w = None /\ rs = enabledRules w
               /\ faults w1 = tail (faults w)
               /\ head (faults w) <> Some true)).
Proof.
  unfold initialize, Rule_find_enabled, enabledRules.
  unfold try_catch, bind, gets, modify, ret, throw, storeCall.
  intros E. destruct (cachedRules w) as [rs|] eqn:Ec.
  - inversion E; subst. cbn. rewrite Ec. split_and!; auto. exists rs. auto.
  - destruct (faults w) as [|[] fs] eqn:Ef; inversion E; subst; cbn;
      rewrite ?Ec, ?Ef; split_and!; auto; eexists; split_and!; eauto;
      right; split_and!; auto; discriminate.
Qed.

(** What a call of [initialize] that throws has done: nothing but
    consume the rejected store call. *)
Lemma initialize_failure w e w1 :
  initialize w = (Throw e, w1) ->
  cachedRules w = None /\ head (faults w) = Some true
  /\ e = "store operation failed"
  /\ w1 = set_faults (tail (faults w)) w.
Proof.
  unfold initialize, Rule_find_enabled.
  unfold try_catch, bind, gets, modify, ret, throw, storeCall.
  intros E. destruct (cachedRules w) as [rs|] eqn:Ec; [discriminate|].
  destruct (faults w) as [|[] fs] eqn:Ef; inversion E; subst; auto.
Qed.

Lemma evaluateAlert_uninitialized alert w :
  initialized w = false ->
  evaluateAlert alert w =
  match initialize w with
  | (Normal _, w1) => evaluateAlert alert w1
  | (Throw e, w1) => (Throw e, w1)
  end.
Proof.
  intros Hi. unfold evaluateAlert at 1.
  unfold bind at 1. unfold gets at 1. rewrite Hi. cbn [negb].
  unfold bind at 1.
  destruct (initialize w) as [[[]|e] w1] eqn:Ei; [|reflexivity].
  apply initialize_success in Ei as (Hi1 & _).
  unfold evaluateAlert. cbv beta delta [bind gets]. rewrite Hi1.
  cbn [negb]. reflexivity.
Qed.

(** The evaluation proper starts in the state consulted. *)
Lemma evaluateAlert_consulted alert w w0 :
  consulted w w0 ->
  evaluateAlert alert w = evaluateAlert alert w0
  /\ initialized w0 = true /\ stores w0 = stores w.
Proof.
  unfold consulted. destruct (initialized w) eqn:Hi.
  - intros ->. auto.
  - intros Ei. rewrite (evaluateAlert_uninitialized _ _ Hi), Ei.
    pose proof (readOnly_initialize _ _ _ Ei) as Hs.
    apply initialize_success in Ei as (Hi1 & _). auto.
Qed.

(** *** The state machine *)

Lemma escalate_guard now reason a :
  Alert.status a <> OPEN -> Alert.escalate now reason a = a.
Proof. unfold Alert.escalate. destruct (Alert.status a); simpl; congruence. Qed.

Lemma autoClose_guard now reason a :
  Alert.status a <> OPEN -> Alert.status a <> ESCALATED ->
  Alert.autoClose now reason a = a.
Proof. unfold Alert.autoClose. destruct (Alert.status a); simpl; congruence. Qed.

Lemma terminal_not_active s :
  terminal s = true -> Status_eqb s OPEN = false /\ Status_eqb s ESCALATED = false.
Proof. destruct s; simpl; intros; split; congruence. Qed.

(** C9: [resolve] has no guard.  Whatever the status of the alert, it
    sets the status to RESOLVED, the resolve time to now, and records the
    resolving user and the notes; [escalate] and [autoClose], by
    contrast, leave an alert in a terminal status as it is. *)
Theorem resolve_unconditional (now : Z) (userId notes : option string)
    (a : Alert.t) :
  let a' := Alert.resolve now userId notes a in
  (Alert.status a' = RESOLVED
   /\ Alert.resolvedAt a' = Some now
   /\ Alert.resolvedBy a' = userId
   /\ Alert.notes a' = notes)
  /\ (terminal (Alert.status a) = true ->
      forall reason,
        Alert.escalate now reason a = a /\ Alert.autoClose now reason a = a).
Proof.
  simpl. repeat split; try reflexivity.
  - apply escalate_guard. destruct (Alert.status a); simpl in *; congruence.
  - apply autoClose_guard; destruct (Alert.status a); simpl in *; congruence.
Qed.

(** C1: an alert in a terminal status (AUTO_CLOSED or RESOLVED) is never
    changed by the engine.  The guarded methods [escalate] and
    [autoClose] return it as it is, [evaluateAlert] writes to no
    collection, and [processAlert] returns the alert unchanged, having
    written neither an alert nor a history entry. *)
Theorem terminal_alert_unchanged (alert : Alert.t) (w : World) :
  terminal (Alert.status alert) = true ->
  (forall now reason,
      Alert.escalate now reason alert = alert
      /\ Alert.autoClose now reason alert = alert)
  /\ (forall c w', evaluateAlert alert w = (c, w') -> stores w' = stores w)
  /\ (exists result w',
        processAlert alert w = (Normal (result, alert), w')
        /\ stores w' = stores w).
Proof.
  intros Ht. destruct (terminal_not_active _ Ht) as [Ho He].
  split; [|split].
  - intros now reason. split.
    + apply escalate_guard. destruct (Alert.status alert); simpl in *; congruence.
    + apply autoClose_guard; destruct (Alert.status alert); simpl in *; congruence.
  - intros c w' E. eapply readOnly_evaluateAlert; eauto.
  - unfold processAlert, processAlert_try, escalateByRule, autoCloseByRule,
      bind, this, gets, inWorld, ret.
    simpl. destruct (evaluateAlert alert w) as [[ev|e] w1] eqn:E; simpl.
    + rewrite Ho, andb_false_r. simpl. rewrite Ho, He, andb_false_r. simpl.
      eexists _, _. split; [reflexivity|].
      eapply readOnly_evaluateAlert; eauto.
    + eexists _, _. split; [reflexivity|].
      eapply readOnly_evaluateAlert; eauto.
Qed.

(** *** The rule index *)

Lemma indexRules_snoc rs r :
  indexRules (rs ++ [r]) = <[Rule.sourceType r := r]> (indexRules rs).
Proof. unfold indexRules. rewrite foldl_app. reflexivity. Qed.

Lemma priorityDescending_snoc l x :
  priorityDescending (l ++ [x]) <->
  priorityDescending l /\ (forall r, r ∈ l -> Rule.priority x <= Rule.priority r).
Proof.
  induction l as [|y l IH]; simpl.
  - split; intros _; (split; [|try exact I]); try exact I;
      intros r Hr; inversion Hr.
  - rewrite IH. split.
    + intros [Hy [Hl Hx]]. split; [split; [|exact Hl]|].
      * intros r' Hr'. apply Hy. apply elem_of_app. now left.
      * intros r Hr. apply elem_of_cons in Hr as [->|Hr]; [|now apply Hx].
        apply Hy. apply elem_of_app. right. apply list_elem_of_singleton. reflexivity.
    + intros [[Hy Hl] Hx]. split; [|split; [exact Hl|]].
      * intros r' Hr'. apply elem_of_app in Hr' as [Hr'|Hr']; [now apply Hy|].
        apply list_elem_of_singleton in Hr' as ->. apply Hx. left.
      * intros r Hr. apply Hx. now right.
Qed.

(** After the [forEach], every source type that occurs in the list maps
    to a rule of the list whose priority is the least of that type. *)
Lemma indexRules_lowest rs :
  priorityDescending rs ->
  forall r, r ∈ rs ->
    exists kept,
      indexRules rs !! Rule.sourceType r = Some kept
      /\ kept ∈ rs
      /\ Rule.sourceType kept = Rule.sourceType r
      /\ (forall r', r' ∈ rs -> Rule.sourceType r' = Rule.sourceType r ->
            Rule.priority kept <= Rule.priority r').
Proof.
  induction rs as [|x rs IH] using rev_ind; intros Hs r Hr.
  - inversion Hr.
  - apply priorityDescending_snoc in Hs as [Hs Hx].
    rewrite indexRules_snoc.
    destruct (decide (Rule.sourceType x = Rule.sourceType r)) as [E|NE].
    + exists x. rewrite E, lookup_insert_eq. repeat split; auto.
      * apply elem_of_app. right. apply list_elem_of_singleton. reflexivity.
      * intros r' Hr' _. apply elem_of_app in Hr' as [Hr'|Hr'].
        -- now apply Hx.
        -- apply list_elem_of_singleton in Hr' as ->. lia.
    + assert (Hin : r ∈ rs).
      { apply elem_of_app in Hr as [Hr|Hr]; [exact Hr|].
        apply list_elem_of_singleton in Hr. subst. congruence. }
      destruct (IH Hs r Hin) as (kept & Hk & Hkin & Hkt & Hmin).
      exists kept. rewrite lookup_insert_ne by exact NE.
      repeat split; auto.
      * apply elem_of_app. now left.
      * intros r' Hr' Ht. apply elem_of_app in Hr' as [Hr'|Hr'].
        -- now apply Hmin.
        -- apply list_elem_of_singleton in Hr'. subst. congruence.
Qed.

Lemma elem_of_insertByPriority r x l :
  x ∈ insertByPriority r l <-> x = r \/ x ∈ l.
Proof.
  induction l as [|y l IH]; simpl.
  - rewrite list_elem_of_singleton. split; [auto|]. intros [?|Hx]; [auto|inversion Hx].
  - destruct (Rule.priority y <? Rule.priority r).
    + rewrite elem_of_cons. reflexivity.
    + rewrite !elem_of_cons, IH. tauto.
Qed.

Lemma insertByPriority_descending r l :
  priorityDescending l -> priorityDescending (insertByPriority r l).
Proof.
  induction l as [|y l IH]; simpl; intros Hl.
  - split; [|exact I]. intros r' Hr'. inversion Hr'.
  - destruct Hl as [Hy Hl].
    destruct (Rule.priority y <? Rule.priority r) eqn:E.
    + apply Z.ltb_lt in E. simpl. split; [|split; auto].
      intros r' Hr'. apply elem_of_cons in Hr' as [->|Hr']; [lia|].
      specialize (Hy _ Hr'). lia.
    + apply Z.ltb_ge in E. simpl. split; [|auto].
      intros r' Hr'. apply elem_of_insertByPriority in Hr' as [->|Hr']; auto.
Qed.

(** The rule store answers in priority order, enabled rules only. *)
Lemma sortByPriorityDesc_descending l : priorityDescending (sortByPriorityDesc l).
Proof.
  induction l as [|r l IH]; simpl; [exact I|].
  now apply insertByPriority_descending.
Qed.

Lemma elem_of_sortByPriorityDesc x l : x ∈ sortByPriorityDesc l <-> x ∈ l.
Proof.
  induction l as [|r l IH]; simpl; [reflexivity|].
  rewrite elem_of_insertByPriority, elem_of_cons, IH. reflexivity.
Qed.

Lemma calm_storeCall n w :
  calm (S n) w ->
  exists w', storeCall w = (Normal tt, w') /\ calm n w'
    /\ faults w' = tail (faults w)
    /\ rules w' = rules w /\ initialized w' = initialized w
    /\ cachedRules w' = cachedRules w /\ stores w' = stores w.
Proof.
  intros Hc. unfold storeCall.
  destruct (faults w) as [|[] fs] eqn:E.
  - exists w. split_and!; try reflexivity.
    + intros i Hi. rewrite E. now destruct i.
    + now rewrite E.
  - exfalso. apply (Hc 0%nat); [lia|]. now rewrite E.
  - eexists. split_and!; try reflexivity.
    intros i Hi. simpl. specialize (Hc (S i)). rewrite E in Hc. apply Hc. lia.
Qed.

Lemma initialize_delivered w rs :
  delivered w rs ->
  exists w', initialize w = (Normal tt, w')
    /\ rules w' = indexRules rs /\ initialized w' = true
    /\ stores w' = stores w
    /\ (cachedRules w = None -> faults w' = tail (faults w))
    /\ (cachedRules w <> None -> faults w' = faults w).
Proof.
  intros [Hc|(Hc & Hcalm & ->)];
    unfold initialize, try_catch, bind, gets, modify, ret; rewrite Hc.
  - eexists. split; [reflexivity|]. simpl. repeat split; auto. congruence.
  - unfold Rule_find_enabled, bind, gets, ret.
    destruct (calm_storeCall 0 w Hcalm) as (w1 & -> & _ & Hf & _ & _ & _ & Hs).
    eexists. split; [reflexivity|]. simpl.
    injection Hs as Ha Hh Hr Hk. rewrite Hr. repeat split; auto.
    + unfold stores; simpl. congruence.
    + congruence.
Qed.

(** C3: [initialize] inserts the delivered rules one after the other
    into the cleared map, a later rule replacing an earlier one of the
    same source type.  When the list is in descending priority order, the
    rule kept for a source type has the lowest priority of the rules of
    that type. *)
Theorem initialize_retains_lowest_priority (rs : list Rule.t) (w : World) :
  priorityDescending rs ->
  delivered w rs ->
  (forall rs1 r,
      indexRules (rs1 ++ [r]) = <[Rule.sourceType r := r]> (indexRules rs1))
  /\ exists w',
      initialize w = (Normal tt, w')
      /\ initialized w' = true
      /\ rules w' = indexRules rs
      /\ forall r, r ∈ rs ->
           exists kept,
             rules w' !! Rule.sourceType r = Some kept
             /\ kept ∈ rs
             /\ Rule.sourceType kept = Rule.sourceType r
             /\ (forall r', r' ∈ rs ->
                   Rule.sourceType r' = Rule.sourceType r ->
                   Rule.priority kept <= Rule.priority r').
Proof.
  intros Hs Hd. split; [apply indexRules_snoc|].
  destruct (initialize_delivered w rs Hd) as (w' & E & Hr & Hi & _).
  exists w'. repeat split; auto.
  intros r Hin. rewrite Hr. now apply indexRules_lowest.
Qed.

(** *** The catalogue of close conditions *)

Lemma falsy_not_future now v :
  0 <= now -> JS.ToBoolean v = false -> strictlyFuture now v = false.
Proof.
  intros Hn Hv. unfold strictlyFuture.
  destruct v as [| |[]|[|z]|s|t]; simpl in *; try congruence; try reflexivity.
  - apply Z.ltb_ge. lia.
  - apply Z.ltb_ge. lia.
  - apply negb_false_iff, Z.eqb_eq in Hv. subst. simpl. apply Z.ltb_ge. lia.
  - apply negb_false_iff, String.eqb_eq in Hv. subst.
    rewrite JS.DateParse_empty. reflexivity.
Qed.

Lemma gt_dates now v :
  JS.gt (JS.DateObj (JS.NewDate v)) (JS.DateObj (JS.Num now))
  = strictlyFuture now v.
Proof.
  unfold JS.gt, JS.IsLessThan, strictlyFuture. simpl.
  destruct (JS.NewDate v) as [|t]; [reflexivity|].
  destruct (now <? t); reflexivity.
Qed.

Ltac compare_numbers :=
  cbn -[Z.leb Z.ltb];
  repeat match goal with
    | |- context [match ?n with JS.NaN => _ | JS.Num _ => _ end] =>
        destruct n; cbn -[Z.leb Z.ltb]
    | |- context [JS.StringToNumber ?s] =>
        destruct (JS.StringToNumber s); cbn -[Z.leb Z.ltb]
    end;
  try reflexivity;
  rewrite Z.leb_antisym; destruct (_ <? _); reflexivity.

(** C8: the four cases of [evaluateCloseCondition], for every metadata
    map and with the clock not before the epoch.
    - [document_valid] holds exactly when [documentValid] is the boolean
      [true], or [expiryDate] is present and denotes a date strictly in
      the future;
    - [speed_normalized], for [speed] and [speedLimit] that read as
      numbers, holds exactly when speed <= speedLimit, and is false when
      one of them does not read as a number;
    - [feedback_improved] holds exactly when [feedbackRating] reads as a
      number that is at least 3;
    - any other name holds exactly when the map has that key with the
      boolean [true]; a name that is absent gives [false].
    The function is total: no case raises an error. *)
Theorem evaluateCloseCondition_catalogue (now : Z)
    (metadata : gmap string JS.Value) :
  0 <= now ->
  (JS.ToBoolean (evaluateCloseCondition now "document_valid" metadata) = true
   <-> (metadata !! "documentValid" = Some (JS.Boolean true)
        \/ exists v, metadata !! "expiryDate" = Some v
                     /\ strictlyFuture now v = true))
  /\ (let speed := JS.get metadata "speed" in
      let speedLimit := JS.get metadata "speedLimit" in
      bothStrings speed speedLimit = false ->
      evaluateCloseCondition now "speed_normalized" metadata
      = JS.Boolean
          match JS.ToNumber speed, JS.ToNumber speedLimit with
          | JS.Num s, JS.Num l => s <=? l
          | _, _ => false
          end)
  /\ (evaluateCloseCondition now "feedback_improved" metadata
      = JS.Boolean
          match JS.ToNumber (JS.get metadata "feedbackRating") with
          | JS.Num rating => 3 <=? rating
          | JS.NaN => false
          end)
  /\ (forall condition,
        condition <> "document_valid" ->
        condition <> "speed_normalized" ->
        condition <> "feedback_improved" ->
        evaluateCloseCondition now condition metadata
        = JS.Boolean (bool_decide (metadata !! condition = Some (JS.Boolean true)))
        /\ (metadata !! condition = None ->
            evaluateCloseCondition now condition metadata = JS.Boolean false)).
Proof.
  intros Hn. split_and!.
  - unfold evaluateCloseCondition. simpl. unfold JS.or, JS.and, JS.get.
    rewrite gt_dates.
    destruct (metadata !! "documentValid") as [dv|] eqn:Edv; simpl.
    + destruct (JS.strict_eq_true dv) eqn:Es; simpl.
      * split; [intros _|reflexivity]. left.
        destruct dv as [| |[]| | |]; simpl in Es; congruence.
      * destruct (metadata !! "expiryDate") as [v|] eqn:Ev; simpl.
        -- destruct (JS.ToBoolean v) eqn:Et; simpl.
           ++ split.
              ** intros Hf. right. eauto.
              ** intros [Hd|(v' & Hv' & Hf)].
                 --- inversion Hd; subst. discriminate.
                 --- congruence.
           ++ rewrite Et. split; [discriminate|].
              intros [Hd|(v' & Hv' & Hf)].
              ** inversion Hd; subst. discriminate.
              ** inversion Hv'; subst.
                 rewrite (falsy_not_future now v' Hn Et) in Hf. discriminate.
        -- split; [discriminate|].
           intros [Hd|(v' & Hv' & Hf)]; [|discriminate].
           inversion Hd; subst. discriminate.
    + destruct (metadata !! "expiryDate") as [v|] eqn:Ev; simpl.
      * destruct (JS.ToBoolean v) eqn:Et; simpl.
        -- split.
           ++ intros Hf. right. eauto.
           ++ intros [Hd|(v' & Hv' & Hf)]; congruence.
        -- rewrite Et. split; [discriminate|].
           intros [Hd|(v' & Hv' & Hf)]; [discriminate|].
           inversion Hv'; subst.
           rewrite (falsy_not_future now v' Hn Et) in Hf. discriminate.
      * split; [discriminate|].
        intros [Hd|(v' & Hv' & Hf)]; discriminate.
  - intros speed speedLimit Hb. unfold evaluateCloseCondition. simpl.
    fold speed speedLimit. f_equal. unfold JS.le, JS.IsLessThan.
    destruct speed, speedLimit; try discriminate Hb; compare_numbers.
  - unfold evaluateCloseCondition. simpl. f_equal.
    unfold JS.ge, JS.IsLessThan.
    destruct (JS.get metadata "feedbackRating"); compare_numbers.
  - intros condition N1 N2 N3. unfold evaluateCloseCondition.
    apply String.eqb_neq in N1, N2, N3. rewrite N1, N2, N3.
    unfold JS.get. split.
    + f_equal. destruct (metadata !! condition) as [[| |[]| | |]|]; reflexivity.
    + intros ->. reflexivity.
Qed.

(** *** What [evaluateAlert] decides *)

Lemma minutes_threshold m now ts :
  Qle_bool (inject_Z m) (minutesSince now ts) = (m * 60000 <=? now - ts).
Proof.
  apply eq_true_iff_eq. rewrite Qle_bool_iff, Z.leb_le.
  unfold minutesSince, Qle, Qdiv, Qmult, Qinv, inject_Z. simpl. lia.
Qed.

Lemma agedBeyond_iff m now alert :
  agedBeyond m now alert <-> m * 60000 <= now - Alert.timestamp alert.
Proof.
  unfold agedBeyond. rewrite <- Qle_bool_iff, minutes_threshold.
  apply Z.leb_le.
Qed.

Lemma matchesQuery_similar alert driverId from doc :
  matchesQuery {| q_sourceType := Alert.sourceType alert;
                  q_driverId := driverId;
                  q_timestamp_gte := from;
                  q_status_in := [OPEN; ESCALATED] |} doc
  = similar alert driverId doc && (from <=? Alert.timestamp doc).
Proof.
  unfold matchesQuery, similar.
  cbn [q_sourceType q_driverId q_timestamp_gte q_status_in].
  destruct (String.eqb _ _), (fieldMatches _ _), (from <=? _),
    (statusIn _ _); reflexivity.
Qed.

Lemma filter_ext_bool {A} (f g : A -> bool) l :
  (forall x, f x = g x) -> List.filter f l = List.filter g l.
Proof. intros E. induction l as [|x l IH]; simpl; [|rewrite E, IH]; reflexivity. Qed.

Lemma countDocuments_spec alert driverId from w c w' :
  Alert_countDocuments
    {| q_sourceType := Alert.sourceType alert; q_driverId := driverId;
       q_timestamp_gte := from; q_status_in := [OPEN; ESCALATED] |} w
  = (c, w') ->
  stores w' = stores w
  /\ rules w' = rules w
  /\ forall n, c = Normal n ->
       n = similarSince from alert driverId (alertDocs w).
Proof.
  intros E. split; [eapply readOnly_countDocuments; eauto|].
  unfold Alert_countDocuments, bind, gets, ret, storeCall in E.
  unfold similarSince.
  rewrite <- (filter_ext_bool _ _ _ (matchesQuery_similar alert driverId from)).
  destruct (faults w) as [|[] fs]; inversion E; subst; simpl;
    (split; [reflexivity|]); intros n Hn; inversion Hn; reflexivity.
Qed.

Ltac decide_checks E Hr Hc :=
  cbn [named default from_option id] in E |- *;
  repeat (cbv beta iota zeta in E;
    match type of E with
    | context [if ?b then _ else _] => destruct b eqn:?
    end);
  inversion E; subst; cbn in Hr; inversion Hr; subst;
  cbn [shouldEscalate shouldAutoClose reason];
  repeat match goal with
    | Hb : context [clock ?w] |- _ => rewrite Hc in Hb
    end;
  repeat match goal with
    | Hb : _ = true |- _ => rewrite Hb
    | Hb : _ = false |- _ => rewrite Hb
    | Hb : _ = Some _ |- _ => rewrite Hb
    | Hb : _ = None |- _ => rewrite Hb
    end;
  cbn [andb orb negb default from_option id]; auto.

Lemma evaluateAlert_result alert w ev w' r :
  evaluateAlert alert w = (Normal ev, w') ->
  rule ev = Some r ->
  stores w' = stores w
  /\ shouldEscalate ev = countReached w r alert
  /\ shouldAutoClose ev = conditionMet (clock w) r alert || agedOut (clock w) r alert
  /\ reason ev = Some (lastReason w r alert).
Proof.
  intros E Hr.
  pose proof (readOnly_evaluateAlert alert _ _ _ E) as Hs.
  split; [exact Hs|].
  cbv beta iota zeta delta [evaluateAlert bind gets ret throw DateNow getRule] in E.
  assert (exists w1, stores w1 = stores w /\
    (if negb (initialized w) then initialize else (fun s => (Normal tt, s))) w
    = (Normal tt, w1)) as (w1 & Hs1 & Ei).
  { destruct (initialized w); cbn [negb] in *.
    - exists w. auto.
    - destruct (initialize w) as [[[]|e] w1] eqn:Ei; [|discriminate].
      exists w1. split; [eapply readOnly_initialize; eauto|reflexivity]. }
  rewrite Ei in E. clear Ei.
  injection Hs1 as Ha1 Hh1 Hr1 Hc1.
  unfold lastReason, closeReason, escalationReason, countReached,
    conditionMet, agedOut, counts, threshold, windowStart.
  rewrite <- Ha1, <- Hc1. clear Hs Hh1 Hr1 Ha1 Hc1.
  destruct (rules w1 !! Alert.sourceType alert) as [r0|] eqn:Er;
    [|inversion E; subst; discriminate].
  destruct (Rule.enabled r0) eqn:En; cbn [negb] in E;
    [|inversion E; subst; discriminate].
  destruct (specified (Rule.escalate_if_count (Rule.conditions r0))
            && specified (Rule.window_mins (Rule.conditions r0))) eqn:Ec.
  - destruct (Alert.metadata alert) as [md|] eqn:Em; [|discriminate].
    cbv beta iota zeta in E. unfold JS.TimeClip in E.
    destruct (Z.abs _ <=? _) eqn:Ev; [|discriminate].
    destruct (Alert_countDocuments _ w1) as [[n|e] w2] eqn:Eq; [|discriminate].
    apply countDocuments_spec in Eq as (Hs2 & _ & Hn).
    specialize (Hn n eq_refl). injection Hs2 as Ha2 Hh2 Hr2 Hc2.
    subst n. clear Ha2 Hh2 Hr2.
    destruct (Rule.auto_close_if (Rule.conditions r0)) as [name|] eqn:Ea;
      decide_checks E Hr Hc2.
  - assert (Hc2 : clock w1 = clock w1) by reflexivity.
    destruct (Alert.metadata alert) as [md|] eqn:Em;
      destruct (Rule.auto_close_if (Rule.conditions r0)) as [name|] eqn:Ea;
      decide_checks E Hr Hc2.
Qed.

Lemma calm_tail n w w' :
  calm (S n) w -> faults w' = tail (faults w) -> calm n w'.
Proof.
  intros Hc Hf i Hi. rewrite Hf. specialize (Hc (S i)).
  destruct (faults w) as [|b fs]; simpl in *.
  - now destruct i.
  - apply Hc. lia.
Qed.

Lemma countDocuments_calm q w :
  calm 1 w ->
  exists n w',
    Alert_countDocuments q w = (Normal n, w')
    /\ faults w' = tail (faults w)
    /\ rules w' = rules w /\ initialized w' = initialized w
    /\ cachedRules w' = cachedRules w.
Proof.
  intros Hc. unfold Alert_countDocuments, bind, gets, ret.
  destruct (calm_storeCall 0 w Hc) as (w1 & -> & _ & Hf & Hr & Hi & Hk & _).
  eexists _, _. split; [reflexivity|]. auto.
Qed.

(** On an engine that holds an enabled rule for the alert's source type,
    [evaluateAlert] returns, provided the count query (when the rule asks
    for one) can be built, passes the cast and is answered. *)
Lemma evaluateAlert_returns alert w r :
  initialized w = true ->
  rules w !! Alert.sourceType alert = Some r ->
  Rule.enabled r = true ->
  (counts r = true ->
     Alert.metadata alert <> None
     /\ validDate (windowStart (clock w) r) = true /\ calm 1 w) ->
  exists ev w',
    evaluateAlert alert w = (Normal ev, w')
    /\ rule ev = Some r
    /\ faults w' = (if counts r then tail (faults w) else faults w).
Proof.
  intros Hi Hr He Hq.
  cbv beta iota zeta delta [evaluateAlert bind gets ret throw DateNow getRule].
  rewrite Hi. cbn [negb]. rewrite Hr, He. cbn [negb].
  unfold counts, validDate, windowStart in *.
  destruct (specified (Rule.escalate_if_count (Rule.conditions r))
            && specified (Rule.window_mins (Rule.conditions r))) eqn:Ec.
  - destruct (Hq eq_refl) as (Hm & Hv & Hc).
    destruct (Alert.metadata alert) as [md|] eqn:Em; [|congruence].
    unfold JS.TimeClip. rewrite Hv.
    destruct (countDocuments_calm
                {| q_sourceType := Alert.sourceType alert;
                   q_driverId := JS.get md "driverId";
                   q_timestamp_gte :=
                     clock w - default 0 (Rule.window_mins (Rule.conditions r)) * 60 * 1000;
                   q_status_in := [OPEN; ESCALATED] |} w Hc)
      as (n & w1 & -> & Hf & _).
    rewrite <- Hf.
    repeat match goal with
      | |- context [if ?b then _ else _] => destruct b
      end; eexists _, _; split_and!; reflexivity.
  - destruct (Alert.metadata alert) as [md|];
    repeat match goal with
      | |- context [if ?b then _ else _] => destruct b
      end; eexists _, _; split_and!; reflexivity.
Qed.

(** A window whose start is not a date: the count query does not pass
    the cast, and nothing is sent to the store. *)
Lemma evaluateAlert_rejected alert w r :
  initialized w = true ->
  rules w !! Alert.sourceType alert = Some r ->
  Rule.enabled r = true ->
  counts r = true ->
  Alert.metadata alert <> None ->
  validDate (windowStart (clock w) r) = false ->
  evaluateAlert alert w = (Throw CastError_timestamp, w).
Proof.
  intros Hi Hr He Hq Hm Hv.
  cbv beta iota zeta delta [evaluateAlert bind gets ret throw DateNow getRule].
  rewrite Hi. cbn [negb]. rewrite Hr, He. cbn [negb].
  unfold counts, validDate, windowStart in *. rewrite Hq.
  destruct (Alert.metadata alert) as [md|] eqn:Em; [|congruence].
  unfold JS.TimeClip. rewrite Hv. reflexivity.
Qed.

Lemma similarSince_within from now alert driverId docs :
  (forall doc, doc ∈ docs -> Alert.timestamp doc <= now) ->
  similarSince from alert driverId docs
  = similarWithin from now alert driverId docs.
Proof.
  intros Hpast. unfold similarSince, similarWithin. f_equal. f_equal.
  induction docs as [|d docs IH]; simpl; [reflexivity|].
  assert (Hd : (Alert.timestamp d <=? now) = true).
  { apply Z.leb_le, Hpast. left. }
  rewrite Hd, andb_true_r, IH; [reflexivity|].
  intros doc Hdoc. apply Hpast. now right.
Qed.

(** C2, as the code has it.  The rule is the one that the engine holds
    for the source type of the alert when it looks it up, after the
    initialization that a first call makes; it is enabled and the alert
    has metadata.  When the rule specifies both [escalate_if_count] and
    [window_mins], each a number other than 0, and the count query is
    accepted (the start of the window, now - window_mins, is a date, and
    the store answers), [evaluateAlert] returns with [shouldEscalate]
    true if and only if the number of stored alerts that are OPEN or
    ESCALATED, of the same source type and for the same
    [metadata.driverId], with a timestamp at or after now - window_mins
    (the query has no upper bound), is at least [escalate_if_count]; a
    count of threshold - 1 does not escalate and a count of threshold
    does; when no stored alert is later than now, that number is the one
    of the alerts within [[now - window_mins, now]].  When the start of
    the window is not a date, the evaluation is rejected.  When one of the
    two values is missing or 0, no count is made and [shouldEscalate] is
    false. *)
Theorem escalation_iff_count_since (alert : Alert.t) (w w0 : World)
    (r : Rule.t) (metadata : gmap string JS.Value) :
  consulted w w0 ->
  rules w0 !! Alert.sourceType alert = Some r ->
  Rule.enabled r = true ->
  Alert.metadata alert = Some metadata ->
  let driverId := JS.get metadata "driverId" in
  let n := similarSince (windowStart (clock w) r) alert driverId (alertDocs w) in
  (counts r = true ->
   validDate (windowStart (clock w) r) = true ->
   calm 1 w0 ->
   exists ev w',
     evaluateAlert alert w = (Normal ev, w')
     /\ rule ev = Some r
     /\ (shouldEscalate ev = true <-> threshold r <= n)
     /\ (n = threshold r - 1 -> shouldEscalate ev = false)
     /\ (n = threshold r -> shouldEscalate ev = true)
     /\ ((forall doc, doc ∈ alertDocs w -> Alert.timestamp doc <= clock w) ->
         n = similarWithin (windowStart (clock w) r) (clock w) alert driverId
               (alertDocs w)))
  /\ (counts r = true ->
      validDate (windowStart (clock w) r) = false ->
      exists e, evaluateAlert alert w = (Throw e, w0))
  /\ (counts r = false ->
      exists ev w',
        evaluateAlert alert w = (Normal ev, w')
        /\ rule ev = Some r
        /\ shouldEscalate ev = false).
Proof.
  intros Hcons Hr He Hm driverId n.
  destruct (evaluateAlert_consulted alert w w0 Hcons) as (Eq & Hi & Hs).
  injection Hs as Ha Hh Hrd Hk.
  split_and!.
  - intros Hq Hv Hc.
    destruct (evaluateAlert_returns alert w0 r Hi Hr He)
      as (ev & w' & E & Hrule & _).
    { intros _. split_and!; [congruence|now rewrite Hk|exact Hc]. }
    rewrite <- Eq in E.
    destruct (evaluateAlert_result alert w ev w' r E Hrule) as (_ & Hesc & _).
    unfold countReached in Hesc. rewrite Hq, Hm in Hesc. cbn [andb] in Hesc.
    fold driverId n in Hesc.
    exists ev, w'. split_and!; auto.
    + rewrite Hesc. apply Z.leb_le.
    + intros Hn. rewrite Hesc. apply Z.leb_gt. lia.
    + intros Hn. rewrite Hesc. apply Z.leb_le. lia.
    + intros Hpast. now apply similarSince_within.
  - intros Hq Hv. exists CastError_timestamp. rewrite Eq.
    apply (evaluateAlert_rejected alert w0 r); auto; [congruence|now rewrite Hk].
  - intros Hq.
    destruct (evaluateAlert_returns alert w0 r Hi Hr He)
      as (ev & w' & E & Hrule & _); [congruence|].
    rewrite <- Eq in E.
    destruct (evaluateAlert_result alert w ev w' r E Hrule) as (_ & Hesc & _).
    unfold countReached in Hesc. rewrite Hq in Hesc.
    exists ev, w'. auto.
Qed.

(** C7, as the code has it.  The rule is the one that the engine holds
    for the source type of the alert when it looks it up, after the
    initialization that a first call makes; it is enabled, and the
    evaluation is not rejected (a rule that also counts finds metadata, a
    window that starts at a date and a store that answers).  Then
    [evaluateAlert] returns.  When the rule specifies
    [auto_close_after_mins], a number other than 0, [shouldAutoClose] is
    true if and only if the age of the alert, (now - timestamp) in
    minutes, is at least the threshold, or the close condition named by
    the rule holds of the alert's metadata: an alert created
    threshold + 1 minutes ago auto-closes; one created threshold - 1
    minutes ago does not, unless that condition holds.  When
    [auto_close_after_mins] is missing or 0 the age is not looked at, and
    [shouldAutoClose] is true if and only if the named condition
    holds. *)
Theorem autoClose_iff_aged_or_condition (alert : Alert.t) (w w0 : World)
    (r : Rule.t) :
  consulted w w0 ->
  rules w0 !! Alert.sourceType alert = Some r ->
  Rule.enabled r = true ->
  (counts r = true ->
     Alert.metadata alert <> None
     /\ validDate (windowStart (clock w) r) = true /\ calm 1 w0) ->
  exists ev w',
    evaluateAlert alert w = (Normal ev, w')
    /\ rule ev = Some r
    /\ (forall mins,
          Rule.auto_close_after_mins (Rule.conditions r) = Some mins ->
          mins <> 0 ->
          (shouldAutoClose ev = true <->
           agedBeyond mins (clock w) alert
           \/ conditionMet (clock w) r alert = true)
          /\ (conditionMet (clock w) r alert = false ->
              (shouldAutoClose ev = true <-> agedBeyond mins (clock w) alert))
          /\ (Alert.timestamp alert = clock w - (mins + 1) * 60000 ->
              shouldAutoClose ev = true)
          /\ (Alert.timestamp alert = clock w - (mins - 1) * 60000 ->
              conditionMet (clock w) r alert = false ->
              shouldAutoClose ev = false))
    /\ (specified (Rule.auto_close_after_mins (Rule.conditions r)) = false ->
        (shouldAutoClose ev = true <-> conditionMet (clock w) r alert = true)).
Proof.
  intros Hcons Hr He Hq.
  destruct (evaluateAlert_consulted alert w w0 Hcons) as (Eq & Hi & Hs).
  injection Hs as Ha Hh Hrd Hk.
  destruct (evaluateAlert_returns alert w0 r Hi Hr He)
    as (ev & w' & E & Hrule & _).
  { intros Hc. destruct (Hq Hc) as (? & ? & ?). split_and!; auto.
    now rewrite Hk. }
  rewrite <- Eq in E.
  destruct (evaluateAlert_result alert w ev w' r E Hrule) as (_ & _ & Hclose & _).
  exists ev, w'. split_and!; auto.
  - intros mins Hm Hnz.
    assert (Haged : agedOut (clock w) r alert = true
                    <-> agedBeyond mins (clock w) alert).
    { unfold agedOut, agedBeyond. rewrite Hm. cbn [specified default from_option id].
      apply Z.eqb_neq in Hnz. rewrite Hnz. cbn [negb andb].
      apply Qle_bool_iff. }
    split_and!.
    + rewrite Hclose, orb_true_iff, Haged. tauto.
    + intros Hc. rewrite Hclose, Hc, orb_false_l. exact Haged.
    + intros Ht. rewrite Hclose. apply orb_true_iff. right.
      apply Haged, agedBeyond_iff. lia.
    + intros Ht Hc. rewrite Hclose, Hc, orb_false_l.
      apply not_true_is_false. rewrite Haged, agedBeyond_iff. lia.
  - intros Hn. rewrite Hclose. unfold agedOut. rewrite Hn. cbn [andb].
    now rewrite orb_false_r.
Qed.

(** *** Persisting and logging *)

Lemma save_spec a w c w' :
  save a w = (c, w') ->
  clock w' = clock w /\ historyDocs w' = historyDocs w
  /\ match c with
     | Normal _ => alertDocs w' = replaceDocument a (alertDocs w)
     | Throw _ => alertDocs w' = alertDocs w
     end.
Proof.
  unfold save, bind, gets, modify, throw, storeCall. intros E.
  destruct (faults w) as [|[] fs]; cbn in E;
    try destruct (existsb _ _); inversion E; subst; auto.
Qed.

Lemma save_calm n a w :
  calm (S n) w -> stored a w ->
  exists w',
    save a w = (Normal tt, w')
    /\ calm n w'
    /\ alertDocs w' = replaceDocument a (alertDocs w)
    /\ historyDocs w' = historyDocs w /\ clock w' = clock w.
Proof.
  intros Hc Hs. unfold save, bind, gets, modify, throw.
  destruct (calm_storeCall n w Hc) as (w1 & -> & Hc1 & Hf & _ & _ & _ & Hst).
  injection Hst as Ha Hh Hr Hk. unfold stored in Hs. rewrite Ha, Hs.
  eexists. split; [reflexivity|]. split_and!; auto.
Qed.

Lemma logTransition_spec id a from to rsn by_ uid rl w c w' :
  logTransition id a from to rsn by_ uid rl w = (c, w') ->
  clock w' = clock w /\ alertDocs w' = alertDocs w
  /\ match c with
     | Normal _ =>
         historyDocs w'
         = (historyDocs w ++
             [ {| AlertHistory.alertId := id;
                  AlertHistory.alert := Alert._id a;
                  AlertHistory.fromStatus := from;
                  AlertHistory.toStatus := to;
                  AlertHistory.reason := rsn;
                  AlertHistory.triggeredBy := by_;
                  AlertHistory.userId := uid;
                  AlertHistory.metadata_rule := rl;
                  AlertHistory.timestamp := clock w |} ])%list
     | Throw _ => historyDocs w' = historyDocs w
     end.
Proof.
  unfold logTransition, bind, gets, modify, DateNow, storeCall. intros E.
  destruct (faults w) as [|[] fs]; cbn in E; inversion E; subst; auto.
Qed.

Lemma logTransition_calm n id a from to rsn by_ uid rl w :
  calm (S n) w ->
  exists w',
    logTransition id a from to rsn by_ uid rl w = (Normal tt, w')
    /\ calm n w'.
Proof.
  intros Hc. unfold logTransition, bind, gets, modify, DateNow.
  destruct (calm_storeCall n w Hc) as (w1 & -> & Hc1 & _).
  eexists. split; [reflexivity|]. exact Hc1.
Qed.

Lemma replaceDocument_ids a docs :
  map Alert._id (replaceDocument a docs) = map Alert._id docs.
Proof.
  unfold replaceDocument. induction docs as [|d docs IH]; simpl; [reflexivity|].
  rewrite IH. f_equal. unfold sameDocument.
  destruct (String.eqb _ _) eqn:E; [|reflexivity].
  now apply String.eqb_eq in E.
Qed.

Lemma stored_by_id a docs :
  existsb (sameDocument a) docs
  = existsb (String.eqb (Alert._id a)) (map Alert._id docs).
Proof. induction docs as [|d docs IH]; simpl; [|rewrite IH]; reflexivity. Qed.


(** *** The two transitions of [processAlert] *)

Lemma escalateByRule_spec ev m a w c a' w' :
  escalateByRule ev m (a, w) = (c, (a', w')) ->
  clock w' = clock w
  /\ ((shouldEscalate ev && Status_eqb (Alert.status a) OPEN = false
       /\ c = Normal m /\ a' = a /\ w' = w)
      \/ (shouldEscalate ev = true /\ Alert.status a = OPEN
          /\ a' = Alert.escalate (clock w) (reason ev) a
          /\ ((c = Normal true
               /\ historyDocs w'
                  = (historyDocs w
                     ++ [transitionEntry ev a OPEN ESCALATED (clock w)])%list
               /\ alertDocs w' = replaceDocument a' (alertDocs w))
              \/ (exists e, c = Throw e
                            /\ historyDocs w' = historyDocs w)))).
Proof.
  intros E.
  cbv beta iota zeta delta
    [escalateByRule bind this gets inWorld call modify ret DateNow fst snd] in E.
  destruct (shouldEscalate ev && Status_eqb (Alert.status a) OPEN) eqn:Eg.
  - apply andb_true_iff in Eg as [Hes Hst].
    assert (Ho : Alert.status a = OPEN) by (destruct (Alert.status a); simpl in Hst; congruence).
    destruct (save _ w) as [[[]|e] w1] eqn:Es;
      apply save_spec in Es as (Hc1 & Hh1 & Ha1).
    + destruct (logTransition _ _ _ _ _ _ _ _ w1) as [[[]|e] w2] eqn:El;
        apply logTransition_spec in El as (Hc2 & Ha2 & Hh2);
        inversion E; subst; (split; [congruence|]); right; split_and!; auto.
      * left. split_and!; auto.
        -- rewrite Hh2, Hh1, Hc1. unfold transitionEntry.
           unfold Alert.escalate. rewrite Ho. reflexivity.
        -- congruence.
      * right. exists e. split; [reflexivity|congruence].
    + inversion E; subst. split; [congruence|]. right. split_and!; auto.
      right. exists e. split; [reflexivity|congruence].
  - inversion E; subst. split; [reflexivity|]. left. auto.
Qed.

Lemma autoCloseByRule_spec ev m a w c a' w' :
  autoCloseByRule ev m (a, w) = (c, (a', w')) ->
  clock w' = clock w
  /\ ((shouldAutoClose ev
         && (Status_eqb (Alert.status a) OPEN
             || Status_eqb (Alert.status a) ESCALATED) = false
       /\ c = Normal m /\ a' = a /\ w' = w)
      \/ (shouldAutoClose ev = true
          /\ (Alert.status a = OPEN \/ Alert.status a = ESCALATED)
          /\ a' = Alert.autoClose (clock w) (reason ev) a
          /\ Alert.status a' = AUTO_CLOSED
          /\ ((c = Normal true
               /\ historyDocs w'
                  = (historyDocs w
                     ++ [transitionEntry ev a (Alert.status a) AUTO_CLOSED
                           (clock w)])%list
               /\ alertDocs w' = replaceDocument a' (alertDocs w))
              \/ (exists e, c = Throw e
                            /\ historyDocs w' = historyDocs w)))).
Proof.
  intros E.
  cbv beta iota zeta delta
    [autoCloseByRule bind this gets inWorld call modify ret DateNow fst snd] in E.
  destruct (shouldAutoClose ev
            && (Status_eqb (Alert.status a) OPEN
                || Status_eqb (Alert.status a) ESCALATED)) eqn:Eg.
  - apply andb_true_iff in Eg as [Hes Hst].
    assert (Ho : Alert.status a = OPEN \/ Alert.status a = ESCALATED)
      by (destruct (Alert.status a); simpl in Hst; auto; congruence).
    assert (Hst' : Alert.status (Alert.autoClose (clock w) (reason ev) a) = AUTO_CLOSED)
      by (unfold Alert.autoClose; rewrite Hst; reflexivity).
    destruct (save _ w) as [[[]|e] w1] eqn:Es;
      apply save_spec in Es as (Hc1 & Hh1 & Ha1).
    + destruct (logTransition _ _ _ _ _ _ _ _ w1) as [[[]|e] w2] eqn:El;
        apply logTransition_spec in El as (Hc2 & Ha2 & Hh2);
        inversion E; subst; (split; [congruence|]); right; split_and!; auto.
      * left. split_and!; auto.
        -- rewrite Hh2, Hh1, Hc1. unfold transitionEntry.
           unfold Alert.autoClose. rewrite Hst. reflexivity.
        -- congruence.
      * right. exists e. split; [reflexivity|congruence].
    + inversion E; subst. split; [congruence|]. right. split_and!; auto.
      right. exists e. split; [reflexivity|congruence].
  - inversion E; subst. split; [reflexivity|]. left. auto.
Qed.



(** [processAlert], block by block. *)
Lemma processAlert_unfold alert w :
  processAlert alert w =
  match evaluateAlert alert w with
  | (Throw e, w1) => (Normal (failed e, alert), w1)
  | (Normal ev, w1) =>
      match escalateByRule ev false (alert, w1) with
      | (Throw e, (a1, w2)) => (Normal (failed e, a1), w2)
      | (Normal m1, (a1, w2)) =>
          match autoCloseByRule ev m1 (a1, w2) with
          | (Throw e, (a2, w3)) => (Normal (failed e, a2), w3)
          | (Normal m2, (a2, w3)) =>
              (Normal ({| success := true; modified := m2;
                          evaluation := Some ev; error := None |}, a2), w3)
          end
      end
  end.
Proof.
  unfold processAlert, processAlert_try, bind, this, gets, inWorld, ret.
  cbn [fst snd].
  destruct (evaluateAlert alert w) as [[ev|e] w1]; [|reflexivity].
  destruct (escalateByRule ev false (alert, w1)) as [[m1|e] [a1 w2]]; [|reflexivity].
  destruct (autoCloseByRule ev m1 (a1, w2)) as [[m2|e] [a2 w3]]; reflexivity.
Qed.

Lemma appended_app w w' l :
  historyDocs w' = (historyDocs w ++ l)%list -> appended w w' = l.
Proof. unfold appended. intros ->. apply drop_app_length. Qed.

Lemma appended_same w w' : historyDocs w' = historyDocs w -> appended w w' = [].
Proof. intros E. apply appended_app. rewrite E, app_nil_r. reflexivity. Qed.

Lemma transitionEntry_same_document ev a a' from to now :
  Alert.alertId a' = Alert.alertId a -> Alert._id a' = Alert._id a ->
  transitionEntry ev a' from to now = transitionEntry ev a from to now.
Proof. unfold transitionEntry. intros -> ->. reflexivity. Qed.



(** *** Repeated processing *)





(** *** Batches *)

Lemma processAlert_total a w :
  exists result a' w', processAlert a w = (Normal (result, a'), w').
Proof.
  rewrite processAlert_unfold.
  repeat match goal with
    | |- context [match ?x with _ => _ end] => destruct x
    end; eauto.
Qed.

(** One iteration: [processAlert] is called, and the counters move
    according to its result and to the status the alert is left in. *)
Lemma processBatch_step_spec results a w :
  exists result a' w',
    processAlert a w = (Normal (result, a'), w')
    /\ exists results',
         processBatch_step results a w = (Normal (results', a'), w')
         /\ processed results'
            = (processed results + howMany succeeded [(result, a')])%nat
         /\ errors results'
            = (errors results + howMany errored [(result, a')])%nat
         /\ escalated results'
            = (escalated results + howMany (leftIn ESCALATED) [(result, a')])%nat
         /\ autoClosed results'
            = (autoClosed results + howMany (leftIn AUTO_CLOSED) [(result, a')])%nat.
Proof.
  destruct (processAlert_total a w) as (result & a' & w' & E).
  exists result, a', w'. split; [exact E|].
  unfold processBatch_step, try_catch, bind, ret. rewrite E.
  unfold howMany, succeeded, errored, leftIn. cbn [List.filter fst snd].
  destruct (success result); cbn [negb andb].
  - destruct (modified result); cbn [andb].
    + destruct (Alert.status a'); cbn [Status_eqb];
        eexists; (split; [reflexivity|]); cbn; split_and!; lia.
    + eexists; (split; [reflexivity|]); cbn; split_and!; lia.
  - eexists; (split; [reflexivity|]); cbn; split_and!; lia.
Qed.

Lemma howMany_cons {A} (p : A -> bool) x l :
  howMany p (x :: l) = (howMany p [x] + howMany p l)%nat.
Proof. unfold howMany. cbn. destruct (p x); reflexivity. Qed.

Lemma processBatch_loop_spec alerts :
  forall results w,
  exists results' w',
    processBatch_loop results alerts w
    = (Normal (results', map snd (outcomes alerts w)), w')
    /\ length (outcomes alerts w) = length alerts
    /\ processed results'
       = (processed results + howMany succeeded (outcomes alerts w))%nat
    /\ errors results'
       = (errors results + howMany errored (outcomes alerts w))%nat
    /\ escalated results'
       = (escalated results + howMany (leftIn ESCALATED) (outcomes alerts w))%nat
    /\ autoClosed results'
       = (autoClosed results
          + howMany (leftIn AUTO_CLOSED) (outcomes alerts w))%nat.
Proof.
  induction alerts as [|a rest IH]; intros results w.
  - exists results, w. cbn. unfold howMany. cbn. split_and!; auto.
  - destruct (processBatch_step_spec results a w)
      as (result & a' & w1 & Ep & results1 & Es & Hp & He & Hx & Hc).
    destruct (IH results1 w1) as (results2 & w2 & El & Hlen & Hp2 & He2 & Hx2 & Hc2).
    exists results2, w2.
    cbn [processBatch_loop outcomes]. unfold bind at 1. rewrite Es.
    unfold bind at 1. rewrite El, Ep. cbn [map snd length].
    rewrite !(howMany_cons _ (result, a') (outcomes rest w1)).
    split_and!; [reflexivity|lia..].
Qed.

Lemma howMany_split (l : list (ProcessResult * Alert.t)) :
  (howMany succeeded l + howMany errored l)%nat = length l.
Proof.
  unfold howMany, succeeded, errored.
  induction l as [|o l IH]; cbn; [reflexivity|].
  destruct (success (fst o)); cbn; lia.
Qed.

(** C5: [processBatch] never throws.  An exception thrown while an alert
    is evaluated or persisted is caught by [processAlert], which returns a
    failure result.  [processBatch] processes every alert of the list,
    each from the state the previous one left, whether or not an earlier
    one failed; a failed alert counts in [errors] and in no other counter; the counters returned are
    the numbers of alerts processed, escalated, auto-closed and failed.
    A batch of five alerts of which exactly one fails gives
    [processed = 4] and [errors = 1]. *)
Theorem processBatch_isolates_failures (alerts : list Alert.t) (w : World) :
  (forall alert w0 message alert' w0',
      processAlert_try (alert, w0) = (Throw message, (alert', w0')) ->
      processAlert alert w0 = (Normal (failed message, alert'), w0'))
  /\ exists results alerts' w',
    processBatch alerts w = (Normal (results, alerts'), w')
    /\ alerts' = map snd (outcomes alerts w)
    /\ length (outcomes alerts w) = length alerts
    /\ processed results = howMany succeeded (outcomes alerts w)
    /\ errors results = howMany errored (outcomes alerts w)
    /\ escalated results = howMany (leftIn ESCALATED) (outcomes alerts w)
    /\ autoClosed results = howMany (leftIn AUTO_CLOSED) (outcomes alerts w)
    /\ (forall o, o ∈ outcomes alerts w -> errored o = true ->
          succeeded o = false /\ leftIn ESCALATED o = false
          /\ leftIn AUTO_CLOSED o = false)
    /\ (length alerts = 5%nat ->
        howMany errored (outcomes alerts w) = 1%nat ->
        processed results = 4%nat /\ errors results = 1%nat).
Proof.
  split.
  { intros alert w0 message alert' w0' E. unfold processAlert. now rewrite E. }
  destruct (processBatch_loop_spec alerts
              {| processed := 0; escalated := 0; autoClosed := 0; errors := 0 |} w)
    as (results & w' & E & Hlen & Hp & He & Hx & Hc).
  cbn in Hp, He, Hx, Hc.
  exists results, (map snd (outcomes alerts w)), w'.
  split_and!; auto.
  - intros o _ Ho. unfold errored, succeeded, leftIn in *.
    apply negb_true_iff in Ho. rewrite Ho. auto.
  - intros H5 H1. pose proof (howMany_split (outcomes alerts w)). lia.
Qed.


End Properties.

(* ================================================================== *)
(** ** Properties of the surrounding code *)
(* ================================================================== *)

Section Surroundings.
Context `{JS.Host}.

(** *** The state machine, composed *)

(** X1: the two guarded transitions are idempotent and [autoClose]
    absorbs [escalate]: repeating a transition, or escalating after an
    auto-close, changes nothing, so the first escalation and closure times
    are the ones kept; and neither transition moves an alert backwards. *)
Theorem guarded_transitions_compose (now1 now2 : Z) (r1 r2 : option string)
    (a : Alert.t) :
  Alert.escalate now2 r2 (Alert.escalate now1 r1 a) = Alert.escalate now1 r1 a
  /\ Alert.autoClose now2 r2 (Alert.autoClose now1 r1 a) = Alert.autoClose now1 r1 a
  /\ Alert.escalate now2 r2 (Alert.autoClose now1 r1 a) = Alert.autoClose now1 r1 a
  /\ (rank (Alert.status a) <= rank (Alert.status (Alert.escalate now1 r1 a)))%nat
  /\ (rank (Alert.status a) <= rank (Alert.status (Alert.autoClose now1 r1 a)))%nat
  /\ Alert.status (Alert.autoClose now2 r2 (Alert.escalate now1 r1 a))
     = (if terminal (Alert.status a) then Alert.status a else AUTO_CLOSED).
Proof.
  unfold Alert.escalate, Alert.autoClose.
  destruct (Alert.status a) eqn:E; cbn; rewrite ?E; cbn; split_and!; auto.
Qed.

(** *** The engine singleton *)

Lemma keepsEngine_ret {A} (a : A) : keepsEngine (ret a).
Proof. intros w c w' E. inversion E; subst. auto. Qed.

Lemma keepsEngine_throw {A} e : keepsEngine (@throw World A e).
Proof. intros w c w' E. inversion E; subst. auto. Qed.

Lemma keepsEngine_gets {A} (f : World -> A) : keepsEngine (gets f).
Proof. intros w c w' E. inversion E; subst. auto. Qed.

Lemma keepsEngine_bind {A B} (m : Async World A) (k : A -> Async World B) :
  keepsEngine m -> (forall a, keepsEngine (k a)) -> keepsEngine (bind m k).
Proof.
  intros Hm Hk w c w' E. unfold bind in E.
  destruct (m w) as [[a|e] w1] eqn:Em.
  - apply Hk in E as [? ?]. apply Hm in Em as [? ?]. split; congruence.
  - inversion E; subst. eauto.
Qed.

Lemma keepsEngine_if {A} (b : bool) (m1 m2 : Async World A) :
  keepsEngine m1 -> keepsEngine m2 -> keepsEngine (if b then m1 else m2).
Proof. destruct b; auto. Qed.

Lemma keepsEngine_storeCall : keepsEngine storeCall.
Proof.
  intros w c w' E. unfold storeCall in E.
  destruct (faults w) as [|[] fs]; inversion E; subst; auto.
Qed.

Ltac keeps :=
  repeat
    match goal with
    | |- keepsEngine (bind _ _) => apply keepsEngine_bind; [|intros ?]
    | |- keepsEngine (if _ then _ else _) => apply keepsEngine_if
    | |- keepsEngine (match ?x with _ => _ end) => destruct x
    | |- keepsEngine (ret _) => apply keepsEngine_ret
    | |- keepsEngine (throw _) => apply keepsEngine_throw
    | |- keepsEngine (gets _) => apply keepsEngine_gets
    | |- keepsEngine storeCall => apply keepsEngine_storeCall
    end.

Lemma keepsEngine_countDocuments q : keepsEngine (Alert_countDocuments q).
Proof. unfold Alert_countDocuments. keeps. Qed.

(** Once the engine is initialized, an evaluation neither reloads nor
    changes its rules. *)
Lemma evaluateAlert_keeps_engine alert w c w' :
  initialized w = true ->
  evaluateAlert alert w = (c, w') ->
  engine w' = engine w /\ stores w' = stores w.
Proof.
  intros Hi E. unfold evaluateAlert in E.
  unfold bind at 1 in E. unfold gets at 1 in E. rewrite Hi in E.
  cbn [negb] in E. revert E.
  match goal with
  | |- ?m w = _ -> _ => enough (K : keepsEngine m) by (intros E; exact (K _ _ _ E))
  end.
  pose proof keepsEngine_countDocuments.
  unfold getRule, DateNow. keeps; auto.
Qed.

Lemma indexRules_lookup_last rs sourceType :
  indexRules rs !! sourceType = last (rulesFor sourceType rs).
Proof.
  induction rs as [|r rs IH] using rev_ind; [reflexivity|].
  rewrite indexRules_snoc. unfold rulesFor in *. rewrite List.filter_app. cbn.
  destruct (String.eqb (Rule.sourceType r) sourceType) eqn:E.
  - apply String.eqb_eq in E. subst. rewrite lookup_insert_eq, last_snoc. reflexivity.
  - apply String.eqb_neq in E. rewrite lookup_insert_ne by exact E.
    rewrite app_nil_r. exact IH.
Qed.

Lemma last_elem_of {A} (l : list A) x : last l = Some x -> x ∈ l.
Proof.
  induction l as [|y l IH]; [discriminate|].
  destruct l as [|z l]; cbn in *.
  - intros [= ->]. left.
  - intros Hx. right. apply IH. exact Hx.
Qed.

Lemma indexRules_lookup_Some rs st r :
  indexRules rs !! st = Some r -> r ∈ rs /\ Rule.sourceType r = st.
Proof.
  rewrite indexRules_lookup_last. intros Hl. apply last_elem_of in Hl.
  unfold rulesFor in Hl. apply list_elem_of_In, List.filter_In in Hl as [Hin E].
  split; [now apply list_elem_of_In|now apply String.eqb_eq].
Qed.

Lemma indexRules_lookup_is_Some rs r :
  r ∈ rs -> is_Some (indexRules rs !! Rule.sourceType r).
Proof.
  intros Hin. rewrite indexRules_lookup_last.
  assert (Hne : rulesFor (Rule.sourceType r) rs <> []).
  { intros E. assert (Hr : r ∈ rulesFor (Rule.sourceType r) rs).
    { apply list_elem_of_In, List.filter_In. split; [now apply list_elem_of_In|].
      apply String.eqb_refl. }
    rewrite E in Hr. inversion Hr. }
  destruct (rulesFor (Rule.sourceType r) rs) as [|x l] using rev_ind; [congruence|].
  rewrite last_snoc. eauto.
Qed.

(** X2: the index keeps, for each source type, the last rule of that type
    in the list it was built from, whatever the order of the list: a rule
    is shadowed by every later rule of its source type.  A source type has
    an entry exactly when the list has a rule of that type, and an entry
    is always a rule of the list filed under its own source type. *)
Theorem index_keeps_last_of_type (rs : list Rule.t) (sourceType : string) :
  indexRules rs !! sourceType = last (rulesFor sourceType rs)
  /\ (is_Some (indexRules rs !! sourceType) <->
      exists r, r ∈ rs /\ Rule.sourceType r = sourceType)
  /\ (forall rs1 r rs2,
        rs = (rs1 ++ r :: rs2)%list ->
        Rule.sourceType r = sourceType ->
        rulesFor sourceType rs2 = [] ->
        indexRules rs !! sourceType = Some r).
Proof.
  split_and!.
  - apply indexRules_lookup_last.
  - split.
    + intros [r Hr]. apply indexRules_lookup_Some in Hr as [Hin Ht]. eauto.
    + intros (r & Hin & <-). now apply indexRules_lookup_is_Some.
  - intros rs1 r rs2 -> Ht Hnone. rewrite indexRules_lookup_last.
    unfold rulesFor in *. rewrite List.filter_app. cbn.
    apply String.eqb_eq in Ht. rewrite Ht, Hnone. apply last_snoc.
Qed.

(** X3: an alert whose source type has no rule in the index, or only a
    disabled one, is left alone: [evaluateAlert] answers "no action"
    without a store call, and [processAlert] reports success, unmodified,
    with the alert and the whole process state as they were. *)
Theorem unmatched_alert_untouched (alert : Alert.t) (w : World) :
  initialized w = true ->
  (forall r, rules w !! Alert.sourceType alert = Some r -> Rule.enabled r = false) ->
  evaluateAlert alert w = (Normal noAction, w)
  /\ processAlert alert w
     = (Normal ({| success := true; modified := false;
                   evaluation := Some noAction; error := None |}, alert), w).
Proof.
  intros Hi Hr.
  assert (E : evaluateAlert alert w = (Normal noAction, w)).
  { cbv beta iota zeta delta [evaluateAlert bind gets ret throw DateNow getRule].
    rewrite Hi. cbn [negb].
    destruct (rules w !! Alert.sourceType alert) as [r|]; [|reflexivity].
    rewrite (Hr r eq_refl). reflexivity. }
  split; [exact E|].
  rewrite processAlert_unfold, E.
  unfold escalateByRule, autoCloseByRule, bind, this, gets, ret. reflexivity.
Qed.

(** X4: alerts without a driver are counted together.  For an alert
    whose metadata has no [driverId] (or [null]), under an enabled rule
    with a count check whose query is accepted, [evaluateAlert] returns,
    and the alerts it counts are the stored alerts, OPEN or ESCALATED, of
    the same source type, at or after the start of the window, whose
    [driverId] is missing or [null], whatever else their metadata says:
    [shouldEscalate] is true exactly when there are at least
    [escalate_if_count] of them.  The rule is the one that the engine
    holds when it looks it up, after the initialization that a first call
    makes. *)
Theorem driverless_alerts_counted_together (alert : Alert.t) (w w0 : World)
    (r : Rule.t) (metadata : gmap string JS.Value) :
  consulted w w0 ->
  rules w0 !! Alert.sourceType alert = Some r ->
  Rule.enabled r = true ->
  counts r = true ->
  Alert.metadata alert = Some metadata ->
  nullish (JS.get metadata "driverId") = true ->
  validDate (windowStart (clock w) r) = true ->
  calm 1 w0 ->
  exists ev w',
    evaluateAlert alert w = (Normal ev, w')
    /\ (shouldEscalate ev = true <->
        threshold r
        <= Z.of_nat
             (length
                (List.filter
                   (fun doc =>
                      active doc
                      && String.eqb (Alert.sourceType doc) (Alert.sourceType alert)
                      && nullish (driverIdOf doc)
                      && (windowStart (clock w) r <=? Alert.timestamp doc))
                   (alertDocs w)))).
Proof.
  intros Hcons Hr He Hq Hm Hn Hv Hc.
  destruct (evaluateAlert_consulted alert w w0 Hcons) as (Eq & Hi & Hs).
  injection Hs as Ha Hh Hrd Hk.
  destruct (evaluateAlert_returns alert w0 r Hi Hr He)
    as (ev & w' & E & Hrule & _).
  { intros _. split_and!; [congruence|now rewrite Hk|exact Hc]. }
  rewrite <- Eq in E.
  destruct (evaluateAlert_result alert w ev w' r E Hrule) as (_ & Hesc & _).
  unfold countReached in Hesc. rewrite Hq, Hm in Hesc. cbn [andb] in Hesc.
  exists ev, w'. split; [exact E|].
  rewrite Hesc, Z.leb_le. unfold similarSince.
  rewrite (filter_ext_bool
             (fun doc => similar alert (JS.get metadata "driverId") doc
                         && (windowStart (clock w) r <=? Alert.timestamp doc))
             (fun doc =>
                active doc
                && String.eqb (Alert.sourceType doc) (Alert.sourceType alert)
                && nullish (driverIdOf doc)
                && (windowStart (clock w) r <=? Alert.timestamp doc)));
    [reflexivity|].
  intros doc. unfold similar, fieldMatches, statusIn, active. rewrite Hn.
  cbn [existsb]. now rewrite orb_false_r.
Qed.

(** X5: the first evaluation loads the rules.  On an engine that was never
    initialized, [evaluateAlert] leaves the engine initialized, its index
    built from the delivered list and that list in the cache, whatever the
    evaluation itself then decides.  When the rule store rejects the
    query, the error reaches the caller, [processAlert] reports a failure,
    and the engine is still uninitialized: the next call tries again. *)
Theorem first_evaluation_loads_rules (alert : Alert.t) (w : World) :
  initialized w = false ->
  (forall rs, delivered w rs ->
     exists c w',
       evaluateAlert alert w = (c, w')
       /\ initialized w' = true
       /\ rules w' = indexRules rs
       /\ cachedRules w' = Some rs)
  /\ (cachedRules w = None -> head (faults w) = Some true ->
      evaluateAlert alert w
      = (Throw "store operation failed", set_faults (tail (faults w)) w)
      /\ processAlert alert w
         = (Normal (failed "store operation failed", alert),
            set_faults (tail (faults w)) w)
      /\ initialized (set_faults (tail (faults w)) w) = false).
Proof.
  intros Hi. split.
  - intros rs Hd. rewrite (evaluateAlert_uninitialized _ _ Hi).
    destruct (initialize_delivered w rs Hd) as (w1 & Ei & Hr1 & Hi1 & _).
    rewrite Ei.
    destruct (initialize_success _ _ Ei) as (_ & _ & rs' & Hr' & Hc' & Hsrc).
    assert (rs' = rs) as ->.
    { unfold delivered, enabledRules in *.
      destruct Hd as [Hd|(Hd & _ & ->)], Hsrc as [(Hs & _)|(Hs & -> & _)];
        congruence. }
    destruct (evaluateAlert alert w1) as [c w'] eqn:E.
    destruct (evaluateAlert_keeps_engine _ _ _ _ Hi1 E) as (Heng & _).
    injection Heng as Hr2 Hi2 Hc2.
    exists c, w'. split_and!; congruence.
  - intros Hc Hf.
    assert (E : evaluateAlert alert w
                = (Throw "store operation failed", set_faults (tail (faults w)) w)).
    { rewrite (evaluateAlert_uninitialized _ _ Hi).
      unfold initialize, Rule_find_enabled.
      unfold try_catch, bind, gets, modify, ret, throw, storeCall.
      rewrite Hc. destruct (faults w) as [|[] fs]; try discriminate. reflexivity. }
    split_and!; [exact E| |exact Hi].
    rewrite processAlert_unfold, E. reflexivity.
Qed.

(** X6: [reloadRules] drops the cached list and reads the rule store.
    When the store answers, the index is built from the enabled rules in
    priority order and that list is cached: every rule of the index is a
    stored, enabled rule of its key's source type, and every enabled
    stored rule has its source type in the index.  When the store rejects
    the query, the error reaches the caller, the cache is left empty, and
    the engine keeps the index it had. *)
Theorem reloadRules_reads_the_store (w : World) :
  (calm 1 w ->
   exists w',
     reloadRules w = (Normal tt, w')
     /\ initialized w' = true
     /\ cachedRules w' = Some (enabledRules w)
     /\ rules w' = indexRules (enabledRules w)
     /\ stores w' = stores w
     /\ (forall st r, rules w' !! st = Some r ->
           r ∈ ruleDocs w /\ Rule.enabled r = true /\ Rule.sourceType r = st)
     /\ (forall r, r ∈ ruleDocs w -> Rule.enabled r = true ->
           is_Some (rules w' !! Rule.sourceType r)))
  /\ (head (faults w) = Some true ->
      exists w',
        reloadRules w = (Throw "store operation failed", w')
        /\ cachedRules w' = None
        /\ rules w' = rules w /\ initialized w' = initialized w).
Proof.
  split.
  - intros Hc.
    assert (Hd : delivered (set_cachedRules None w) (enabledRules w)).
    { right. split_and!; auto. }
    destruct (initialize_delivered _ _ Hd) as (w' & Ei & Hr & Hi & Hs & _).
    destruct (initialize_success _ _ Ei) as (_ & _ & rs' & _ & Hc' & Hsrc).
    destruct Hsrc as [(Hs' & _)|(_ & -> & _)]; [discriminate|].
    exists w'. unfold reloadRules, bind, modify. rewrite Ei.
    split_and!; auto.
    + intros st r Hl. rewrite Hr in Hl.
      apply indexRules_lookup_Some in Hl as [Hin Ht].
      unfold enabledRules in Hin.
      apply (proj1 (elem_of_sortByPriorityDesc _ _)) in Hin.
      apply list_elem_of_In, List.filter_In in Hin as [Hin He].
      split_and!; auto. now apply list_elem_of_In.
    + intros r Hin He. rewrite Hr. apply indexRules_lookup_is_Some.
      unfold enabledRules. apply (proj2 (elem_of_sortByPriorityDesc _ _)).
      apply list_elem_of_In, List.filter_In. split; [now apply list_elem_of_In|exact He].
  - intros Hf. unfold reloadRules, initialize, Rule_find_enabled.
    unfold try_catch, bind, gets, modify, ret, throw, storeCall. cbn.
    destruct (faults w) as [|[] fs]; try discriminate.
    eexists. split; [reflexivity|]. auto.
Qed.


(** *** One call of [processAlert] *)

Lemma save_writes a w c w' :
  save a w = (c, w') -> writesOnly a w w'.
Proof.
  unfold save. unfold bind, gets, modify, throw, storeCall, writesOnly, engine.
  intros E.
  destruct (faults w) as [|[] fs]; cbn in E;
    try destruct (existsb _ _); inversion E; subst; cbn; auto 10.
Qed.

Lemma logTransition_writes id a from to rsn by_ uid rl w c w' :
  logTransition id a from to rsn by_ uid rl w = (c, w') ->
  clock w' = clock w /\ ruleDocs w' = ruleDocs w /\ engine w' = engine w
  /\ alertDocs w' = alertDocs w.
Proof.
  unfold logTransition. unfold bind, gets, modify, DateNow, storeCall, engine.
  intros E.
  destruct (faults w) as [|[] fs]; cbn in E; inversion E; subst; cbn; auto.
Qed.

Lemma escalateByRule_writes ev m a w c a' w' :
  escalateByRule ev m (a, w) = (c, (a', w')) ->
  Alert._id a' = Alert._id a /\ Alert.alertId a' = Alert.alertId a
  /\ writesOnly a' w w'.
Proof.
  intros E.
  cbv beta iota zeta delta
    [escalateByRule bind this gets inWorld call modify ret DateNow fst snd] in E.
  destruct (shouldEscalate ev && Status_eqb (Alert.status a) OPEN).
  - assert (Hid : Alert._id (Alert.escalate (clock w) (reason ev) a) = Alert._id a
                  /\ Alert.alertId (Alert.escalate (clock w) (reason ev) a)
                     = Alert.alertId a)
      by (unfold Alert.escalate; destruct (Status_eqb _ _); auto).
    destruct (save _ w) as [[[]|e] w1] eqn:Es;
      apply save_writes in Es as (Hc1 & Hr1 & He1 & Ha1).
    + destruct (logTransition _ _ _ _ _ _ _ _ w1) as [[[]|e] w2] eqn:El;
        apply logTransition_writes in El as (Hc2 & Hr2 & He2 & Ha2);
        inversion E; subst; unfold writesOnly;
        rewrite Hc2, Hr2, He2, Ha2; destruct Hid; split_and!; auto.
    + inversion E; subst. unfold writesOnly. destruct Hid. split_and!; auto.
  - inversion E; subst. unfold writesOnly. auto 10.
Qed.

Lemma autoCloseByRule_writes ev m a w c a' w' :
  autoCloseByRule ev m (a, w) = (c, (a', w')) ->
  Alert._id a' = Alert._id a /\ Alert.alertId a' = Alert.alertId a
  /\ writesOnly a' w w'.
Proof.
  intros E.
  cbv beta iota zeta delta
    [autoCloseByRule bind this gets inWorld call modify ret DateNow fst snd] in E.
  destruct (shouldAutoClose ev
            && (Status_eqb (Alert.status a) OPEN
                || Status_eqb (Alert.status a) ESCALATED)).
  - assert (Hid : Alert._id (Alert.autoClose (clock w) (reason ev) a) = Alert._id a
                  /\ Alert.alertId (Alert.autoClose (clock w) (reason ev) a)
                     = Alert.alertId a)
      by (unfold Alert.autoClose; destruct (_ || _); auto).
    destruct (save _ w) as [[[]|e] w1] eqn:Es;
      apply save_writes in Es as (Hc1 & Hr1 & He1 & Ha1).
    + destruct (logTransition _ _ _ _ _ _ _ _ w1) as [[[]|e] w2] eqn:El;
        apply logTransition_writes in El as (Hc2 & Hr2 & He2 & Ha2);
        inversion E; subst; unfold writesOnly;
        rewrite Hc2, Hr2, He2, Ha2; destruct Hid; split_and!; auto.
    + inversion E; subst. unfold writesOnly. destruct Hid. split_and!; auto.
  - inversion E; subst. unfold writesOnly. auto 10.
Qed.

(** The course of one call, transition by transition. *)
Lemma processAlert_course alert w result alert' w' :
  processAlert alert w = (Normal (result, alert'), w') ->
  (exists e,
      evaluateAlert alert w = (Throw e, w')
      /\ result = failed e /\ alert' = alert)
  \/ (exists ev w1 s1 s2,
        evaluateAlert alert w = (Normal ev, w1)
        /\ took s1 = shouldEscalate ev && Status_eqb (Alert.status alert) OPEN
        /\ let a1 := if took s1
                     then Alert.escalate (clock w) (reason ev) alert
                     else alert in
           match s1 with
           | Threw _ => s2 = Skipped
           | _ => took s2 = shouldAutoClose ev && active a1
           end
           /\ alert' = (if took s2
                        then Alert.autoClose (clock w) (reason ev) a1
                        else a1)
           /\ (took s1 || took s2 = false -> w' = w1)
           /\ historyDocs w'
              = (historyDocs w
                 ++ (if logged s1
                     then [transitionEntry ev alert OPEN ESCALATED (clock w)]
                     else [])
                 ++ (if logged s2
                     then [transitionEntry ev alert (Alert.status a1)
                             AUTO_CLOSED (clock w)]
                     else []))%list
           /\ result
              = match s1, s2 with
                | Threw e, _ | _, Threw e => failed e
                | _, _ => {| success := true; modified := took s1 || took s2;
                             evaluation := Some ev; error := None |}
                end).
Proof.
  intros E. rewrite processAlert_unfold in E.
  destruct (evaluateAlert alert w) as [[ev|e0] w1] eqn:Ee;
    [|inversion E; subst; left; eauto].
  right. pose proof (readOnly_evaluateAlert alert _ _ _ Ee) as Hst.
  injection Hst as _ Hh0 _ Hk0.
  exists ev, w1.
  destruct (escalateByRule ev false (alert, w1)) as [c1 [a1 w2]] eqn:E1.
  pose proof (escalateByRule_writes _ _ _ _ _ _ _ E1) as (Hid1 & Haid1 & _).
  apply escalateByRule_spec in E1
    as (Hk1 & [(Hg1 & -> & -> & ->)|(Hes & Ho & -> & [(-> & Hh1 & _)|(e1 & -> & Hh1)])]);
    rewrite ?Hk0 in *.
  - (* escalation skipped *)
    destruct (autoCloseByRule ev false (alert, w1)) as [c2 [a2 w3]] eqn:E2.
    apply autoCloseByRule_spec in E2
      as (Hk2 & [(Hg2 & -> & -> & ->)|(Hac & Hs & -> & _ & [(-> & Hh2 & _)|(e2 & -> & Hh2)])]);
      rewrite ?Hk0 in *; inversion E; subst; clear E.
    + exists Skipped, Skipped. cbn. unfold active.
      rewrite Hg1, Hg2, Hh0, app_nil_r. split_and!; try reflexivity; discriminate.
    + exists Skipped, Done. cbn. unfold active.
      assert (Hact : Status_eqb (Alert.status alert) OPEN
                     || Status_eqb (Alert.status alert) ESCALATED = true)
        by (destruct Hs as [-> | ->]; reflexivity).
      rewrite Hg1, Hac, Hact, Hh2, Hh0. split_and!; try reflexivity; discriminate.
    + exists Skipped, (Threw e2). cbn. unfold active.
      assert (Hact : Status_eqb (Alert.status alert) OPEN
                     || Status_eqb (Alert.status alert) ESCALATED = true)
        by (destruct Hs as [-> | ->]; reflexivity).
      rewrite Hg1, Hac, Hact, Hh2, Hh0, app_nil_r. split_and!; try reflexivity; discriminate.
  - (* escalation done *)
    assert (Hst1 : Alert.status (Alert.escalate (clock w) (reason ev) alert) = ESCALATED)
      by (unfold Alert.escalate; rewrite Ho; reflexivity).
    destruct (autoCloseByRule ev true (Alert.escalate (clock w) (reason ev) alert, w2))
      as [c2 [a2 w3]] eqn:E2.
    apply autoCloseByRule_spec in E2
      as (Hk2 & [(Hg2 & -> & -> & ->)|(Hac & Hs & -> & _ & [(-> & Hh2 & _)|(e2 & -> & Hh2)])]);
      rewrite ?Hk1 in *; inversion E; subst; clear E.
    + exists Done, Skipped. cbn. unfold active.
      rewrite Hes, Ho. cbn. rewrite Hg2, Hh1, Hh0.
      split_and!; try reflexivity; discriminate.
    + exists Done, Done. cbn. unfold active.
      rewrite Hes, Ho. cbn. rewrite Hst1, Hac. cbn.
      rewrite Hh2, Hh1, Hh0, Hst1, <- app_assoc.
      rewrite (transitionEntry_same_document ev alert _ _ _ _ Haid1 Hid1).
      split_and!; try reflexivity; discriminate.
    + exists Done, (Threw e2). cbn. unfold active.
      rewrite Hes, Ho. cbn. rewrite Hst1, Hac. cbn.
      rewrite Hh2, Hh1, Hh0. split_and!; try reflexivity; discriminate.
  - (* escalation threw *)
    inversion E; subst. exists (Threw e1), Skipped. cbn.
    rewrite Hes, Ho. cbn. rewrite Hh1, Hh0, app_nil_r. split_and!; try reflexivity; discriminate.
Qed.

Lemma active_true a :
  active a = true -> Alert.status a = OPEN \/ Alert.status a = ESCALATED.
Proof. unfold active. destruct (Alert.status a); cbn; auto; discriminate. Qed.

(** X8: the engine's entries in the history.  Whatever the store does, one
    call of [processAlert] only appends to the history, at most two
    entries; each is written in the name of RULE_ENGINE, without a user,
    for the alert processed and at the time of the call, and records one
    of OPEN -> ESCALATED, OPEN -> AUTO_CLOSED, ESCALATED -> AUTO_CLOSED: the
    engine logs no transition into RESOLVED or OPEN. *)
Theorem engine_history_discipline (alert : Alert.t) (w : World)
    (result : ProcessResult) (alert' : Alert.t) (w' : World) :
  processAlert alert w = (Normal (result, alert'), w') ->
  historyDocs w' = (historyDocs w ++ appended w w')%list
  /\ (length (appended w w') <= 2)%nat
  /\ forall e, e ∈ appended w w' ->
       AlertHistory.triggeredBy e = RULE_ENGINE
       /\ AlertHistory.userId e = None
       /\ AlertHistory.alertId e = Alert.alertId alert
       /\ AlertHistory.alert e = Alert._id alert
       /\ AlertHistory.timestamp e = clock w
       /\ (records OPEN ESCALATED e || records OPEN AUTO_CLOSED e
           || records ESCALATED AUTO_CLOSED e = true).
Proof.
  intros E. apply processAlert_course in E
    as [(e & Ee & _ & _)|(ev & w1 & s1 & s2 & Ee & Ht1 & Ht2 & _ & _ & Hh & _)].
  - pose proof (readOnly_evaluateAlert alert _ _ _ Ee) as Hst.
    injection Hst as _ Hh _ _. rewrite (appended_same w w' Hh), app_nil_r.
    split_and!; [exact Hh|cbn; lia|]. intros e' He'. inversion He'.
  - rewrite (appended_app w w' _ Hh). split; [exact Hh|].
    assert (Hfrom : logged s2 = true ->
              Alert.status (if took s1
                            then Alert.escalate (clock w) (reason ev) alert
                            else alert) = OPEN
              \/ Alert.status (if took s1
                               then Alert.escalate (clock w) (reason ev) alert
                               else alert) = ESCALATED).
    { intros Hl. destruct s2; try discriminate.
      destruct s1; try discriminate; cbn [took] in Ht2 |- *;
        symmetry in Ht2; apply andb_true_iff in Ht2 as [_ Ha];
        apply active_true in Ha; exact Ha. }
    split.
    + destruct (logged s1), (logged s2); cbn; lia.
    + intros e He.
      destruct (logged s1), (logged s2); cbn in He;
        repeat (apply elem_of_cons in He as [->|He]); try (inversion He; fail);
        cbn; split_and!; try reflexivity;
        try (destruct (Hfrom eq_refl) as [-> | ->]; reflexivity).
Qed.

Ltac accounted :=
  split_and!;
  try (split; intros);
  try reflexivity; try discriminate; try congruence; auto.

(** X9: on success the result, the alert and the history agree.
    [modified] is true exactly when the status of the alert has changed;
    the entries appended lead from the status before the call to the
    status after it, one entry for each change; and a call that modified
    nothing has left the alert and the collections as they were. *)
Theorem success_accounts_for_every_change (alert : Alert.t) (w : World)
    (result : ProcessResult) (alert' : Alert.t) (w' : World) :
  processAlert alert w = (Normal (result, alert'), w') ->
  success result = true ->
  (modified result = true <-> Alert.status alert' <> Alert.status alert)
  /\ leads (Alert.status alert) (appended w w') (Alert.status alert')
  /\ (modified result = false -> alert' = alert /\ stores w' = stores w).
Proof.
  intros E Hok. apply processAlert_course in E
    as [(e & _ & -> & _)|(ev & w1 & s1 & s2 & Ee & Ht1 & Ht2 & -> & Hsame & Hh & ->)];
    [discriminate|].
  rewrite (appended_app w w' _ Hh).
  pose proof (readOnly_evaluateAlert alert _ _ _ Ee) as Hst.
  destruct s1 as [| |e1], s2 as [| |e2]; try discriminate; cbn in *;
    symmetry in Ht1, Ht2.
  - split_and!; [split; [intros Hx; discriminate Hx|intros Hx; congruence]|reflexivity|].
    intros _. rewrite (Hsame eq_refl). auto.
  - apply andb_true_iff in Ht2 as [_ Ha]. unfold active in Ha.
    unfold Alert.autoClose. rewrite Ha. cbn.
    destruct (Alert.status alert); try discriminate; accounted.
  - apply andb_true_iff in Ht1 as [_ Ho]. unfold Alert.escalate. rewrite Ho. cbn.
    destruct (Alert.status alert); try discriminate; accounted.
  - apply andb_true_iff in Ht1 as [_ Ho].
    unfold Alert.autoClose, Alert.escalate. rewrite Ho. cbn.
    destruct (Alert.status alert); try discriminate; accounted.
Qed.

(** X10: the engine moves an alert forward only.  Whatever the store
    does, after [processAlert] the status of the alert in memory is the
    one before the call or a later one of OPEN < ESCALATED < closed; it is
    RESOLVED only if it was, and an alert still OPEN is unchanged. *)
Theorem engine_never_moves_back (alert : Alert.t) (w : World)
    (result : ProcessResult) (alert' : Alert.t) (w' : World) :
  processAlert alert w = (Normal (result, alert'), w') ->
  (rank (Alert.status alert) <= rank (Alert.status alert'))%nat
  /\ (Alert.status alert' = RESOLVED -> Alert.status alert = RESOLVED)
  /\ (Alert.status alert' = OPEN -> alert' = alert)
  /\ Alert._id alert' = Alert._id alert
  /\ Alert.timestamp alert' = Alert.timestamp alert
  /\ Alert.metadata alert' = Alert.metadata alert.
Proof.
  intros E. apply processAlert_course in E
    as [(e & _ & _ & ->)|(ev & w1 & s1 & s2 & _ & _ & _ & -> & _)].
  - split_and!; auto.
  - unfold Alert.autoClose, Alert.escalate.
    destruct (took s1), (took s2), (Alert.status alert) eqn:Es; cbn;
      rewrite ?Es; cbn; split_and!; rewrite ?Es; cbn; auto; try lia;
      try (intros Hx; try discriminate Hx; congruence).
Qed.

(** X11: nothing is rolled back.  When the store rejects the [save] of an
    escalation, the alert in memory is ESCALATED while its stored copy and
    the history are as before; when the [save] is accepted and the history
    write is rejected, the stored copy is ESCALATED and no entry records
    it; when the alert has no stored document, [save] throws and nothing
    is written.  In all three cases [processAlert] reports a failure and
    does not attempt the auto-close. *)
Theorem failed_write_is_not_rolled_back (alert : Alert.t) (w : World)
    (ev : Evaluation) (w1 : World) (fs : list bool) :
  Alert.status alert = OPEN ->
  evaluateAlert alert w = (Normal ev, w1) ->
  shouldEscalate ev = true ->
  let escalated := Alert.escalate (clock w) (reason ev) alert in
  (faults w1 = true :: fs ->
     exists w',
       processAlert alert w
       = (Normal (failed "store operation failed", escalated), w')
       /\ alertDocs w' = alertDocs w /\ historyDocs w' = historyDocs w)
  /\ (faults w1 = false :: true :: fs -> stored alert w ->
      exists w',
        processAlert alert w
        = (Normal (failed "store operation failed", escalated), w')
        /\ alertDocs w' = replaceDocument escalated (alertDocs w)
        /\ historyDocs w' = historyDocs w)
  /\ (faults w1 = false :: fs -> ~ stored alert w ->
      exists w',
        processAlert alert w
        = (Normal (failed "No document found for query", escalated), w')
        /\ alertDocs w' = alertDocs w /\ historyDocs w' = historyDocs w).
Proof.
  intros Ho E Hes escalated.
  pose proof (readOnly_evaluateAlert alert _ _ _ E) as Hst.
  injection Hst as Ha Hh _ Hk.
  assert (Hid : existsb (sameDocument escalated) (alertDocs w1)
                = existsb (sameDocument alert) (alertDocs w)).
  { rewrite Ha, !stored_by_id. subst escalated. unfold Alert.escalate.
    rewrite Ho. reflexivity. }
  split_and!; intros Hf; [|intros Hs|intros Hs];
    rewrite processAlert_unfold, E;
    unfold escalateByRule, save, logTransition;
    cbv beta iota zeta delta
      [bind this gets inWorld call modify ret throw DateNow storeCall fst snd];
    rewrite Hes, Ho; cbn [Status_eqb andb]; rewrite Hf, Hk; fold escalated;
    cbn [alertDocs set_faults faults].
  - eexists. split; [reflexivity|]. cbn. auto.
  - unfold stored in Hs. rewrite Hid, Hs. cbn.
    eexists. split; [reflexivity|]. cbn. split; congruence.
  - unfold stored in Hs. rewrite Hid.
    destruct (existsb (sameDocument alert) (alertDocs w)); [congruence|].
    eexists. split; [reflexivity|]. cbn. auto.
Qed.

(** *** Batches *)

Lemma processBatch_loop_app l1 l2 :
  forall results w,
    processBatch_loop results (l1 ++ l2) w =
    match processBatch_loop results l1 w with
    | (Normal (r1, l1'), w1) =>
        match processBatch_loop r1 l2 w1 with
        | (Normal (r2, l2'), w2) => (Normal (r2, (l1' ++ l2')%list), w2)
        | (Throw e, w2) => (Throw e, w2)
        end
    | (Throw e, w1) => (Throw e, w1)
    end.
Proof.
  induction l1 as [|a l1 IH]; intros results w.
  - cbn. destruct (processBatch_loop results l2 w) as [[[r2 l2']|e] w2]; reflexivity.
  - cbn [app processBatch_loop]. unfold bind at 1 3.
    destruct (processBatch_step results a w) as [[[r a']|e] w0]; [|reflexivity].
    unfold bind at 1 2. rewrite IH.
    destruct (processBatch_loop r l1 w0) as [[[r1 l1']|e] w1]; [|reflexivity].
    unfold ret.
    destruct (processBatch_loop r1 l2 w1) as [[[r2 l2']|e] w2]; reflexivity.
Qed.

Lemma processBatch_loop_final l :
  forall r w r' l' w',
    processBatch_loop r l w = (Normal (r', l'), w') -> w' = afterBatch l w.
Proof.
  induction l as [|a l IH]; intros r w r' l' w' E.
  - cbn in E. inversion E. reflexivity.
  - cbn [processBatch_loop afterBatch] in *. unfold bind at 1 in E.
    destruct (processBatch_step_spec r a w)
      as (result & a' & w0 & Ep & rs & Es & _).
    rewrite Es in E. rewrite Ep. cbn [snd]. unfold bind at 1 in E.
    destruct (processBatch_loop rs l w0) as [[[r1 l1]|e] w1] eqn:El; [|discriminate].
    inversion E; subst. eapply IH; eauto.
Qed.

(** X12: a batch can be split.  Processing [l1 ++ l2] is processing [l1]
    and then [l2] in the state that [l1] left: the alerts returned are the
    two lists of alerts returned, the final state is the same, and each
    counter is the sum of the two counters. *)
Theorem processBatch_splits (l1 l2 : list Alert.t) (w : World) :
  exists r1 l1' w1 r2 l2' w2 r,
    processBatch l1 w = (Normal (r1, l1'), w1)
    /\ processBatch l2 w1 = (Normal (r2, l2'), w2)
    /\ processBatch (l1 ++ l2) w = (Normal (r, (l1' ++ l2')%list), w2)
    /\ processed r = (processed r1 + processed r2)%nat
    /\ escalated r = (escalated r1 + escalated r2)%nat
    /\ autoClosed r = (autoClosed r1 + autoClosed r2)%nat
    /\ errors r = (errors r1 + errors r2)%nat.
Proof.
  set (zero := {| processed := 0; escalated := 0; autoClosed := 0; errors := 0 |}).
  destruct (processBatch_loop_spec l1 zero w)
    as (r1 & w1 & E1 & _ & Hp1 & He1 & Hx1 & Hc1).
  destruct (processBatch_loop_spec l2 zero w1)
    as (r2 & w2 & E2 & _ & Hp2 & He2 & Hx2 & Hc2).
  destruct (processBatch_loop_spec l2 r1 w1)
    as (r & w2' & E3 & _ & Hp3 & He3 & Hx3 & Hc3).
  assert (w2' = w2) as ->.
  { rewrite (processBatch_loop_final _ _ _ _ _ _ E3).
    rewrite (processBatch_loop_final _ _ _ _ _ _ E2). reflexivity. }
  exists r1, (map snd (outcomes l1 w)), w1, r2, (map snd (outcomes l2 w1)), w2, r.
  unfold processBatch. fold zero. rewrite processBatch_loop_app, E1, E3.
  cbn in Hp1, He1, Hx1, Hc1, Hp2, He2, Hx2, Hc2.
  split_and!; auto; lia.
Qed.

Lemma howMany_left_le (l : list (ProcessResult * Alert.t)) :
  (howMany (leftIn ESCALATED) l + howMany (leftIn AUTO_CLOSED) l
   <= howMany succeeded l)%nat.
Proof.
  unfold howMany, leftIn, succeeded.
  induction l as [|o l IH]; cbn; [lia|].
  destruct (success (fst o)), (modified (fst o)), (Alert.status (snd o)); cbn; lia.
Qed.

Lemma outcomes_forward alerts :
  forall w,
    Forall2 (fun a o => Alert._id (snd o) = Alert._id a
                        /\ (rank (Alert.status a) <= rank (Alert.status (snd o)))%nat)
      alerts (outcomes alerts w).
Proof.
  induction alerts as [|a alerts IH]; intros w; cbn; [constructor|].
  destruct (processAlert_total a w) as (result & a' & w' & E). rewrite E.
  constructor; [|apply IH]. cbn.
  apply processAlert_course in E
    as [(e & _ & _ & ->)|(ev & w1 & s1 & s2 & _ & _ & _ & -> & _)]; [auto|].
  unfold Alert.autoClose, Alert.escalate.
  destruct (took s1), (took s2), (Alert.status a) eqn:Es; cbn;
    rewrite ?Es; cbn; split; rewrite ?Es; cbn; auto; lia.
Qed.

(** X13: what [processBatch] returns is consistent.  [escalated] and
    [autoClosed] count different alerts among the processed ones, so
    [escalated + autoClosed <= processed <= length]; the list of alerts
    after the batch has the alerts of the batch, in order, each with the
    status it had or a later one. *)
Theorem processBatch_results_consistent (alerts : list Alert.t) (w : World)
    (r : BatchResults) (alerts' : list Alert.t) (w' : World) :
  processBatch alerts w = (Normal (r, alerts'), w') ->
  (escalated r + autoClosed r <= processed r)%nat
  /\ (processed r <= length alerts)%nat
  /\ Forall2 (fun a a' => Alert._id a' = Alert._id a
                          /\ (rank (Alert.status a) <= rank (Alert.status a'))%nat)
       alerts alerts'.
Proof.
  intros E.
  destruct (processBatch_loop_spec alerts
              {| processed := 0; escalated := 0; autoClosed := 0; errors := 0 |} w)
    as (r0 & w0 & E0 & Hlen & Hp & He & Hx & Hc).
  unfold processBatch in E. rewrite E0 in E. inversion E; subst. cbn in *.
  pose proof (howMany_left_le (outcomes alerts w)).
  pose proof (howMany_split (outcomes alerts w)).
  split_and!; try lia.
  apply Forall2_fmap_r. apply outcomes_forward.
Qed.

(** *** What the engine writes to the alert collection *)

Lemma untouchedBut_refl ids docs : untouchedBut ids docs docs.
Proof. split; auto. Qed.

Lemma untouchedBut_trans ids1 ids2 d0 d1 d2 :
  untouchedBut ids1 d0 d1 -> untouchedBut ids2 d1 d2 ->
  untouchedBut (ids1 ++ ids2) d0 d2.
Proof.
  intros [Hm1 Hu1] [Hm2 Hu2]. split; [congruence|].
  intros i d Hd Hn. apply Hu2; [apply Hu1; [exact Hd|]|];
    intros Hin; apply Hn, elem_of_app; auto.
Qed.

Lemma untouchedBut_replace a docs :
  untouchedBut [Alert._id a] docs (replaceDocument a docs).
Proof.
  split; [apply replaceDocument_ids|].
  intros i d Hd Hn. unfold replaceDocument. rewrite list_lookup_fmap, Hd. cbn.
  unfold sameDocument. destruct (String.eqb _ _) eqn:E; [|reflexivity].
  apply String.eqb_eq in E. exfalso. apply Hn. rewrite E. left.
Qed.

Lemma untouchedBut_writes id a' w w' :
  Alert._id a' = id -> writesOnly a' w w' ->
  untouchedBut [id] (alertDocs w) (alertDocs w').
Proof.
  intros <- (_ & _ & _ & [-> | ->]);
    [apply untouchedBut_refl|apply untouchedBut_replace].
Qed.

Lemma untouchedBut_same_id id d0 d1 d2 :
  untouchedBut [id] d0 d1 -> untouchedBut [id] d1 d2 -> untouchedBut [id] d0 d2.
Proof.
  intros [Hm1 Hu1] [Hm2 Hu2]. split; [congruence|]. auto.
Qed.

Lemma processAlert_footprint alert w result alert' w' :
  processAlert alert w = (Normal (result, alert'), w') ->
  untouchedBut [Alert._id alert] (alertDocs w) (alertDocs w')
  /\ ruleDocs w' = ruleDocs w /\ clock w' = clock w.
Proof.
  intros E. rewrite processAlert_unfold in E.
  destruct (evaluateAlert alert w) as [[ev|e0] w1] eqn:Ee;
    pose proof (readOnly_evaluateAlert alert _ _ _ Ee) as Hst;
    injection Hst as Ha0 _ Hr0 Hk0;
    [|inversion E; subst; rewrite Ha0; split_and!; auto; apply untouchedBut_refl].
  destruct (escalateByRule ev false (alert, w1)) as [c1 [a1 w2]] eqn:E1.
  apply escalateByRule_writes in E1 as (Hid1 & _ & Hw1).
  pose proof (untouchedBut_writes _ _ _ _ Hid1 Hw1) as Hu1.
  destruct Hw1 as (Hk1 & Hr1 & _).
  rewrite Ha0 in Hu1.
  destruct c1 as [m1|e1];
    [|inversion E; subst; split_and!; auto; congruence].
  destruct (autoCloseByRule ev m1 (a1, w2)) as [c2 [a2 w3]] eqn:E2.
  apply autoCloseByRule_writes in E2 as (Hid2 & _ & Hw2).
  rewrite Hid1 in Hid2.
  pose proof (untouchedBut_writes _ _ _ _ Hid2 Hw2) as Hu2.
  destruct Hw2 as (Hk2 & Hr2 & _).
  destruct c2; inversion E; subst;
    (split_and!; [eapply untouchedBut_same_id; eauto|congruence..]).
Qed.

Lemma outcomes_ids alerts :
  forall w, map (fun o => Alert._id (snd o)) (outcomes alerts w)
            = map Alert._id alerts.
Proof.
  induction alerts as [|a alerts IH]; intros w; cbn; [reflexivity|].
  destruct (processAlert_total a w) as (result & a' & w' & E). rewrite E. cbn.
  rewrite IH. f_equal.
  apply processAlert_course in E
    as [(e & _ & _ & ->)|(ev & w1 & s1 & s2 & _ & _ & _ & -> & _)]; [auto|].
  unfold Alert.autoClose, Alert.escalate.
  destruct (took s1), (took s2); cbn;
    repeat match goal with
      | |- context [if ?b then _ else _] => destruct b; cbn
      end; reflexivity.
Qed.

Lemma afterBatch_footprint alerts :
  forall w,
    untouchedBut (map Alert._id alerts) (alertDocs w) (alertDocs (afterBatch alerts w))
    /\ ruleDocs (afterBatch alerts w) = ruleDocs w
    /\ clock (afterBatch alerts w) = clock w.
Proof.
  induction alerts as [|a alerts IH]; intros w; cbn [afterBatch map].
  - split_and!; auto. apply untouchedBut_refl.
  - destruct (processAlert_total a w) as (result & a' & w1 & E). rewrite E. cbn [snd].
    destruct (processAlert_footprint _ _ _ _ _ E) as (Hu1 & Hr1 & Hk1).
    destruct (IH w1) as (Hu & Hr & Hk).
    split_and!; [|congruence..].
    change (Alert._id a :: map Alert._id alerts)
      with ([Alert._id a] ++ map Alert._id alerts)%list.
    eapply untouchedBut_trans; eauto.
Qed.

(** X14: a batch writes to the stored copies of its own alerts only.
    [processBatch] adds no alert to the collection and removes none; a
    stored alert whose [_id] is not the [_id] of an alert of the batch is,
    after the batch, exactly as it was, whatever the store rejected on the
    way; the rule collection and the clock are not written. *)
Theorem processBatch_footprint (alerts : list Alert.t) (w : World)
    (r : BatchResults) (alerts' : list Alert.t) (w' : World) :
  processBatch alerts w = (Normal (r, alerts'), w') ->
  map Alert._id (alertDocs w') = map Alert._id (alertDocs w)
  /\ (forall i d, alertDocs w !! i = Some d ->
        Alert._id d ∉ map Alert._id alerts ->
        alertDocs w' !! i = Some d)
  /\ ruleDocs w' = ruleDocs w
  /\ map Alert._id alerts' = map Alert._id alerts.
Proof.
  intros E. unfold processBatch in E.
  pose proof (processBatch_loop_final _ _ _ _ _ _ E) as ->.
  destruct (afterBatch_footprint alerts w) as ([Hm Hu] & Hr & _).
  destruct (processBatch_loop_spec alerts
              {| processed := 0; escalated := 0; autoClosed := 0; errors := 0 |} w)
    as (r0 & w0 & E0 & _).
  rewrite E0 in E. inversion E; subst.
  split_and!; auto.
  rewrite <- (outcomes_ids alerts w), map_map. reflexivity.
Qed.

(** *** The model methods that the engine does not call *)

(** X15: on a rule that does not count, [Rule.evaluate] reads the name in
    [auto_close_if] as the key of a metadata flag that must be exactly
    [true].  It therefore agrees with [evaluateCloseCondition] of the
    engine on every condition name outside the engine's catalogue, and
    only there is it bound to: for a catalogue name it still reads the
    flag of that very name. *)
Theorem rule_evaluate_reads_plain_flags (now : Z) (r : Rule.t)
    (d : AlertData.t) (md : gmap string JS.Value) (c : string) :
  Rule.enabled r = true ->
  counts r = false ->
  Rule.auto_close_if (Rule.conditions r) = Some c ->
  c <> "" ->
  AlertData.metadata d = Some md ->
  Rule_evaluate r d = JS.strict_eq_true (JS.get md c)
  /\ (c ∉ ["document_valid"; "speed_normalized"; "feedback_improved"] ->
      Rule_evaluate r d = JS.ToBoolean (evaluateCloseCondition now c md)).
Proof.
  intros He Hc Ha Hne Hmd. unfold counts in Hc.
  assert (E : Rule_evaluate r d = JS.strict_eq_true (JS.get md c)).
  { unfold Rule_evaluate, metadataFlag. rewrite He, Hc, Ha, Hmd. cbn.
    apply String.eqb_neq in Hne. rewrite Hne. reflexivity. }
  split; [exact E|].
  intros Hout. rewrite E. unfold evaluateCloseCondition.
  repeat match goal with
    | |- context [String.eqb c ?s] =>
        destruct (String.eqb_spec c s) as [->|_];
        [exfalso; apply Hout; set_solver|]
    end.
  reflexivity.
Qed.

(** X16: the [ageInHours] of an alert and the age check of the engine
    measure the same age: for a rule whose [auto_close_after_mins] is a
    whole number [k] of hours, the time-based check fires exactly when
    [ageInHours] is at least [k]. *)
Theorem ageInHours_agrees_with_age_check (now : Z) (r : Rule.t) (a : Alert.t)
    (k : Z) :
  Rule.auto_close_after_mins (Rule.conditions r) = Some (60 * k) ->
  k <> 0 ->
  agedOut now r a = (k <=? ageInHours now a).
Proof.
  intros Hm Hk. unfold agedOut, ageInHours, minutesSince. rewrite Hm. cbn [default specified].
  assert (E : (60 * k =? 0) = false) by (apply Z.eqb_neq; lia).
  rewrite E. cbn [negb andb].
  set (d := now - Alert.timestamp a).
  apply eq_true_iff_eq. rewrite Qle_bool_iff, Z.leb_le.
  change (1000 * 60 * 60) with 3600000. change (1000 * 60) with 60000.
  unfold Qle, Qdiv, Qmult, Qinv, inject_Z. cbn.
  split; intros Hle.
  - apply Z.div_le_lower_bound; lia.
  - assert (Hd := Z.mul_div_le d 3600000 ltac:(lia)). nia.
Qed.

Lemma statusIn_active a :
  statusIn (Alert.status a) [OPEN; ESCALATED] = active a.
Proof. unfold statusIn, active. cbn. now rewrite orb_false_r. Qed.

Lemma insertByTimestamp_perm a l : insertByTimestamp a l ≡ₚ a :: l.
Proof.
  induction l as [|x l IH]; cbn; [reflexivity|].
  destruct (Alert.timestamp a <=? Alert.timestamp x); [reflexivity|].
  rewrite IH. apply Permutation_swap.
Qed.

Lemma sortByTimestampAsc_perm l : sortByTimestampAsc l ≡ₚ l.
Proof.
  induction l as [|a l IH]; cbn; [reflexivity|].
  rewrite insertByTimestamp_perm. now rewrite IH.
Qed.

Lemma insertByTimestamp_ascending a l :
  timestampAscending l -> timestampAscending (insertByTimestamp a l).
Proof.
  induction l as [|x l IH]; cbn; intros Hs.
  - split; [|exact I]. intros b Hb. inversion Hb.
  - destruct Hs as [Hx Hs].
    destruct (Alert.timestamp a <=? Alert.timestamp x) eqn:E.
    + apply Z.leb_le in E. cbn. split_and!; auto.
      intros b Hb. apply elem_of_cons in Hb as [->|Hb]; [exact E|].
      specialize (Hx b Hb). lia.
    + apply Z.leb_gt in E. cbn. split; [|auto].
      intros b Hb. rewrite insertByTimestamp_perm in Hb.
      apply elem_of_cons in Hb as [->|Hb]; [lia|auto].
Qed.

Lemma sortByTimestampAsc_ascending l : timestampAscending (sortByTimestampAsc l).
Proof.
  induction l as [|a l IH]; cbn; [exact I|].
  now apply insertByTimestamp_ascending.
Qed.

(** X17: [Alert.getNeedingEvaluation] answers with the stored alerts that
    are OPEN or ESCALATED and whose [expiresAt] is later than now, each
    once, oldest first, and writes nothing.  An alert stored without
    [expiresAt] is never among them, although the queries of the two
    background jobs select it. *)
Theorem getNeedingEvaluation_selects (w : World) (l : list Alert.t) (w' : World) :
  Alert_getNeedingEvaluation w = (Normal l, w') ->
  timestampAscending l
  /\ l ≡ₚ (List.filter (fun d => active d && expiresAfter (clock w) d)
             (alertDocs w))
  /\ (forall d, d ∈ l ->
        d ∈ alertDocs w /\ active d = true
        /\ (exists e, Alert.expiresAt d = Some e /\ clock w < e)
        /\ unexpired (clock w) d = true)
  /\ (forall d, d ∈ alertDocs w -> (active d = true) ->
        Alert.expiresAt d = None -> (d ∉ l) /\ unexpired (clock w) d = true)
  /\ stores w' = stores w.
Proof.
  unfold Alert_getNeedingEvaluation.
  cbv beta iota zeta delta [bind gets ret DateNow storeCall]. intros E.
  assert (Hl : l = sortByTimestampAsc
                 (List.filter (fun d => active d && expiresAfter (clock w) d)
                    (alertDocs w))
               /\ stores w' = stores w).
  { destruct (faults w) as [|[] fs]; inversion E; subst;
      unfold set_faults; cbn [alertDocs];
      (split; [|reflexivity]); f_equal; apply List.filter_ext;
      intros d; rewrite <- statusIn_active; reflexivity. }
  destruct Hl as [-> Hs].
  assert (Hin : forall d,
             d ∈ sortByTimestampAsc
                   (List.filter (fun d => active d && expiresAfter (clock w) d)
                      (alertDocs w))
             <-> d ∈ alertDocs w /\ active d = true
                 /\ expiresAfter (clock w) d = true).
  { intros d. rewrite sortByTimestampAsc_perm, list_elem_of_In, List.filter_In,
      andb_true_iff, <- list_elem_of_In. tauto. }
  split_and!; auto.
  - apply sortByTimestampAsc_ascending.
  - apply sortByTimestampAsc_perm.
  - intros d Hd. apply Hin in Hd as (Hd & Ha & He). split_and!; auto.
    + unfold expiresAfter in He. destruct (Alert.expiresAt d) as [e|]; [|discriminate].
      exists e. split; [reflexivity|]. now apply Z.ltb_lt.
    + unfold unexpired. rewrite He. apply orb_true_r.
  - intros d Hd Ha He. split.
    + intros Hx. apply Hin in Hx as (_ & _ & Hx). unfold expiresAfter in Hx.
      rewrite He in Hx. discriminate.
    + unfold unexpired, neverExpires. now rewrite He.
Qed.

(** *** The background jobs *)

Lemma processBatch_run alerts w :
  exists r alerts',
    processBatch alerts w = (Normal (r, alerts'), afterBatch alerts w).
Proof.
  destruct (processBatch_loop_spec alerts
              {| processed := 0; escalated := 0; autoClosed := 0; errors := 0 |} w)
    as (r0 & w0 & E0 & _).
  pose proof (processBatch_loop_final _ _ _ _ _ _ E0) as ->.
  unfold processBatch. eauto.
Qed.

Lemma processAlert_engine alert w result alert' w' :
  initialized w = true ->
  processAlert alert w = (Normal (result, alert'), w') ->
  engine w' = engine w.
Proof.
  intros Hi E. rewrite processAlert_unfold in E.
  destruct (evaluateAlert alert w) as [[ev|e0] w1] eqn:Ee;
    apply (evaluateAlert_keeps_engine _ _ _ _ Hi) in Ee as [He0 _];
    [|inversion E; subst; exact He0].
  destruct (escalateByRule ev false (alert, w1)) as [c1 [a1 w2]] eqn:E1.
  apply escalateByRule_writes in E1 as (_ & _ & _ & _ & He1 & _).
  destruct c1 as [m1|e1]; [|inversion E; subst; congruence].
  destruct (autoCloseByRule ev m1 (a1, w2)) as [c2 [a2 w3]] eqn:E2.
  apply autoCloseByRule_writes in E2 as (_ & _ & _ & _ & He2 & _).
  destruct c2; inversion E; subst; congruence.
Qed.

Lemma afterBatch_engine alerts :
  forall w, initialized w = true -> engine (afterBatch alerts w) = engine w.
Proof.
  induction alerts as [|a alerts IH]; intros w Hi; cbn [afterBatch]; [reflexivity|].
  destruct (processAlert_total a w) as (result & a' & w1 & E). rewrite E. cbn [snd].
  pose proof (processAlert_engine _ _ _ _ _ Hi E) as He.
  rewrite IH; [exact He|].
  unfold engine in He. injection He as _ Hi1 _. congruence.
Qed.

Lemma afterBatch_history alerts :
  forall w,
    exists l,
      historyDocs (afterBatch alerts w) = (historyDocs w ++ l)%list
      /\ Forall (fun e => AlertHistory.triggeredBy e = RULE_ENGINE) l.
Proof.
  induction alerts as [|a alerts IH]; intros w; cbn [afterBatch].
  - exists []. rewrite app_nil_r. auto.
  - destruct (processAlert_total a w) as (result & a' & w1 & E). rewrite E. cbn [snd].
    destruct (IH w1) as (l & Hl & Hf). rewrite Hl.
    apply processAlert_course in E
      as [(e & Ee & _ & _)|(ev & w0 & s1 & s2 & _ & _ & _ & _ & _ & Hh & _)].
    + pose proof (readOnly_evaluateAlert a _ _ _ Ee) as Hst.
      injection Hst as _ Hh _ _. rewrite Hh. eauto.
    + rewrite Hh, <- !app_assoc. eexists. split; [reflexivity|].
      apply Forall_app_2; [destruct (logged s1); repeat constructor|].
      apply Forall_app_2; [destruct (logged s2); repeat constructor|exact Hf].
Qed.

Lemma elem_of_take_1 {A} (l : list A) n x : x ∈ take n l -> x ∈ l.
Proof.
  intros Hx. rewrite <- (take_drop n l). apply elem_of_app. now left.
Qed.

Lemma take_filter_nil {A} (p : A -> bool) (l : list A) n :
  take (S n) (List.filter p l) = [] <-> forall x, x ∈ l -> p x = false.
Proof.
  induction l as [|x l IH]; cbn.
  - split; [intros _ y Hy; inversion Hy|reflexivity].
  - destruct (p x) eqn:Ep; cbn.
    + split; [discriminate|]. intros Hx. specialize (Hx x ltac:(left)). congruence.
    + rewrite IH. split.
      * intros Hl y Hy. apply elem_of_cons in Hy as [->|Hy]; auto.
      * intros Hl y Hy. apply Hl. now right.
Qed.

Lemma unique_id docs d a :
  NoDup (map Alert._id docs) -> d ∈ docs -> a ∈ docs ->
  Alert._id d = Alert._id a -> d = a.
Proof.
  induction docs as [|x docs IH]; cbn; intros Hn Hd Ha Hid; [inversion Hd|].
  apply NoDup_cons in Hn as [Hx Hn].
  apply elem_of_cons in Hd as [->|Hd]; apply elem_of_cons in Ha as [->|Ha]; auto.
  - exfalso. apply Hx. rewrite Hid. apply (list_elem_of_fmap_2 Alert._id), Ha.
  - exfalso. apply Hx. rewrite <- Hid. apply (list_elem_of_fmap_2 Alert._id), Hd.
Qed.

Lemma Alert_find_active_spec w :
  exists w1,
    stores w1 = stores w /\ engine w1 = engine w
    /\ ((head (faults w) = Some true
         /\ Alert_find_active w = (Throw "store operation failed", w1))
        \/ (head (faults w) <> Some true
            /\ Alert_find_active w
               = (Normal (take 100
                            (List.filter
                               (fun d => active d && unexpired (clock w) d)
                               (alertDocs w))), w1))).
Proof.
  unfold Alert_find_active.
  cbv beta iota zeta delta [bind gets ret DateNow storeCall].
  assert (Hf : forall docs,
             List.filter (fun d => statusIn (Alert.status d) [OPEN; ESCALATED]
                                   && unexpired (clock w) d) docs
             = List.filter (fun d => active d && unexpired (clock w) d) docs).
  { intros docs. apply List.filter_ext. intros d. now rewrite statusIn_active. }
  destruct (faults w) as [|[] fs] eqn:Ef;
    [exists w|exists (set_faults fs w)..]; (split; [|split]);
    try reflexivity; cbn [head];
    first [ left; split; reflexivity
          | right; split; [discriminate|]; unfold set_faults; cbn [alertDocs];
            rewrite Hf; reflexivity ].
Qed.

Lemma Alert_find_open_spec w :
  exists w1,
    stores w1 = stores w /\ engine w1 = engine w
    /\ faults w1 = tail (faults w)
    /\ ((head (faults w) = Some true
         /\ Alert_find_open w = (Throw "store operation failed", w1))
        \/ (head (faults w) <> Some true
            /\ exists l,
                 Alert_find_open w = (Normal l, w1)
                 /\ forall a, a ∈ l ->
                      a ∈ alertDocs w /\ Alert.status a = OPEN)).
Proof.
  unfold Alert_find_open.
  cbv beta iota zeta delta [bind gets ret DateNow storeCall].
  assert (Hin : forall a,
             a ∈ take 100
                   (sortByTimestampAsc
                      (List.filter
                         (fun d => Status_eqb (Alert.status d) OPEN
                                   && unexpired (clock w) d) (alertDocs w))) ->
             a ∈ alertDocs w /\ Alert.status a = OPEN).
  { intros a Ha. apply elem_of_take_1 in Ha.
    rewrite sortByTimestampAsc_perm in Ha.
    apply list_elem_of_In, List.filter_In in Ha as [Ha Hp].
    apply andb_true_iff in Hp as [Hp _].
    split; [now apply list_elem_of_In|].
    destruct (Alert.status a); try discriminate; reflexivity. }
  destruct (faults w) as [|[] fs] eqn:Ef;
    [exists w|exists (set_faults fs w)..]; (split; [|split; [|split]]);
    try reflexivity; try (now rewrite Ef); cbn [head tail faults set_faults];
    first [ left; split; reflexivity
          | right; split; [discriminate|]; eexists; split; [reflexivity|];
            unfold set_faults; cbn [alertDocs clock]; exact Hin ].
Qed.

Lemma invalidatePattern_pages w :
  invalidatePattern "dashboard:" w = (Normal tt, w)
  /\ invalidatePattern "alerts:" w = (Normal tt, w).
Proof. split; reflexivity. Qed.

Lemma runAutoCloseJob_run stats w :
  runAutoCloseJob (stats, w) =
  match Alert_find_active w with
  | (Normal (a :: l), w1) =>
      (Normal tt, (countAutoCloseRun (clock w) stats, afterBatch (a :: l) w1))
  | (_, w1) => (Normal tt, (stats, w1))
  end.
Proof.
  destruct (Alert_find_active_spec w) as (w1 & Hs & _ & [[_ E]|[_ E]]);
    unfold runAutoCloseJob, try_catch, bind, onWorld; cbn [fst snd];
    rewrite E; [reflexivity|].
  destruct (take 100 _) as [|a l]; [reflexivity|].
  destruct (processBatch_run (a :: l) w1) as (r & al' & Eb).
  cbn [fst snd]. rewrite Eb.
  destruct (afterBatch_footprint (a :: l) w1) as (_ & _ & Hk).
  injection Hs as _ _ _ Hk1.
  unfold DateNow, gets, modify, ret. cbn [fst snd].
  rewrite (proj1 (invalidatePattern_pages _)), (proj2 (invalidatePattern_pages _)).
  rewrite Hk, Hk1. reflexivity.
Qed.

(** X18: one run of the auto-close job.  It never throws.  The run is
    counted in [autoCloseRuns], with the time of the run, exactly when the
    store answered the query and at least one stored alert is OPEN or
    ESCALATED and not expired; a run that is not counted has written
    nothing.  Whatever happens, no alert is added or removed, the rules
    are not written, the history only grows, by entries of RULE_ENGINE,
    and, alerts having distinct [_id]s, a stored alert that is closed or
    expired is left exactly as it is. *)
Theorem autoCloseJob_outcome (stats : JobStats) (w : World) :
  exists stats' w',
    runAutoCloseJob (stats, w) = (Normal tt, (stats', w'))
    /\ (stats' = countAutoCloseRun (clock w) stats
        <-> head (faults w) <> Some true
            /\ exists d, d ∈ alertDocs w /\ active d = true
                         /\ unexpired (clock w) d = true)
    /\ (stats' <> countAutoCloseRun (clock w) stats ->
        stats' = stats /\ stores w' = stores w)
    /\ map Alert._id (alertDocs w') = map Alert._id (alertDocs w)
    /\ ruleDocs w' = ruleDocs w
    /\ (exists l,
          historyDocs w' = (historyDocs w ++ l)%list
          /\ Forall (fun e => AlertHistory.triggeredBy e = RULE_ENGINE) l)
    /\ (NoDup (map Alert._id (alertDocs w)) ->
        forall i d, alertDocs w !! i = Some d ->
          active d && unexpired (clock w) d = false ->
          alertDocs w' !! i = Some d).
Proof.
  rewrite runAutoCloseJob_run.
  assert (Hne : forall n s, countAutoCloseRun n s <> s).
  { intros n s Hx. apply (f_equal autoCloseRuns) in Hx. cbn in Hx. lia. }
  destruct (Alert_find_active_spec w) as (w1 & Hs & _ & [[Hf E]|[Hf E]]); rewrite E.
  - injection Hs as Ha Hh Hr Hk.
    exists stats, w1. split_and!; auto.
    + split; [intros Hx; symmetry in Hx; now apply Hne in Hx|tauto].
    + intros _. split; [reflexivity|]. unfold stores. congruence.
    + congruence.
    + exists []. rewrite app_nil_r. auto.
    + intros _ i d Hd _. congruence.
  - set (p := fun d => active d && unexpired (clock w) d) in *.
    destruct (take 100 (List.filter p (alertDocs w))) as [|a l] eqn:Et.
    + pose proof (proj1 (take_filter_nil p (alertDocs w) 99) Et) as Hnone.
      clear Et. rename Hnone into Et.
      injection Hs as Ha Hh Hr Hk.
      exists stats, w1. split_and!; auto.
      * split; [intros Hx; symmetry in Hx; now apply Hne in Hx|].
        intros (_ & d & Hd & Hda & Hdu). specialize (Et d Hd).
        unfold p in Et. rewrite Hda, Hdu in Et. discriminate.
      * intros _. split; [reflexivity|]. unfold stores. congruence.
      * congruence.
      * exists []. rewrite app_nil_r. auto.
      * intros _ i d Hd _. congruence.
    + assert (Hsel : forall x, x ∈ a :: l -> x ∈ alertDocs w /\ p x = true).
      { intros x Hx. rewrite <- Et in Hx. apply elem_of_take_1 in Hx.
        apply list_elem_of_In, List.filter_In in Hx as [Hx Hp].
        split; [now apply list_elem_of_In|exact Hp]. }
      destruct (afterBatch_footprint (a :: l) w1) as ([Hm Hu] & Hr & _).
      destruct (afterBatch_history (a :: l) w1) as (h & Hh & Hfa).
      injection Hs as Ha1 Hh1 Hr1 Hk1.
      eexists _, _. split; [reflexivity|]. split_and!.
      * split; [intros _|reflexivity]. split; [exact Hf|].
        destruct (Hsel a ltac:(left)) as [Hin Hp]. unfold p in Hp.
        apply andb_true_iff in Hp as [? ?]. eauto.
      * intros Hx. now contradiction Hx.
      * congruence.
      * congruence.
      * exists h. split; [congruence|exact Hfa].
      * intros Hn i d Hd Hp. apply Hu; [congruence|].
        intros Hin. apply list_elem_of_fmap in Hin as (x & Hid & Hx).
        destruct (Hsel x Hx) as [Hxin Hxp].
        assert (d = x) as ->.
        { apply (unique_id (alertDocs w)); auto.
          eapply list_elem_of_lookup_2; eauto. }
        fold (p x) in Hp. congruence.
Qed.

Lemma engine_eq w w' :
  engine w' = engine w ->
  rules w' = rules w /\ initialized w' = initialized w
  /\ cachedRules w' = cachedRules w.
Proof. unfold engine. intros E. injection E as ? ? ?. auto. Qed.

Lemma reloadRules_run w :
  exists w1,
    stores w1 = stores w /\ faults w1 = tail (faults w)
    /\ ((head (faults w) = Some true
         /\ reloadRules w = (Throw "store operation failed", w1)
         /\ rules w1 = rules w /\ initialized w1 = initialized w
         /\ cachedRules w1 = None)
        \/ (head (faults w) <> Some true
            /\ reloadRules w = (Normal tt, w1)
            /\ rules w1 = indexRules (enabledRules w)
            /\ initialized w1 = true
            /\ cachedRules w1 = Some (enabledRules w))).
Proof.
  unfold reloadRules, initialize, Rule_find_enabled, enabledRules.
  unfold try_catch, bind, gets, modify, ret, throw, storeCall. cbn.
  destruct (faults w) as [|[] fs] eqn:Ef; cbn; eexists;
    (split; [|split; [|first
       [ left; split; [reflexivity|]; split; [reflexivity|]
       | right; split; [discriminate|]; split; [reflexivity|] ]]]);
    cbn; rewrite ?Ef; auto.
Qed.

(** X19: one run of the rule evaluation job.  It never throws.  When the
    store rejects the reload of the rules, the sweep is abandoned before
    any alert is read: nothing is counted or written, the engine keeps
    the index it had, and the cached rule list is gone.  When the reload
    succeeds, the engine ends the run with the index and the cached list
    of the enabled stored rules, whatever happens to the alerts.  In
    every case no alert is added or removed, the rules are not written,
    and, alerts having distinct [_id]s, a stored alert that is not OPEN
    is left exactly as it is. *)
Theorem ruleEvaluationJob_outcome (stats : JobStats) (w : World) :
  exists stats' w',
    runRuleEvaluationJob (stats, w) = (Normal tt, (stats', w'))
    /\ (head (faults w) = Some true ->
        stats' = stats /\ stores w' = stores w
        /\ faults w' = tail (faults w)
        /\ rules w' = rules w /\ initialized w' = initialized w
        /\ cachedRules w' = None)
    /\ (head (faults w) <> Some true ->
        rules w' = indexRules (enabledRules w)
        /\ initialized w' = true
        /\ cachedRules w' = Some (enabledRules w))
    /\ (stats' = stats \/ stats' = countRuleEvaluationRun (clock w) stats)
    /\ map Alert._id (alertDocs w') = map Alert._id (alertDocs w)
    /\ ruleDocs w' = ruleDocs w
    /\ (NoDup (map Alert._id (alertDocs w)) ->
        forall i d, alertDocs w !! i = Some d ->
          Alert.status d <> OPEN ->
          alertDocs w' !! i = Some d).
Proof.
  unfold runRuleEvaluationJob, try_catch, bind, onWorld. cbn [fst snd].
  destruct (reloadRules_run w)
    as (w1 & Hs1 & Hf1 & [(Hf & E & Hr & Hi & Hc)|(Hf & E & Hr & Hi & Hc)]);
    rewrite E; cbn [fst snd]; injection Hs1 as Ha1 Hh1 Hr1 Hk1.
  - exists stats, w1. split; [reflexivity|]. split_and!; auto.
    + intros _. split_and!; auto. unfold stores. congruence.
    + intros Hx. contradiction.
    + congruence.
    + intros _ i d Hd _. congruence.
  - destruct (Alert_find_open_spec w1)
      as (w2 & Hs2 & He2 & _ & [(_ & E2)|(_ & l & E2 & Hsel)]);
      rewrite E2; cbn [fst snd]; injection Hs2 as Ha2 Hh2 Hr2 Hk2;
      unfold engine in He2; injection He2 as Her Hei Hec.
    + exists stats, w2. split; [reflexivity|]. split_and!; auto.
      * intros Hx. contradiction.
      * intros _. split_and!; congruence.
      * congruence.
      * congruence.
      * intros _ i d Hd _. congruence.
    + destruct l as [|a l].
      * exists stats, w2. split; [reflexivity|]. split_and!; auto.
        -- intros Hx. contradiction.
        -- intros _. split_and!; congruence.
        -- congruence.
        -- congruence.
        -- intros _ i d Hd _. congruence.
      * destruct (processBatch_run (a :: l) w2) as (r & al' & Eb).
        cbn [fst snd]. rewrite Eb. cbn [fst snd].
        destruct (afterBatch_footprint (a :: l) w2) as ([Hm Hu] & Hrd & Hk).
        assert (Hi2 : initialized w2 = true) by congruence.
        pose proof (afterBatch_engine (a :: l) w2 Hi2) as Hen.
        apply engine_eq in Hen as (Hnr & Hni & Hnc).
        unfold DateNow, gets, modify, ret. cbn [fst snd].
        rewrite (proj1 (invalidatePattern_pages _)),
                (proj2 (invalidatePattern_pages _)).
        cbn [fst snd].
        eexists _, _. split; [reflexivity|]. split_and!.
        -- intros Hx. contradiction.
        -- intros _. split_and!; congruence.

        -- right. f_equal. congruence.
        -- congruence.
        -- congruence.
        -- intros Hn i d Hd Hst. apply Hu; [congruence|].
           intros Hin. apply list_elem_of_fmap in Hin as (x & Hid & Hx).
           destruct (Hsel x Hx) as [Hxin Hxs].
           assert (d = x) as ->.
           { apply (unique_id (alertDocs w)); auto; [|congruence].
             eapply list_elem_of_lookup_2; eauto. }
           contradiction.
Qed.

(** *** The handlers *)

Lemma found_is_stored id docs a :
  List.find (fun d => String.eqb (Alert.alertId d) id) docs = Some a ->
  forall a', Alert._id a' = Alert._id a -> existsb (sameDocument a') docs = true.
Proof.
  intros Hf a' Hid. apply List.find_some in Hf as [Hin _].
  apply existsb_exists. exists a. split; [exact Hin|].
  unfold sameDocument. rewrite Hid. apply String.eqb_refl.
Qed.

Lemma storeCall_cases w c w1 :
  storeCall w = (c, w1) ->
  stores w1 = stores w /\ engine w1 = engine w
  /\ faults w1 = tail (faults w)
  /\ (c = Normal tt \/ head (faults w) = Some true).
Proof.
  unfold storeCall. intros E.
  destruct (faults w) as [|[] fs] eqn:Ef; inversion E; subst; cbn;
    rewrite ?Ef; auto.
Qed.

Lemma resolveAlert_cases id notes user w c w' :
  resolveAlert id notes user w = (c, w') ->
  exists response,
    c = Normal response
    /\ engine w' = engine w /\ ruleDocs w' = ruleDocs w /\ clock w' = clock w
    /\ resolveAlert_effect id notes user w response w'.
Proof.
  unfold resolveAlert, try_catch, Alert_findOne, resolveAlert_effect.
  unfold bind at 1 2. unfold bind at 1.
  destruct (storeCall w) as [[[]|e0] w0] eqn:E0;
    apply storeCall_cases in E0 as (Hs0 & He0 & _);
    injection Hs0 as Ha0 Hh0 Hr0 Hk0;
    [|intros E; inversion E; subst; eexists; split; [reflexivity|];
      split_and!; auto; destruct (List.find _ _); auto].
  unfold gets at 1. unfold bind at 1. unfold ret at 1. rewrite Ha0.
  destruct (List.find _ (alertDocs w)) as [a|] eqn:Efind;
    [|intros E; inversion E; subst; eexists; split; [reflexivity|];
      split_and!; auto].
  destruct (terminal (Alert.status a)) eqn:Et.
  { assert (Hg : Status_eqb (Alert.status a) RESOLVED
                 || Status_eqb (Alert.status a) AUTO_CLOSED = true)
      by (destruct (Alert.status a); try discriminate; reflexivity).
    rewrite Hg. intros E; inversion E; subst; eexists; split; [reflexivity|].
    split_and!; auto. }
  assert (Hg : Status_eqb (Alert.status a) RESOLVED
               || Status_eqb (Alert.status a) AUTO_CLOSED = false)
    by (destruct (Alert.status a); try discriminate; reflexivity).
  rewrite Hg. unfold bind at 1. unfold DateNow at 1. unfold gets at 1.
  rewrite Hk0.
  set (a' := Alert.resolve (clock w) (Some user) notes a).
  unfold bind at 1.
  destruct (save a' w0) as [[[]|e1] w1] eqn:E1;
    pose proof (save_writes _ _ _ _ E1) as (Hk1 & Hr1 & He1 & _);
    apply save_spec in E1 as (_ & Hh1 & Ha1);
    [|intros E; inversion E; subst; eexists; split; [reflexivity|];
      split_and!; try congruence; left; congruence].
  unfold bind at 1.
  destruct (logTransition _ _ _ _ _ _ _ _ w1) as [[[]|e2] w2] eqn:E2;
    pose proof (logTransition_writes _ _ _ _ _ _ _ _ _ _ _ E2)
      as (Hk2 & Hr2 & He2 & _);
    apply logTransition_spec in E2 as (_ & Ha2 & Hh2);
    [|intros E; inversion E; subst; eexists; split; [reflexivity|];
      split_and!; try congruence; right; split; congruence].
  unfold bind, ret.
  rewrite (proj2 (invalidatePattern_pages _)), (proj1 (invalidatePattern_pages _)).
  intros E; inversion E; subst; eexists; split; [reflexivity|].
  split_and!; try congruence.
  rewrite Hh2, Hh1, Hh0, Hk1, Hk0. reflexivity.
Qed.

Lemma resolveAlert_calm id notes user w :
  calm 3 w ->
  exists code success message data w',
    resolveAlert id notes user w
    = (Normal (Json code success message data), w').
Proof.
  intros Hc. unfold resolveAlert, try_catch, Alert_findOne.
  unfold bind at 1 2. unfold bind at 1.
  destruct (calm_storeCall 2 w Hc) as (w0 & -> & Hc0 & _ & _ & _ & _ & Hs0).
  injection Hs0 as Ha0 Hh0 Hr0 Hk0.
  unfold gets at 1. unfold bind at 1. unfold ret at 1. rewrite Ha0.
  destruct (List.find _ (alertDocs w)) as [a|] eqn:Efind; [|eauto 10].
  destruct (_ || _); [eauto 10|].
  unfold bind at 1. unfold DateNow at 1. unfold gets at 1.
  unfold bind at 1.
  destruct (save_calm 1 (Alert.resolve (clock w0) (Some user) notes a) w0 Hc0)
    as (w1 & -> & Hc1 & _).
  { unfold stored. rewrite Ha0. eapply found_is_stored; eauto. }
  unfold bind at 1.
  edestruct (logTransition_calm 0) as (w2 & -> & _); [exact Hc1|].
  unfold bind, ret.
  rewrite (proj2 (invalidatePattern_pages _)), (proj1 (invalidatePattern_pages _)).
  eauto 10.
Qed.

(** X20: what [resolveAlert] answers and writes.  It never throws.  With
    no stored alert of the [alertId] asked for it answers 404, with one
    that is RESOLVED or AUTO_CLOSED it answers 400, and in both cases it
    writes nothing.  Otherwise, when it answers 200, the stored alert
    has become the alert returned, RESOLVED by the user with the notes
    given, and the history has one entry more, of USER, from the status
    the alert had.  When the store rejects a call the error goes to
    [next]; the history is then as it was, but the alert may already be
    stored as RESOLVED.  A store that rejects nothing gives no error. *)
Theorem resolveAlert_outcomes (id : string) (notes : option string)
    (user : string) (w : World) :
  exists response w',
    resolveAlert id notes user w = (Normal response, w')
    /\ engine w' = engine w /\ ruleDocs w' = ruleDocs w /\ clock w' = clock w
    /\ (calm 3 w -> exists code success message data,
          response = Json code success message data)
    /\ match response,
             List.find (fun d => String.eqb (Alert.alertId d) id) (alertDocs w)
       with
       | Json code _ _ data, None =>
           code = 404%nat /\ data = None
           /\ alertDocs w' = alertDocs w /\ historyDocs w' = historyDocs w
       | Json code _ _ data, Some alert =>
           if terminal (Alert.status alert) then
             code = 400%nat /\ data = None
             /\ alertDocs w' = alertDocs w /\ historyDocs w' = historyDocs w
           else
             code = 200%nat
             /\ data = Some (Alert.resolve (clock w) (Some user) notes alert)
             /\ alertDocs w'
                = replaceDocument
                    (Alert.resolve (clock w) (Some user) notes alert)
                    (alertDocs w)
             /\ historyDocs w'
                = (historyDocs w
                   ++ [resolutionEntry alert notes user (clock w)])%list
       | Next _, None =>
           alertDocs w' = alertDocs w /\ historyDocs w' = historyDocs w
       | Next _, Some alert =>
           historyDocs w' = historyDocs w
           /\ (alertDocs w' = alertDocs w
               \/ (terminal (Alert.status alert) = false
                   /\ alertDocs w'
                      = replaceDocument
                          (Alert.resolve (clock w) (Some user) notes alert)
                          (alertDocs w)))
       end.
Proof.
  destruct (resolveAlert id notes user w) as [c w'] eqn:E.
  pose proof E as E'.
  apply resolveAlert_cases in E as (response & -> & He & Hr & Hk & Heff).
  exists response, w'. split_and!; auto.
  intros Hc.
  destruct (resolveAlert_calm id notes user w Hc) as (co & su & me & da & w2 & E2).
  rewrite E2 in E'. inversion E'; subst. eauto.
Qed.

Lemma not_calm_head n w : head (faults w) = Some true -> ~ calm (S n) w.
Proof.
  intros Hh Hc. apply (Hc 0%nat); [lia|]. now rewrite <- head_lookup.
Qed.

Lemma not_calm_tail n w w1 :
  faults w1 = tail (faults w) -> ~ calm n w1 -> ~ calm (S n) w.
Proof. intros Hf Hn Hc. apply Hn. eapply calm_tail; eauto. Qed.

Lemma Alert_deleteOne_spec a w c w1 :
  Alert_deleteOne a w = (c, w1) ->
  historyDocs w1 = historyDocs w /\ ruleDocs w1 = ruleDocs w
  /\ clock w1 = clock w /\ engine w1 = engine w
  /\ ((c = Normal tt
       /\ alertDocs w1
          = List.filter (fun d => negb (sameDocument a d)) (alertDocs w))
      \/ (c = Throw "store operation failed" /\ alertDocs w1 = alertDocs w
          /\ head (faults w) = Some true)).
Proof.
  unfold Alert_deleteOne, bind, modify, storeCall. intros E.
  destruct (faults w) as [|[] fs] eqn:Ef; inversion E; subst; cbn; auto 10.
Qed.

Lemma deleted_is_not_stored a a' docs :
  Alert._id a' = Alert._id a ->
  existsb (sameDocument a')
    (List.filter (fun d => negb (sameDocument a d)) docs) = false.
Proof.
  intros Hid. apply not_true_is_false. intros Hx.
  apply existsb_exists in Hx as (d & Hin & Hs).
  apply List.filter_In in Hin as [_ Hn].
  unfold sameDocument in *. rewrite Hid in Hs. rewrite Hs in Hn. discriminate.
Qed.

(** X21: [deleteAlert] does not cascade.  It never throws, and a store
    that rejects nothing gives no error.  It answers 404 when no stored
    alert has the [alertId] asked for, and otherwise, when it answers
    200, the stored alert is gone while every history entry, those of
    the deleted alert included, is still there.  A copy of the alert that
    is still in memory can then no longer be saved: [save] throws and
    writes nothing.  When the store rejects a call the error goes to
    [next] and nothing has been deleted. *)
Theorem deleteAlert_keeps_history (id : string) (w : World) :
  exists response w',
    deleteAlert id w = (Normal response, w')
    /\ historyDocs w' = historyDocs w
    /\ ruleDocs w' = ruleDocs w /\ engine w' = engine w
    /\ (calm 2 w -> forall e, response <> Next e)
    /\ match response,
             List.find (fun d => String.eqb (Alert.alertId d) id) (alertDocs w)
       with
       | Json code success message data, None =>
           code = 404%nat /\ success = false /\ data = None
           /\ alertDocs w' = alertDocs w
       | Json code success message data, Some alert =>
           code = 200%nat /\ success = true /\ data = None
           /\ alertDocs w'
              = List.filter (fun d => negb (sameDocument alert d)) (alertDocs w)
           /\ (forall copy, Alert._id copy = Alert._id alert ->
                exists e w'',
                  save copy w' = (Throw e, w'')
                  /\ alertDocs w'' = alertDocs w'
                  /\ historyDocs w'' = historyDocs w')
       | Next _, _ => alertDocs w' = alertDocs w
       end.
Proof.
  unfold deleteAlert, try_catch, Alert_findOne.
  unfold bind at 1 2. unfold bind at 1.
  destruct (storeCall w) as [[[]|e0] w0] eqn:E0;
    apply storeCall_cases in E0 as (Hs0 & He0 & Hf0 & Hc0);
    injection Hs0 as Ha0 Hh0 Hr0 Hk0.
  2: { destruct Hc0 as [Hc0|Hc0]; [discriminate|].
       eexists _, _; split; [reflexivity|]. split_and!; auto.
       intros Hc. exfalso. exact (not_calm_head 1 w Hc0 Hc). }
  unfold gets at 1. unfold bind at 1. unfold ret at 1. rewrite Ha0.
  destruct (List.find _ (alertDocs w)) as [a|] eqn:Efind;
    [|eexists _, _; split; [reflexivity|]; split_and!; auto; discriminate].
  unfold bind at 1.
  destruct (Alert_deleteOne a w0) as [c1 w1] eqn:E1.
  apply Alert_deleteOne_spec in E1
    as (Hh1 & Hr1 & Hk1 & He1 & [(-> & Ha1)|(-> & Ha1 & Hc1)]).
  - unfold bind, ret.
    rewrite (proj2 (invalidatePattern_pages _)), (proj1 (invalidatePattern_pages _)).
    eexists _, _; split; [reflexivity|].
    split_and!; try congruence; try discriminate.
    intros copy Hid.
    destruct (save copy w1) as [c2 w2] eqn:E2.
    pose proof E2 as E2'. apply save_spec in E2' as (_ & Hh2 & Ha2).
    destruct c2 as [[]|e].
    + exfalso. unfold save, bind, gets, modify, throw in E2.
      destruct (storeCall w1) as [[[]|e1] w1'] eqn:Es; [|discriminate].
      apply storeCall_cases in Es as (Hs & _). injection Hs as Hax _ _ _.
      rewrite Hax, Ha1, Ha0, (deleted_is_not_stored a copy _ Hid) in E2.
      discriminate.
    + eauto.
  - eexists _, _; split; [reflexivity|]. split_and!; try congruence.
    intros Hc. exfalso. revert Hc.
    eapply not_calm_tail; [exact Hf0|]. now apply not_calm_head.
Qed.

Lemma Rule_save_spec i rule w c w1 :
  Rule_save i rule w = (c, w1) ->
  alertDocs w1 = alertDocs w /\ historyDocs w1 = historyDocs w
  /\ clock w1 = clock w /\ engine w1 = engine w
  /\ faults w1 = tail (faults w)
  /\ ((c = Normal tt /\ ruleDocs w1 = <[i := rule]> (ruleDocs w)
       /\ head (faults w) <> Some true)
      \/ (c = Throw "store operation failed" /\ ruleDocs w1 = ruleDocs w
          /\ head (faults w) = Some true)).
Proof.
  unfold Rule_save, bind, modify, storeCall. intros E.
  destruct (faults w) as [|[] fs] eqn:Ef; inversion E; subst; cbn;
    rewrite ?Ef; split_and!; auto; left; split_and!; auto; discriminate.
Qed.

Lemma Rule_deleteOne_spec i w c w1 :
  Rule_deleteOne i w = (c, w1) ->
  alertDocs w1 = alertDocs w /\ historyDocs w1 = historyDocs w
  /\ clock w1 = clock w /\ engine w1 = engine w
  /\ faults w1 = tail (faults w)
  /\ ((c = Normal tt /\ ruleDocs w1 = base.delete i (ruleDocs w)
       /\ head (faults w) <> Some true)
      \/ (c = Throw "store operation failed" /\ ruleDocs w1 = ruleDocs w
          /\ head (faults w) = Some true)).
Proof.
  unfold Rule_deleteOne, bind, modify, storeCall. intros E.
  destruct (faults w) as [|[] fs] eqn:Ef; inversion E; subst; cbn;
    rewrite ?Ef; split_and!; auto; left; split_and!; auto; discriminate.
Qed.

Lemma reloadRules_spec w c w1 :
  reloadRules w = (c, w1) ->
  stores w1 = stores w /\ faults w1 = tail (faults w)
  /\ ((c = Throw "store operation failed"
       /\ head (faults w) = Some true
       /\ rules w1 = rules w /\ initialized w1 = initialized w
       /\ cachedRules w1 = None)
      \/ (c = Normal tt
          /\ head (faults w) <> Some true
          /\ rules w1 = indexRules (enabledRules w)
          /\ initialized w1 = true
          /\ cachedRules w1 = Some (enabledRules w))).
Proof.
  intros E.
  destruct (reloadRules_run w)
    as (w2 & Hs & Hf & [(Hh & E2 & Hx)|(Hh & E2 & Hx)]);
    rewrite E2 in E; inversion E; subst; split_and!; auto.
Qed.

Lemma cacheDelete_rules w :
  cacheDelete "rules:all" w = (Normal tt, set_cachedRules None w).
Proof. reflexivity. Qed.

Lemma toggleRule_cases id w c w' :
  toggleRule id w = (c, w') ->
  exists response,
    c = Normal response
    /\ alertDocs w' = alertDocs w /\ historyDocs w' = historyDocs w
    /\ clock w' = clock w
    /\ (calm 3 w -> forall e, response <> Next e)
    /\ (forall code s m d, response = Json code s m (Some d) ->
          faults w' = tail (tail (tail (faults w))))
    /\ toggleRule_effect id w response w'.
Proof.
  unfold toggleRule, try_catch, Rule_findOne, toggleRule_effect.
  unfold bind at 1 2. unfold bind at 1.
  destruct (storeCall w) as [[[]|e0] w0] eqn:E0;
    apply storeCall_cases in E0 as (Hs0 & He0 & Hf0 & Hc0);
    injection Hs0 as Ha0 Hh0 Hr0 Hk0.
  2: { destruct Hc0 as [Hc0|Hc0]; [discriminate|].
       intros E; inversion E; subst; eexists; split; [reflexivity|].
       do 3 (split; [congruence|]).
       split; [intros Hc; exfalso; exact (not_calm_head 2 w Hc0 Hc)|].
       split; [intros ? ? ? ? Hx; discriminate Hx|].
       destruct (list_find _ _) as [[i r]|];
         [apply engine_eq in He0 as (? & ? & ?)|]; auto 10. }
  unfold gets at 1. unfold bind at 1. unfold ret at 1. rewrite Hr0.
  destruct (list_find _ (ruleDocs w)) as [[i r]|] eqn:Efind;
    [|intros E; inversion E; subst; eexists; split; [reflexivity|];
      split_and!; auto; try discriminate; intros ? ? ? ? Hx; congruence].
  unfold bind at 1.
  destruct (Rule_save i (toggled r) w0) as [c1 w1] eqn:E1.
  apply Rule_save_spec in E1
    as (Ha1 & Hh1 & Hk1 & He1 & Hf1 & [(-> & Hr1 & _)|(-> & Hr1 & Hc1)]);
    apply engine_eq in He0 as (He0r & He0i & He0c);
    apply engine_eq in He1 as (He1r & He1i & He1c).
  2: { intros E; inversion E; subst; eexists; split; [reflexivity|].
       do 3 (split; [congruence|]).
       split; [intros Hc; exfalso; revert Hc;
               eapply not_calm_tail; [exact Hf0|]; now apply not_calm_head|].
       split; [intros ? ? ? ? Hx; discriminate Hx|].
       split_and!; try congruence. left; split; congruence. }
  unfold bind at 1.
  destruct (reloadRules w1) as [c2 w2] eqn:E2.
  apply reloadRules_spec in E2
    as (Hs2 & Hf2 & [(-> & Hc2 & Hr2 & Hi2 & Hcc2)|(-> & _ & Hr2 & Hi2 & Hcc2)]);
    injection Hs2 as Ha2 Hh2 Hrd2 Hk2.
  - intros E; inversion E; subst; eexists; split; [reflexivity|].
    do 3 (split; [congruence|]).
    split; [intros Hc; exfalso; revert Hc;
            eapply not_calm_tail; [exact Hf0|];
            eapply not_calm_tail; [exact Hf1|]; now apply not_calm_head|].
    split; [intros ? ? ? ? Hx; discriminate Hx|].
    split_and!; try congruence. right. split; congruence.
  - unfold bind, ret. rewrite cacheDelete_rules.
    intros E; inversion E; subst; eexists; split; [reflexivity|].
    unfold enabledRules in *. unfold set_cachedRules.
    cbn [rules initialized cachedRules ruleDocs alertDocs historyDocs clock
         faults].
    split_and!; try congruence; try discriminate; intros; congruence.
Qed.

Lemma deleteRule_cases id w c w' :
  deleteRule id w = (c, w') ->
  exists response,
    c = Normal response
    /\ alertDocs w' = alertDocs w /\ historyDocs w' = historyDocs w
    /\ clock w' = clock w
    /\ (calm 3 w -> forall e, response <> Next e)
    /\ (forall code s m d, response = Json code s m (Some d) ->
          faults w' = tail (tail (tail (faults w))))
    /\ deleteRule_effect id w response w'.
Proof.
  unfold deleteRule, try_catch, Rule_findOne, deleteRule_effect.
  unfold bind at 1 2. unfold bind at 1.
  destruct (storeCall w) as [[[]|e0] w0] eqn:E0;
    apply storeCall_cases in E0 as (Hs0 & He0 & Hf0 & Hc0);
    injection Hs0 as Ha0 Hh0 Hr0 Hk0.
  2: { destruct Hc0 as [Hc0|Hc0]; [discriminate|].
       intros E; inversion E; subst; eexists; split; [reflexivity|].
       do 3 (split; [congruence|]).
       split; [intros Hc; exfalso; exact (not_calm_head 2 w Hc0 Hc)|].
       split; [intros ? ? ? ? Hx; discriminate Hx|].
       destruct (list_find _ _) as [[i r]|];
         [apply engine_eq in He0 as (? & ? & ?)|]; auto 10. }
  unfold gets at 1. unfold bind at 1. unfold ret at 1. rewrite Hr0.
  destruct (list_find _ (ruleDocs w)) as [[i r]|] eqn:Efind;
    [|intros E; inversion E; subst; eexists; split; [reflexivity|];
      split_and!; auto; try discriminate; intros ? ? ? ? Hx; congruence].
  unfold bind at 1.
  destruct (Rule_deleteOne i w0) as [c1 w1] eqn:E1.
  apply Rule_deleteOne_spec in E1
    as (Ha1 & Hh1 & Hk1 & He1 & Hf1 & [(-> & Hr1 & _)|(-> & Hr1 & Hc1)]);
    apply engine_eq in He0 as (He0r & He0i & He0c);
    apply engine_eq in He1 as (He1r & He1i & He1c).
  2: { intros E; inversion E; subst; eexists; split; [reflexivity|].
       do 3 (split; [congruence|]).
       split; [intros Hc; exfalso; revert Hc;
               eapply not_calm_tail; [exact Hf0|]; now apply not_calm_head|].
       split; [intros ? ? ? ? Hx; discriminate Hx|].
       split_and!; try congruence. left; split; congruence. }
  unfold bind at 1.
  destruct (reloadRules w1) as [c2 w2] eqn:E2.
  apply reloadRules_spec in E2
    as (Hs2 & Hf2 & [(-> & Hc2 & Hr2 & Hi2 & Hcc2)|(-> & _ & Hr2 & Hi2 & Hcc2)]);
    injection Hs2 as Ha2 Hh2 Hrd2 Hk2.
  - intros E; inversion E; subst; eexists; split; [reflexivity|].
    do 3 (split; [congruence|]).
    split; [intros Hc; exfalso; revert Hc;
            eapply not_calm_tail; [exact Hf0|];
            eapply not_calm_tail; [exact Hf1|]; now apply not_calm_head|].
    split; [intros ? ? ? ? Hx; discriminate Hx|].
    split_and!; try congruence. right. split; congruence.
  - unfold bind, ret. rewrite cacheDelete_rules.
    intros E; inversion E; subst; eexists; split; [reflexivity|].
    unfold enabledRules in *. unfold set_cachedRules.
    cbn [rules initialized cachedRules ruleDocs alertDocs historyDocs clock
         faults].
    split_and!; try congruence; try discriminate; intros; congruence.
Qed.


(** X22: what [toggleRule] answers and writes.  It never throws and
    never touches the alerts or the history.  With no stored rule of the
    [ruleId] asked for it answers 404 and changes nothing.  Otherwise,
    when it answers 200, the stored rule has [enabled] flipped, the
    engine holds the index of the enabled stored rules, and the cached
    rule list is gone, so that the next [initialize] reads the store.
    When the store rejects a call the error goes to [next] and the
    engine keeps the index it had, also when the rule has already been
    flipped in the store.  A store that rejects nothing gives no
    error. *)
Theorem toggleRule_outcomes (id : string) (w : World) :
  exists response w',
    toggleRule id w = (Normal response, w')
    /\ alertDocs w' = alertDocs w /\ historyDocs w' = historyDocs w
    /\ (calm 3 w -> forall e, response <> Next e)
    /\ match response, list_find (fun r => Rule.ruleId r = id) (ruleDocs w) with
       | Json code _ _ data, None =>
           code = 404%nat /\ data = None
           /\ ruleDocs w' = ruleDocs w /\ engine w' = engine w
       | Json code _ _ data, Some (i, rule) =>
           code = 200%nat /\ data = Some (toggled rule)
           /\ ruleDocs w' = <[i := toggled rule]> (ruleDocs w)
           /\ rules w' = indexRules (enabledRules w')
           /\ initialized w' = true
           /\ cachedRules w' = None
       | Next _, None => ruleDocs w' = ruleDocs w /\ engine w' = engine w
       | Next _, Some (i, rule) =>
           rules w' = rules w /\ initialized w' = initialized w
           /\ ((ruleDocs w' = ruleDocs w /\ cachedRules w' = cachedRules w)
               \/ (ruleDocs w' = <[i := toggled rule]> (ruleDocs w)
                   /\ cachedRules w' = None))
       end.
Proof.
  destruct (toggleRule id w) as [c w'] eqn:E.
  apply toggleRule_cases in E as (response & -> & Ha & Hh & Hk & Hc & _ & Heff).
  exists response, w'. split_and!; auto.
Qed.

Lemma toggled_toggled rule : toggled (toggled rule) = rule.
Proof. destruct rule. unfold toggled. cbn. now rewrite negb_involutive. Qed.

Lemma found_rule id docs i r :
  list_find (fun r => Rule.ruleId r = id) docs = Some (i, r) ->
  docs !! i = Some r /\ Rule.ruleId r = id.
Proof. intros Hf. apply list_find_Some in Hf as (? & ? & _). auto. Qed.

Lemma unique_ruleId docs i j r x :
  NoDup (map Rule.ruleId docs) ->
  docs !! i = Some r -> docs !! j = Some x ->
  Rule.ruleId x = Rule.ruleId r -> j = i.
Proof.
  intros Hn Hi Hj Hid.
  eapply (NoDup_lookup (map Rule.ruleId docs)); [exact Hn| |].
  - change (map Rule.ruleId docs) with (Rule.ruleId <$> docs).
    rewrite list_lookup_fmap, Hj. cbn. reflexivity.
  - change (map Rule.ruleId docs) with (Rule.ruleId <$> docs).
    rewrite list_lookup_fmap, Hi. cbn. now rewrite Hid.
Qed.

Lemma engine_rule_enabled w st x :
  rules w = indexRules (enabledRules w) ->
  rules w !! st = Some x ->
  x ∈ ruleDocs w /\ Rule.enabled x = true /\ Rule.sourceType x = st.
Proof.
  intros Hr Hl. rewrite Hr in Hl.
  apply indexRules_lookup_Some in Hl as [Hin Ht].
  unfold enabledRules in Hin.
  apply (proj1 (elem_of_sortByPriorityDesc _ _)) in Hin.
  apply list_elem_of_In, List.filter_In in Hin as [Hin He].
  split_and!; auto. now apply list_elem_of_In.
Qed.

(** X23: a toggle takes effect in the engine.  After [toggleRule] has
    answered 200, rule ids being distinct: if the rule is now disabled,
    no rule of that id is left in the index of the engine; if it is now
    enabled, the index has, for its source type, an enabled rule of the
    same or a lower priority (the rule itself, unless another enabled
    rule of that source type shadows it). *)
Theorem toggle_takes_effect (id : string) (w : World) (s : bool)
    (m : string) (rule' : Rule.t) (w' : World) :
  toggleRule id w = (Normal (Json 200 s m (Some rule')), w') ->
  NoDup (map Rule.ruleId (ruleDocs w)) ->
  Rule.ruleId rule' = id
  /\ rule' ∈ ruleDocs w'
  /\ (Rule.enabled rule' = false ->
      forall st x, rules w' !! st = Some x -> Rule.ruleId x <> id)
  /\ (Rule.enabled rule' = true ->
      exists kept,
        rules w' !! Rule.sourceType rule' = Some kept
        /\ Rule.enabled kept = true
        /\ Rule.priority kept <= Rule.priority rule').
Proof.
  intros E Hn.
  apply toggleRule_cases in E as (response & Er & _ & _ & _ & _ & _ & Heff).
  injection Er as <-. unfold toggleRule_effect in Heff.
  destruct (list_find _ (ruleDocs w)) as [[i r]|] eqn:Efind;
    [|destruct Heff as (? & _); discriminate].
  destruct Heff as (_ & Hd & Hdocs & Hr & _). injection Hd as ->.
  apply found_rule in Efind as [Hi Hid].
  assert (Hlt : (i < length (ruleDocs w))%nat) by (eapply lookup_lt_Some; eauto).
  assert (Hat : ruleDocs w' !! i = Some (toggled r)).
  { rewrite Hdocs. now apply list_lookup_insert_eq. }
  split_and!.
  - exact Hid.
  - eapply list_elem_of_lookup_2; eauto.
  - intros Hoff st x Hl Hx.
    apply (engine_rule_enabled _ _ _ Hr) in Hl as (Hin & Hen & _).
    apply list_elem_of_lookup_1 in Hin as [j Hj]. rewrite Hdocs in Hj.
    destruct (decide (j = i)) as [->|Hne].
    + rewrite list_lookup_insert_eq in Hj by exact Hlt.
      injection Hj as <-. congruence.
    + rewrite list_lookup_insert_ne in Hj by congruence.
      apply Hne. eapply unique_ruleId; eauto. congruence.
  - intros Hon.
    assert (Hin : toggled r ∈ enabledRules w').
    { unfold enabledRules. apply (proj2 (elem_of_sortByPriorityDesc _ _)).
      apply list_elem_of_In, List.filter_In. split; [|exact Hon].
      apply list_elem_of_In. eapply list_elem_of_lookup_2; eauto. }
    destruct (indexRules_lowest (enabledRules w')
                (sortByPriorityDesc_descending _) _ Hin)
      as (kept & Hk & Hkin & _ & Hmin).
    exists kept. rewrite Hr. split_and!; auto.
    unfold enabledRules in Hkin.
    apply (proj1 (elem_of_sortByPriorityDesc _ _)) in Hkin.
    apply list_elem_of_In, List.filter_In in Hkin as [_ He]. exact He.
Qed.

Lemma list_find_insert_same id docs i r :
  list_find (fun r => Rule.ruleId r = id) docs = Some (i, r) ->
  list_find (fun r => Rule.ruleId r = id) (<[i := toggled r]> docs)
  = Some (i, toggled r).
Proof.
  intros Hf. apply list_find_Some in Hf as (Hi & Hid & Hbefore).
  apply list_find_Some. split_and!.
  - apply list_lookup_insert_eq. eapply lookup_lt_Some; eauto.
  - exact Hid.
  - intros j y Hj Hlt. rewrite list_lookup_insert_ne in Hj by lia. eauto.
Qed.

Lemma calm_after_three n w w' :
  calm (3 + n) w -> faults w' = tail (tail (tail (faults w))) -> calm n w'.
Proof.
  intros Hc Hf i Hi. rewrite Hf, !lookup_tail. apply Hc. lia.
Qed.

(** X24: toggling a rule twice is a round trip.  When the store rejects
    nothing and a stored rule has the [ruleId] asked for, two calls of
    [toggleRule] both answer 200, the first with the rule flipped and the
    second with the rule as it was; afterwards the stored rules are what
    they were (in the fields that the engine reads) and the engine holds
    the index of the enabled ones. *)
Theorem toggleRule_twice (id : string) (w : World) (i : nat) (rule : Rule.t) :
  calm 6 w ->
  list_find (fun r => Rule.ruleId r = id) (ruleDocs w) = Some (i, rule) ->
  exists s1 m1 w1 s2 m2 w2,
    toggleRule id w = (Normal (Json 200 s1 m1 (Some (toggled rule))), w1)
    /\ toggleRule id w1 = (Normal (Json 200 s2 m2 (Some rule)), w2)
    /\ ruleDocs w2 = ruleDocs w
    /\ rules w2 = indexRules (enabledRules w)
    /\ cachedRules w2 = None.
Proof.
  intros Hc Hfind.
  destruct (toggleRule id w) as [c1 w1] eqn:E1.
  apply toggleRule_cases in E1 as (r1 & -> & _ & _ & _ & Hn1 & Hf1 & Heff1).
  assert (Hc3 : calm 3 w) by (intros k Hk; apply Hc; lia).
  specialize (Hn1 Hc3). unfold toggleRule_effect in Heff1. rewrite Hfind in Heff1.
  destruct r1 as [code1 s1 m1 d1|e]; [|now contradiction (Hn1 e)].
  destruct Heff1 as (-> & -> & Hd1 & _).
  specialize (Hf1 _ _ _ _ eq_refl).
  pose proof (calm_after_three 3 w w1 Hc Hf1) as Hc1.
  assert (Hfind1 : list_find (fun r => Rule.ruleId r = id) (ruleDocs w1)
                   = Some (i, toggled rule)).
  { rewrite Hd1. now apply list_find_insert_same. }
  destruct (toggleRule id w1) as [c2 w2] eqn:E2.
  pose proof E2 as E2'.
  apply toggleRule_cases in E2 as (r2 & -> & _ & _ & _ & Hn2 & _ & Heff2).
  specialize (Hn2 Hc1). unfold toggleRule_effect in Heff2. rewrite Hfind1 in Heff2.
  destruct r2 as [code2 s2 m2 d2|e]; [|now contradiction (Hn2 e)].
  destruct Heff2 as (-> & -> & Hd2 & Hr2 & _ & Hcc2).
  assert (Hback : ruleDocs w2 = ruleDocs w).
  { rewrite Hd2, Hd1, toggled_toggled, list_insert_insert_eq.
    apply list_insert_id. now apply found_rule in Hfind as [? _]. }
  rewrite toggled_toggled in E2'.
  exists s1, m1, w1, s2, m2, w2.
  split_and!; auto.
  rewrite Hr2. unfold enabledRules. now rewrite Hback.
Qed.

Lemma lookup_delete_other {A} (l : list A) i j x :
  base.delete i l !! j = Some x -> exists k, k <> i /\ l !! k = Some x.
Proof.
  intros Hj. destruct (decide (j < i)%nat) as [Hlt|Hge].
  - rewrite list_lookup_delete_lt in Hj by exact Hlt. exists j. split; [lia|exact Hj].
  - rewrite list_lookup_delete_ge in Hj by lia. exists (S j). split; [lia|exact Hj].
Qed.

(** X25: what [deleteRule] answers and writes.  It never throws and never
    touches the alerts or the history.  It answers 404 and changes
    nothing when no stored rule has the [ruleId] asked for; when it
    answers 200 the rule found is gone from the store, the engine holds
    the index of the enabled rules that are left, and the cached list is
    gone.  Rule ids being distinct, after a 200 no rule of that id is
    left in the store or in the index of the engine.  When the store
    rejects a call the error goes to [next] and the engine keeps the
    index it had, also when the rule has already been deleted. *)
Theorem deleteRule_outcomes (id : string) (w : World) :
  exists response w',
    deleteRule id w = (Normal response, w')
    /\ alertDocs w' = alertDocs w /\ historyDocs w' = historyDocs w
    /\ (calm 3 w -> forall e, response <> Next e)
    /\ match response, list_find (fun r => Rule.ruleId r = id) (ruleDocs w) with
       | Json code _ _ data, None =>
           code = 404%nat /\ data = None
           /\ ruleDocs w' = ruleDocs w /\ engine w' = engine w
       | Json code _ _ data, Some (i, rule) =>
           code = 200%nat /\ data = None
           /\ ruleDocs w' = base.delete i (ruleDocs w)
           /\ rules w' = indexRules (enabledRules w')
           /\ initialized w' = true
           /\ cachedRules w' = None
           /\ (NoDup (map Rule.ruleId (ruleDocs w)) ->
               (forall x, x ∈ ruleDocs w' -> Rule.ruleId x <> id)
               /\ (forall st x, rules w' !! st = Some x -> Rule.ruleId x <> id))
       | Next _, None => ruleDocs w' = ruleDocs w /\ engine w' = engine w
       | Next _, Some (i, rule) =>
           rules w' = rules w /\ initialized w' = initialized w
           /\ ((ruleDocs w' = ruleDocs w /\ cachedRules w' = cachedRules w)
               \/ (ruleDocs w' = base.delete i (ruleDocs w)
                   /\ cachedRules w' = None))
       end.
Proof.
  destruct (deleteRule id w) as [c w'] eqn:E.
  apply deleteRule_cases in E as (response & -> & Ha & Hh & Hk & Hc & _ & Heff).
  exists response, w'. split_and!; auto.
  unfold deleteRule_effect in Heff.
  destruct response as [code s m d|e];
    destruct (list_find _ (ruleDocs w)) as [[i r]|] eqn:Efind; auto.
  destruct Heff as (-> & -> & Hd & Hr & Hi & Hcc). split_and!; auto.
  intros Hn. apply found_rule in Efind as [Hat Hid].
  assert (Hgone : forall x, x ∈ ruleDocs w' -> Rule.ruleId x <> id).
  { intros x Hx Hxid. rewrite Hd in Hx.
    apply list_elem_of_lookup_1 in Hx as [j Hj].
    apply lookup_delete_other in Hj as (k & Hne & Hk').
    apply Hne. eapply unique_ruleId; eauto. congruence. }
  split; [exact Hgone|].
  intros st x Hl. apply (engine_rule_enabled _ _ _ Hr) in Hl as (Hin & _).
  now apply Hgone.
Qed.

(** *** The cache *)

Lemma append_String c a b : String c a +:+ b = String c (a +:+ b).
Proof. reflexivity. Qed.

Lemma prefix_append pattern :
  forall key, String.prefix pattern key = true <-> exists b, key = pattern +:+ b.
Proof.
  induction pattern as [|a pattern IH]; intros key.
  - split; [intros _; now exists key|intros _; now destruct key].
  - destruct key as [|c key]; cbn.
    + split; [discriminate|]. intros [b Hb]. discriminate.
    + destruct (Ascii.ascii_dec a c) as [->|Hne].
      * rewrite IH. split; intros [b Hb]; exists b;
          rewrite append_String in *; congruence.
      * split; [discriminate|]. intros [b Hb].
        rewrite append_String in Hb. congruence.
Qed.

Lemma includes_spec key pattern :
  includes key pattern = true <-> exists a b, key = a +:+ pattern +:+ b.
Proof.
  induction key as [|c key IH]; cbn [includes].
  - rewrite orb_false_r, prefix_append. split.
    + intros [b Hb]. now exists "", b.
    + intros (a & b & Hab). destruct a; [|discriminate]. now exists b.
  - rewrite orb_true_iff, prefix_append, IH. split.
    + intros [[b Hb]|(a & b & Hab)].
      * now exists "", b.
      * exists (String c a), b. now rewrite append_String, Hab.
    + intros (a & b & Hab). destruct a as [|c' a];
        [|rewrite append_String in Hab].
      * left. now exists b.
      * right. exists a, b. congruence.
Qed.

Lemma lookup_deleteMultiple {V} (m : gmap string V) keys key :
  foldr base.delete m keys !! key = if decide (key ∈ keys) then None else m !! key.
Proof.
  induction keys as [|k keys IH]; cbn.
  - rewrite decide_False; [reflexivity|]. intros Hin. inversion Hin.
  - destruct (decide (k = key)) as [->|Hne].
    + rewrite lookup_delete_eq, decide_True; [reflexivity|left].
    + rewrite lookup_delete_ne by exact Hne. rewrite IH.
      destruct (decide (key ∈ keys)) as [Hin|Hn].
      * rewrite decide_True; [reflexivity|now right].
      * rewrite decide_False; [reflexivity|].
        intros Hc. apply elem_of_cons in Hc as [->|Hc]; auto.
Qed.

Lemma elem_of_keys {V} (c : CacheManager.t V) key :
  key ∈ CacheManager.keys c <-> is_Some (CacheManager.entries c !! key).
Proof.
  unfold CacheManager.keys. rewrite list_elem_of_fmap. split.
  - intros ([k v] & -> & Hin). apply elem_of_map_to_list in Hin. cbn. eauto.
  - intros [v Hv]. exists (key, v). split; [reflexivity|].
    now apply elem_of_map_to_list.
Qed.

Lemma invalidatePattern_lookup {V} (c : CacheManager.t V) pattern key :
  CacheManager.entries (CacheManager.invalidatePattern pattern c) !! key
  = if includes key pattern then None else CacheManager.entries c !! key.
Proof.
  unfold CacheManager.invalidatePattern.
  set (matching := List.filter _ _).
  assert (Hm : forall k, k ∈ matching
                 <-> is_Some (CacheManager.entries c !! k)
                     /\ includes k pattern = true).
  { intros k. unfold matching.
    rewrite list_elem_of_In, List.filter_In, <- list_elem_of_In, elem_of_keys.
    reflexivity. }
  destruct (0 <? length matching)%nat eqn:El.
  - cbn. rewrite lookup_deleteMultiple.
    destruct (decide (key ∈ matching)) as [Hin|Hn].
    + apply Hm in Hin as [_ ->]. reflexivity.
    + destruct (includes key pattern) eqn:Ei; [|reflexivity].
      destruct (CacheManager.entries c !! key) eqn:Ek; [|reflexivity].
      exfalso. apply Hn, Hm. rewrite Ek. eauto.
  - apply Nat.ltb_ge in El.
    destruct matching as [|k l] eqn:Em; [|cbn in El; lia].
    destruct (includes key pattern) eqn:Ei; [|reflexivity].
    destruct (CacheManager.entries c !! key) eqn:Ek; [|reflexivity].
    exfalso. assert (Hin : key ∈ @nil string); [|inversion Hin].
    apply Hm. rewrite Ek. eauto.
Qed.

Lemma cache_eq {V} (c1 c2 : CacheManager.t V) :
  CacheManager.entries c1 = CacheManager.entries c2 ->
  CacheManager.hits c1 = CacheManager.hits c2 ->
  CacheManager.misses c1 = CacheManager.misses c2 ->
  c1 = c2.
Proof. destruct c1, c2. cbn. now intros -> -> ->. Qed.

(** X26: [invalidatePattern] matches by substring.  It removes a key
    exactly when the pattern occurs somewhere in the key, not only at
    its start, and leaves every other key with its value; the hit and
    miss counters are not touched.  With the empty pattern it does what
    [flush] does. *)
Theorem invalidatePattern_by_substring {V : Type} (c : CacheManager.t V)
    (pattern key : string) :
  ((exists a b, key = a +:+ pattern +:+ b) ->
   CacheManager.entries (CacheManager.invalidatePattern pattern c) !! key = None)
  /\ (~ (exists a b, key = a +:+ pattern +:+ b) ->
      CacheManager.entries (CacheManager.invalidatePattern pattern c) !! key
      = CacheManager.entries c !! key)
  /\ CacheManager.invalidatePattern "" c = CacheManager.flush c
  /\ CacheManager.hits (CacheManager.invalidatePattern pattern c)
     = CacheManager.hits c
  /\ CacheManager.misses (CacheManager.invalidatePattern pattern c)
     = CacheManager.misses c.
Proof.
  split_and!.
  - intros Hs. apply includes_spec in Hs.
    now rewrite invalidatePattern_lookup, Hs.
  - intros Hs. rewrite invalidatePattern_lookup.
    destruct (includes key pattern) eqn:Ei; [|reflexivity].
    exfalso. now apply Hs, includes_spec.
  - apply cache_eq; cbn.
    + apply map_eq. intros k. rewrite invalidatePattern_lookup, lookup_empty.
      assert (Hi : includes k "" = true)
        by (apply includes_spec; now exists "", k).
      now rewrite Hi.
    + unfold CacheManager.invalidatePattern. now destruct (_ <? _)%nat.
    + unfold CacheManager.invalidatePattern. now destruct (_ <? _)%nat.
  - unfold CacheManager.invalidatePattern. now destruct (_ <? _)%nat.
  - unfold CacheManager.invalidatePattern. now destruct (_ <? _)%nat.
Qed.

(** X27: [getOrSet] fetches once.  After a call that returned, the next
    call for the key does not run its fetch function, whatever that
    function is, and counts a hit; it returns what the first call
    returned, except that an [undefined] (or [null]) that the first call
    fetched comes back as [null]: the cache holds the key and answers
    [null] for it. *)
Theorem getOrSet_memoizes {S V : Type} (key : string)
    (fetchFunction : Async (S * CacheManager.t V) (CacheManager.Cached V))
    (s : S * CacheManager.t V) (result : CacheManager.Cached V)
    (s1 : S * CacheManager.t V) :
  CacheManager.getOrSet key fetchFunction s = (Normal result, s1) ->
  forall again : Async (S * CacheManager.t V) (CacheManager.Cached V),
    CacheManager.getOrSet key again s1
    = (Normal (CacheManager.answered result),
       (fst s1, CacheManager.countHit (snd s1))).
Proof.
  intros E again.
  assert (Hl : CacheManager.lookup key (snd s1) = CacheManager.answered result
               /\ CacheManager.answered result <> CacheManager.Undefined).
  { unfold CacheManager.getOrSet, bind, CacheManager.get in E.
    destruct (CacheManager.lookup key (snd s)) as [| |v] eqn:El.
    - cbn in E.
      destruct (fetchFunction _) as [[value|e] s2]; [|discriminate].
      cbn in E. inversion E; subst. cbn.
      unfold CacheManager.lookup, CacheManager.set. cbn.
      rewrite lookup_insert_eq. destruct result; cbn; split; congruence.
    - cbn in E. inversion E; subst. cbn. split; [exact El|discriminate].
    - cbn in E. inversion E; subst. cbn. split; [exact El|discriminate]. }
  destruct Hl as [Hl Hn].
  unfold CacheManager.getOrSet, bind, CacheManager.get. rewrite Hl.
  destruct (CacheManager.answered result); [congruence|reflexivity..].
Qed.

End Surroundings.


(* ================================================================== *)
(** ** The properties on the sample data *)
(* ================================================================== *)

Lemma calm_nil n w : faults w = [] -> calm n w.
Proof. intros E i _. rewrite E. destruct i; discriminate. Qed.

(** An alert that was auto-closed stays as it is. *)
Lemma terminal_alert_unchanged_witness :
  terminal (Alert.status (withStatus AUTO_CLOSED oldOverspeed)) = true
  /\ exists result w',
       processAlert (withStatus AUTO_CLOSED oldOverspeed)
         (sampleWorld (withStatus AUTO_CLOSED oldOverspeed :: recentOverspeed) [])
       = (Normal (result, withStatus AUTO_CLOSED oldOverspeed), w')
       /\ stores w'
          = stores (sampleWorld
                      (withStatus AUTO_CLOSED oldOverspeed :: recentOverspeed) []).
Proof.
  split; [reflexivity|].
  apply (terminal_alert_unchanged (withStatus AUTO_CLOSED oldOverspeed)
           (sampleWorld (withStatus AUTO_CLOSED oldOverspeed :: recentOverspeed) [])
           eq_refl).
Defined.

(** The third overspeed alert of driver D1 within the hour escalates, in
    a process that has just started: the evaluation loads the rules
    first. *)
Lemma escalation_iff_count_since_witness :
  consulted (freshWorld recentOverspeed []) (sampleWorld recentOverspeed [])
  /\ exists ev w',
       evaluateAlert
         (sampleAlert "a3" "overspeed" (noon - 10 * minute) (driver "D1"))
         (freshWorld recentOverspeed [])
       = (Normal ev, w')
       /\ rule ev = Some RULE_OVERSPEED_001
       /\ shouldEscalate ev = true.
Proof.
  assert (Hcons : consulted (freshWorld recentOverspeed [])
                    (sampleWorld recentOverspeed []))
    by (vm_compute; reflexivity).
  split; [exact Hcons|].
  destruct (proj1 (escalation_iff_count_since
                     (sampleAlert "a3" "overspeed" (noon - 10 * minute)
                        (driver "D1"))
                     (freshWorld recentOverspeed [])
                     (sampleWorld recentOverspeed [])
                     RULE_OVERSPEED_001 (driver "D1")
                     Hcons eq_refl eq_refl eq_refl)
              eq_refl eq_refl
              (calm_nil 1 (sampleWorld recentOverspeed []) eq_refl))
    as (ev & w' & E & Hr & _ & _ & Hat & _).
  exists ev, w'. split; [exact E|]. split; [exact Hr|].
  apply Hat. vm_compute. reflexivity.
Defined.

(** C2 as stated fails: the alert dated after the clock is counted. *)
Lemma escalation_counts_later_alerts :
  fst (evaluateAlert
         (sampleAlert "a2" "overspeed" (noon - 20 * minute) (driver "D1"))
         (sampleWorld laterOverspeed []))
  = Normal {| shouldEscalate := true; shouldAutoClose := false;
              reason := Some "3 overspeed alerts detected within 60 minutes";
              rule := Some RULE_OVERSPEED_001 |}
  /\ counts RULE_OVERSPEED_001 = true
  /\ threshold RULE_OVERSPEED_001 = 3
  /\ similarWithin (windowStart noon RULE_OVERSPEED_001) noon
       (sampleAlert "a2" "overspeed" (noon - 20 * minute) (driver "D1"))
       (JS.Str "D1") laterOverspeed = 2.
Proof. vm_compute. repeat split; reflexivity. Qed.

(** The seeded rules followed by a second overspeed rule of priority 5:
    the index keeps the second one. *)
Lemma initialize_retains_lowest_priority_witness :
  priorityDescending
    [RULE_OVERSPEED_001; RULE_COMPLIANCE_001; RULE_FEEDBACK_001;
     RULE_OVERSPEED_002]
  /\ exists w',
       initialize
         {| rules := ∅; initialized := false;
            cachedRules := Some [RULE_OVERSPEED_001; RULE_COMPLIANCE_001;
                                 RULE_FEEDBACK_001; RULE_OVERSPEED_002];
            ruleDocs := []; alertDocs := []; historyDocs := [];
            clock := noon; faults := [] |}
       = (Normal tt, w')
       /\ rules w' !! "overspeed" = Some RULE_OVERSPEED_002.
Proof.
  assert (Hs : priorityDescending
                 [RULE_OVERSPEED_001; RULE_COMPLIANCE_001; RULE_FEEDBACK_001;
                  RULE_OVERSPEED_002]).
  { cbn. repeat split; try exact I; intros r' Hr';
      repeat (apply elem_of_cons in Hr' as [->|Hr']; [vm_compute; discriminate|]);
      inversion Hr'. }
  split; [exact Hs|].
  destruct (initialize_retains_lowest_priority
              [RULE_OVERSPEED_001; RULE_COMPLIANCE_001; RULE_FEEDBACK_001;
               RULE_OVERSPEED_002]
              {| rules := ∅; initialized := false;
                 cachedRules := Some [RULE_OVERSPEED_001; RULE_COMPLIANCE_001;
                                      RULE_FEEDBACK_001; RULE_OVERSPEED_002];
                 ruleDocs := []; alertDocs := []; historyDocs := [];
                 clock := noon; faults := [] |}
              Hs (or_introl eq_refl))
    as (_ & w' & E & _ & Hr & _).
  exists w'. split; [exact E|]. rewrite Hr. vm_compute. reflexivity.
Defined.


(** The batch of five with one failing [save]. *)
Example processBatch_five_one_failure :
  exists alerts' w',
    processBatch fiveOverspeed (sampleWorld fiveOverspeed eighthCallFails)
    = (Normal ({| processed := 4; escalated := 4; autoClosed := 0;
                  errors := 1 |}, alerts'), w')
    /\ map Alert.status (alertDocs w')
       = [ESCALATED; ESCALATED; OPEN; ESCALATED; ESCALATED]
    /\ length (historyDocs w') = 4%nat.
Proof. eexists _, _. vm_compute. repeat split; reflexivity. Qed.

Lemma processBatch_isolates_failures_witness :
  length fiveOverspeed = 5%nat
  /\ howMany errored
       (outcomes fiveOverspeed (sampleWorld fiveOverspeed eighthCallFails))
     = 1%nat
  /\ exists results alerts' w',
       processBatch fiveOverspeed (sampleWorld fiveOverspeed eighthCallFails)
       = (Normal (results, alerts'), w')
       /\ processed results = 4%nat /\ errors results = 1%nat.
Proof.
  split; [reflexivity|]. split; [vm_compute; reflexivity|].
  destruct (processBatch_isolates_failures fiveOverspeed
              (sampleWorld fiveOverspeed eighthCallFails))
    as (_ & results & alerts' & w' & E & _ & _ & _ & _ & _ & _ & _ & H5).
  exists results, alerts', w'. split; [exact E|].
  apply H5; [reflexivity | vm_compute; reflexivity].
Defined.



(** An overspeed alert created 1441 minutes ago, rule threshold 1440. *)
Lemma autoClose_iff_aged_or_condition_witness :
  exists ev w',
    evaluateAlert
      (sampleAlert "a5" "overspeed" (noon - 1441 * minute) (driver "D3"))
      (sampleWorld [] [])
    = (Normal ev, w')
    /\ shouldAutoClose ev = true.
Proof.
  destruct (autoClose_iff_aged_or_condition
              (sampleAlert "a5" "overspeed" (noon - 1441 * minute) (driver "D3"))
              (sampleWorld [] []) (sampleWorld [] []) RULE_OVERSPEED_001
              eq_refl eq_refl eq_refl)
    as (ev & w' & E & _ & Hsome & _).
  - intros _. split; [discriminate|]. split; [reflexivity|].
    apply calm_nil. reflexivity.
  - exists ev, w'. split; [exact E|].
    destruct (Hsome 1440 eq_refl) as (_ & _ & Hplus & _); [discriminate|].
    apply Hplus. reflexivity.
Defined.

(** C7 as stated fails: closed on the condition, below the age threshold. *)
Lemma autoClose_before_age_threshold :
  fst (evaluateAlert renewed (sampleWorld [renewed] []))
  = Normal {| shouldEscalate := false; shouldAutoClose := true;
              reason := Some "Condition met: document_valid";
              rule := Some RULE_COMPLIANCE_001 |}
  /\ Rule.auto_close_after_mins (Rule.conditions RULE_COMPLIANCE_001)
     = Some 10080
  /\ ~ agedBeyond 10080 noon renewed.
Proof.
  split; [vm_compute; reflexivity|]. split; [reflexivity|].
  intros Hq. unfold agedBeyond, minutesSince, Qle in Hq.
  vm_compute in Hq. apply Hq. reflexivity.
Qed.

(** A metadata map with [documentValid: true]. *)
Lemma evaluateCloseCondition_catalogue_witness :
  0 <= noon
  /\ JS.ToBoolean
       (evaluateCloseCondition noon "document_valid"
          {[ "documentValid" := JS.Boolean true ]}) = true
  /\ evaluateCloseCondition noon "maintenance_completed"
       {[ "documentValid" := JS.Boolean true ]} = JS.Boolean false.
Proof.
  assert (Hn : 0 <= noon) by (vm_compute; discriminate).
  destruct (evaluateCloseCondition_catalogue noon
              {[ "documentValid" := JS.Boolean true ]} Hn)
    as (Hdoc & _ & _ & Hother).
  split; [exact Hn|]. split.
  - apply Hdoc. left. reflexivity.
  - apply Hother; [discriminate..|reflexivity].
Defined.

(* ================================================================== *)
(** ** The further properties on the sample data *)
(* ================================================================== *)

(** An alert of a source type for which no rule is seeded. *)
Lemma unmatched_alert_untouched_witness :
  evaluateAlert (sampleAlert "o1" "other" noon (driver "D1")) (sampleWorld [] [])
  = (Normal noAction, sampleWorld [] [])
  /\ processAlert (sampleAlert "o1" "other" noon (driver "D1")) (sampleWorld [] [])
     = (Normal ({| success := true; modified := false;
                   evaluation := Some noAction; error := None |},
                sampleAlert "o1" "other" noon (driver "D1")),
        sampleWorld [] []).
Proof.
  apply (unmatched_alert_untouched
           (sampleAlert "o1" "other" noon (driver "D1")) (sampleWorld [] [])
           eq_refl).
  intros r Hr. vm_compute in Hr. discriminate Hr.
Defined.

(** Three overspeed alerts that name no driver: the third escalates. *)
Lemma driverless_alerts_counted_together_witness :
  exists ev w',
    evaluateAlert (sampleAlert "n3" "overspeed" (noon - 10 * minute) ∅)
      (sampleWorld driverless [])
    = (Normal ev, w')
    /\ shouldEscalate ev = true.
Proof.
  destruct (driverless_alerts_counted_together
              (sampleAlert "n3" "overspeed" (noon - 10 * minute) ∅)
              (sampleWorld driverless []) (sampleWorld driverless [])
              RULE_OVERSPEED_001 ∅
              eq_refl eq_refl eq_refl eq_refl eq_refl)
    as (ev & w' & E & Hesc);
    [vm_compute; reflexivity | reflexivity | apply calm_nil; reflexivity |].
  exists ev, w'. split; [exact E|]. apply Hesc. vm_compute. discriminate.
Defined.

(** The first evaluation in a process that has just started. *)
Lemma first_evaluation_loads_rules_witness :
  exists c w',
    evaluateAlert (sampleAlert "a1" "overspeed" noon (driver "D1"))
      (freshWorld [] [])
    = (c, w')
    /\ initialized w' = true
    /\ rules w' = indexRules (enabledRules (freshWorld [] []))
    /\ cachedRules w' = Some (enabledRules (freshWorld [] [])).
Proof.
  apply (proj1 (first_evaluation_loads_rules
                  (sampleAlert "a1" "overspeed" noon (driver "D1"))
                  (freshWorld [] []) eq_refl)).
  right. split; [reflexivity|]. split; [apply calm_nil; reflexivity|reflexivity].
Defined.


(** The third overspeed alert of driver D1 within the hour is escalated:
    one entry, one change of status. *)
Lemma engine_history_discipline_witness :
  exists result alert' w',
    processAlert (sampleAlert "a3" "overspeed" (noon - 10 * minute) (driver "D1"))
      (sampleWorld recentOverspeed [])
    = (Normal (result, alert'), w')
    /\ (length (appended (sampleWorld recentOverspeed []) w') <= 2)%nat.
Proof.
  eexists _, _, _. split; [vm_compute; reflexivity|].
  refine (proj1 (proj2 (engine_history_discipline
                          (sampleAlert "a3" "overspeed" (noon - 10 * minute)
                             (driver "D1"))
                          (sampleWorld recentOverspeed []) _ _ _ _))).
  vm_compute. reflexivity.
Defined.

Lemma success_accounts_for_every_change_witness :
  exists result alert' w',
    processAlert (sampleAlert "a3" "overspeed" (noon - 10 * minute) (driver "D1"))
      (sampleWorld recentOverspeed [])
    = (Normal (result, alert'), w')
    /\ success result = true
    /\ leads OPEN (appended (sampleWorld recentOverspeed []) w')
         (Alert.status alert').
Proof.
  eexists _, _, _. split; [vm_compute; reflexivity|].
  split; [reflexivity|].
  refine (proj1 (proj2 (success_accounts_for_every_change
                          (sampleAlert "a3" "overspeed" (noon - 10 * minute)
                             (driver "D1"))
                          (sampleWorld recentOverspeed []) _ _ _ _ _)));
    [vm_compute; reflexivity|reflexivity].
Defined.

Lemma engine_never_moves_back_witness :
  exists result alert' w',
    processAlert oldOverspeed (sampleWorld (oldOverspeed :: recentOverspeed) [])
    = (Normal (result, alert'), w')
    /\ (rank (Alert.status oldOverspeed) <= rank (Alert.status alert'))%nat.
Proof.
  eexists _, _, _. split; [vm_compute; reflexivity|].
  refine (proj1 (engine_never_moves_back oldOverspeed
                   (sampleWorld (oldOverspeed :: recentOverspeed) []) _ _ _ _)).
  vm_compute. reflexivity.
Defined.

(** The store answers the count query and rejects the [save] of the
    escalation. *)
Lemma failed_write_is_not_rolled_back_witness :
  exists w',
    processAlert (sampleAlert "a3" "overspeed" (noon - 10 * minute) (driver "D1"))
      (sampleWorld recentOverspeed [false; true])
    = (Normal (failed "store operation failed",
               Alert.escalate noon
                 (Some "3 overspeed alerts detected within 60 minutes")
                 (sampleAlert "a3" "overspeed" (noon - 10 * minute)
                    (driver "D1"))),
       w')
    /\ alertDocs w' = recentOverspeed
    /\ historyDocs w' = [].
Proof.
  refine (proj1 (failed_write_is_not_rolled_back
                   (sampleAlert "a3" "overspeed" (noon - 10 * minute)
                      (driver "D1"))
                   (sampleWorld recentOverspeed [false; true])
                   {| shouldEscalate := true; shouldAutoClose := false;
                      reason := Some "3 overspeed alerts detected within 60 minutes";
                      rule := Some RULE_OVERSPEED_001 |}
                   (sampleWorld recentOverspeed [true]) []
                   eq_refl _ eq_refl) eq_refl).
  vm_compute. reflexivity.
Defined.

Lemma processBatch_results_consistent_witness :
  exists r alerts' w',
    processBatch fiveOverspeed (sampleWorld fiveOverspeed eighthCallFails)
    = (Normal (r, alerts'), w')
    /\ (escalated r + autoClosed r <= processed r)%nat
    /\ (processed r <= length fiveOverspeed)%nat.
Proof.
  eexists _, _, _. split; [vm_compute; reflexivity|].
  refine ((fun H => conj (proj1 H) (proj1 (proj2 H)))
            (processBatch_results_consistent fiveOverspeed
               (sampleWorld fiveOverspeed eighthCallFails) _ _ _ _)).
  vm_compute. reflexivity.
Defined.

(** A batch of one alert in a store of four. *)
Lemma processBatch_footprint_witness :
  exists r alerts' w',
    processBatch [oldOverspeed] (sampleWorld (oldOverspeed :: recentOverspeed) [])
    = (Normal (r, alerts'), w')
    /\ map Alert._id (alertDocs w') = ["a0"; "a1"; "a2"; "a3"].
Proof.
  eexists _, _, _. split; [vm_compute; reflexivity|].
  refine (proj1 (processBatch_footprint [oldOverspeed]
                   (sampleWorld (oldOverspeed :: recentOverspeed) []) _ _ _ _)).
  vm_compute. reflexivity.
Defined.

(** The seeded maintenance rule on a report whose work is done. *)
Lemma rule_evaluate_reads_plain_flags_witness :
  Rule_evaluate RULE_MAINTENANCE_001 maintenanceDone
  = JS.ToBoolean
      (evaluateCloseCondition noon "maintenance_completed"
         {[ "maintenance_completed" := JS.Boolean true ]}).
Proof.
  refine (proj2 (rule_evaluate_reads_plain_flags noon RULE_MAINTENANCE_001
                   maintenanceDone
                   {[ "maintenance_completed" := JS.Boolean true ]}
                   "maintenance_completed"
                   eq_refl eq_refl eq_refl _ eq_refl) _).
  - discriminate.
  - intros Hx.
    repeat (apply elem_of_cons in Hx as [Hx|Hx]; [discriminate Hx|]).
    inversion Hx.
Defined.

(** The seeded overspeed rule closes after 1440 minutes, 24 hours. *)
Lemma ageInHours_agrees_with_age_check_witness :
  agedOut noon RULE_OVERSPEED_001 oldOverspeed
  = (24 <=? ageInHours noon oldOverspeed).
Proof.
  apply (ageInHours_agrees_with_age_check noon RULE_OVERSPEED_001 oldOverspeed 24);
    [reflexivity|discriminate].
Defined.

Lemma getNeedingEvaluation_selects_witness :
  exists l w',
    Alert_getNeedingEvaluation (sampleWorld expiringAlerts []) = (Normal l, w')
    /\ map Alert._id l = ["e3"; "e1"]
    /\ timestampAscending l.
Proof.
  eexists _, _. split; [vm_compute; reflexivity|]. split; [reflexivity|].
  refine (proj1 (getNeedingEvaluation_selects (sampleWorld expiringAlerts [])
                   _ _ _)).
  vm_compute. reflexivity.
Defined.

(** The seeded overspeed rule is switched off. *)
Lemma toggle_takes_effect_witness :
  exists w',
    toggleRule "RULE_OVERSPEED_001" (sampleWorld [] [])
    = (Normal (Json 200 true "Rule disabled successfully"
                 (Some (toggled RULE_OVERSPEED_001))), w')
    /\ forall st x, rules w' !! st = Some x ->
         Rule.ruleId x <> "RULE_OVERSPEED_001".
Proof.
  eexists. split; [vm_compute; reflexivity|].
  refine (proj1 (proj2 (proj2
            (toggle_takes_effect "RULE_OVERSPEED_001" (sampleWorld [] [])
               true "Rule disabled successfully" (toggled RULE_OVERSPEED_001)
               _ _ _))) eq_refl).
  - vm_compute. reflexivity.
  - cbn. repeat (apply NoDup_cons_2;
                   [intros Hx;
                    repeat (apply elem_of_cons in Hx as [Hx|Hx];
                            [discriminate Hx|]);
                    inversion Hx|]).
    apply NoDup_nil_2.
Defined.

Lemma toggleRule_twice_witness :
  exists s1 m1 w1 s2 m2 w2,
    toggleRule "RULE_OVERSPEED_001" (sampleWorld [] [])
    = (Normal (Json 200 s1 m1 (Some (toggled RULE_OVERSPEED_001))), w1)
    /\ toggleRule "RULE_OVERSPEED_001" w1
       = (Normal (Json 200 s2 m2 (Some RULE_OVERSPEED_001)), w2)
    /\ ruleDocs w2 = seedRules
    /\ rules w2 = indexRules (enabledRules (sampleWorld [] []))
    /\ cachedRules w2 = None.
Proof.
  apply (toggleRule_twice "RULE_OVERSPEED_001" (sampleWorld [] []) 0
           RULE_OVERSPEED_001).
  - apply calm_nil. reflexivity.
  - vm_compute. reflexivity.
Defined.

(** A fetch that answers [undefined] is not repeated: the next call
    answers [null] from the cache, also when the source is down. *)
Lemma getOrSet_memoizes_witness :
  exists s1,
    CacheManager.getOrSet "dashboard:stats" (ret CacheManager.Undefined)
      emptyCache
    = (Normal CacheManager.Undefined, s1)
    /\ CacheManager.getOrSet "dashboard:stats" (throw "source is down") s1
       = (Normal CacheManager.Null, (fst s1, CacheManager.countHit (snd s1))).
Proof.
  eexists. split; [vm_compute; reflexivity|].
  apply (getOrSet_memoizes "dashboard:stats" (ret CacheManager.Undefined)
           emptyCache CacheManager.Undefined).
  vm_compute. reflexivity.
Defined.

(** A second escalation, one millisecond later and for another reason,
    changes nothing. *)
Lemma guarded_transitions_compose_witness :
  Alert.escalate (noon + 1) None
    (Alert.escalate noon (Some "first") oldOverspeed)
  = Alert.escalate noon (Some "first") oldOverspeed.
Proof.
  exact (proj1 (guarded_transitions_compose noon (noon + 1) (Some "first") None
                  oldOverspeed)).
Defined.

(** The seeded rules followed by the second overspeed rule. *)
Lemma index_keeps_last_of_type_witness :
  indexRules (seedRules ++ [RULE_OVERSPEED_002]) !! "overspeed"
  = Some RULE_OVERSPEED_002.
Proof.
  exact (proj2 (proj2 (index_keeps_last_of_type
                         (seedRules ++ [RULE_OVERSPEED_002]) "overspeed"))
           seedRules RULE_OVERSPEED_002 [] eq_refl eq_refl eq_refl).
Defined.

Lemma reloadRules_reads_the_store_witness :
  exists w',
    reloadRules (freshWorld [] []) = (Normal tt, w')
    /\ initialized w' = true
    /\ cachedRules w' = Some (enabledRules (freshWorld [] [])).
Proof.
  destruct (proj1 (reloadRules_reads_the_store (freshWorld [] []))
              (calm_nil 1 (freshWorld [] []) eq_refl))
    as (w' & E & Hi & Hc & _).
  exists w'. auto.
Defined.

Lemma processBatch_splits_witness :
  exists r1 l1' w1 r2 l2' w2 r,
    processBatch [oldOverspeed]
      (sampleWorld (oldOverspeed :: recentOverspeed) [])
    = (Normal (r1, l1'), w1)
    /\ processBatch recentOverspeed w1 = (Normal (r2, l2'), w2)
    /\ processBatch (oldOverspeed :: recentOverspeed)
         (sampleWorld (oldOverspeed :: recentOverspeed) [])
       = (Normal (r, (l1' ++ l2')%list), w2)
    /\ processed r = (processed r1 + processed r2)%nat.
Proof.
  destruct (processBatch_splits [oldOverspeed] recentOverspeed
              (sampleWorld (oldOverspeed :: recentOverspeed) []))
    as (r1 & l1' & w1 & r2 & l2' & w2 & r & E1 & E2 & E & Hp & _).
  exists r1, l1', w1, r2, l2', w2, r. auto.
Defined.

(** One run of each job over the four overspeed alerts. *)
Lemma autoCloseJob_outcome_witness :
  exists stats' w',
    runAutoCloseJob (noRuns, sampleWorld (oldOverspeed :: recentOverspeed) [])
    = (Normal tt, (stats', w'))
    /\ stats' = countAutoCloseRun noon noRuns
    /\ map Alert._id (alertDocs w') = ["a0"; "a1"; "a2"; "a3"].
Proof.
  destruct (autoCloseJob_outcome noRuns
              (sampleWorld (oldOverspeed :: recentOverspeed) []))
    as (stats' & w' & E & Hcount & _ & Hids & _).
  exists stats', w'. split; [exact E|]. split; [|exact Hids].
  apply Hcount. split; [discriminate|].
  exists oldOverspeed. split; [left|split; reflexivity].
Defined.

Lemma ruleEvaluationJob_outcome_witness :
  exists stats' w',
    runRuleEvaluationJob
      (noRuns, sampleWorld (oldOverspeed :: recentOverspeed) [true])
    = (Normal tt, (stats', w'))
    /\ stats' = noRuns
    /\ cachedRules w' = None
    /\ alertDocs w' = oldOverspeed :: recentOverspeed.
Proof.
  destruct (ruleEvaluationJob_outcome noRuns
              (sampleWorld (oldOverspeed :: recentOverspeed) [true]))
    as (stats' & w' & E & Hrej & _).
  destruct (Hrej eq_refl) as (Hs & Hst & _ & _ & _ & Hc).
  exists stats', w'. split_and!; auto.
  injection Hst as Ha _ _ _. exact Ha.
Defined.

(** The first of the three overspeed alerts is resolved by a user. *)
Lemma resolveAlert_outcomes_witness :
  exists response w',
    resolveAlert "ALT-a1" (Some "checked with the driver") "u1"
      (sampleWorld recentOverspeed [])
    = (Normal response, w')
    /\ (exists code success message data,
          response = Json code success message data)
    /\ engine w' = engine (sampleWorld recentOverspeed []).
Proof.
  destruct (resolveAlert_outcomes "ALT-a1" (Some "checked with the driver") "u1"
              (sampleWorld recentOverspeed []))
    as (response & w' & E & He & _ & _ & Hcalm & _).
  exists response, w'. split_and!; auto.
  apply Hcalm, calm_nil. reflexivity.
Defined.

(** The first of three recorded alerts is deleted: its history entry
    stays. *)
Lemma deleteAlert_keeps_history_witness :
  exists w',
    deleteAlert "ALT-a1" recordedWorld
    = (Normal (Json 200 true "Alert deleted successfully" None), w')
    /\ historyDocs w' = map created recentOverspeed
    /\ map Alert._id (alertDocs w') = ["a2"; "a3"].
Proof.
  destruct (deleteAlert_keeps_history "ALT-a1" recordedWorld)
    as (response & w' & E & Hh & _).
  assert (E' : deleteAlert "ALT-a1" recordedWorld = (Normal response, w'))
    by exact E.
  vm_compute in E'. inversion E'. subst response w'.
  eexists. split; [exact E|]. split; [exact Hh|reflexivity].
Defined.

Lemma toggleRule_outcomes_witness :
  exists response w',
    toggleRule "RULE_FEEDBACK_001" (sampleWorld recentOverspeed [])
    = (Normal response, w')
    /\ alertDocs w' = recentOverspeed
    /\ forall e, response <> Next e.
Proof.
  destruct (toggleRule_outcomes "RULE_FEEDBACK_001"
              (sampleWorld recentOverspeed []))
    as (response & w' & E & Ha & _ & Hcalm & _).
  exists response, w'. split_and!; auto.
  apply Hcalm, calm_nil. reflexivity.
Defined.

Lemma deleteRule_outcomes_witness :
  exists response w',
    deleteRule "RULE_FEEDBACK_001" (sampleWorld recentOverspeed [])
    = (Normal response, w')
    /\ alertDocs w' = recentOverspeed
    /\ forall e, response <> Next e.
Proof.
  destruct (deleteRule_outcomes "RULE_FEEDBACK_001"
              (sampleWorld recentOverspeed []))
    as (response & w' & E & Ha & _ & Hcalm & _).
  exists response, w'. split_and!; auto.
  apply Hcalm, calm_nil. reflexivity.
Defined.

(** The pattern of the alert pages also matches a key of another module,
    in the middle of the key. *)
Lemma invalidatePattern_by_substring_witness :
  CacheManager.entries (CacheManager.invalidatePattern "alerts:" sampleCache)
    !! "user:alerts:1" = None.
Proof.
  apply (proj1 (invalidatePattern_by_substring sampleCache "alerts:"
                  "user:alerts:1")).
  exists "user:", "1". reflexivity.
Defined.
